(** * SumChat: the windowed engagement pipeline and its broadcast protocol

    A shallow embedding of [bridge/eeg_ws_bridge.py] and
    [engagement_streaming.py].

    Numbers.  Python floats are modelled by [pyfloat]: the IEEE special
    values (NaN, the two infinities) are kept, because the source uses
    [math.inf] as the "no observation yet" sentinel and tests values with
    [math.isfinite]; finite values are real numbers and finite arithmetic
    is exact (no rounding, no overflow, no signed zero).  Python integers
    are [Z].  Wall-clock instants are real numbers of seconds.

    Libraries.  numpy's array functions are written out on lists of reals
    after their documentation; the board and the file system are inputs
    of the functions that use them; whether [send] and [close] of a
    websocket raise is a parameter.

    Control.  Exceptions are the [Raise] results of [res].  asyncio runs
    coroutines cooperatively, so the code between two [await]s is one
    step: of the bridge as a whole ([sys_step]) and of the coroutines of
    one [gather] ([task_step]). *)

From Stdlib Require Import Reals Lra ZArith Lia List Ascii String Bool.
From stdpp Require Import base strings gmap sets.
From Equations Require Import Equations.
Import ListNotations.

#[local] Set Warnings "-register-all".

Open Scope R_scope.

(* ===================================================================== *)
(** * Python values shared by all components                              *)
(* ===================================================================== *)

(** Exceptions the modelled code can raise. *)
Inductive exn : Type :=
| ZeroDivisionError
| AttributeError
| ValueError
| TypeError
| JSONDecodeError
| UnicodeDecodeError
| OSError
| ConnectionClosed
| OverflowError
| RuntimeError.

(** Result of a Python computation: a value, or a raised exception. *)
Inductive res (A : Type) : Type :=
| Ok (a : A)
| Raise (e : exn).
Arguments Ok {A} a.
Arguments Raise {A} e.

Definition bind {A B : Type} (m : res A) (k : A -> res B) : res B :=
  match m with
  | Ok a => k a
  | Raise e => Raise e
  end.

Notation "'let*' x ':=' m 'in' k" := (bind m (fun x => k))
  (at level 10, x name, m at level 100, k at level 200).

Inductive pyfloat : Type :=
| FNaN
| FNegInf
| Fin (r : R)
| FPosInf.

Definition Rltb (a b : R) : bool := if Rlt_dec a b then true else false.
Definition Reqb (a b : R) : bool := if Req_dec_T a b then true else false.

(** [a < b] on floats: every comparison with NaN is false. *)
Definition flt (a b : pyfloat) : bool :=
  match a, b with
  | FNaN, _ => false
  | _, FNaN => false
  | FNegInf, FNegInf => false
  | FNegInf, _ => true
  | Fin _, FNegInf => false
  | Fin x, Fin y => Rltb x y
  | Fin _, FPosInf => true
  | FPosInf, _ => false
  end.

(** [a > b] *)
Definition fgt (a b : pyfloat) : bool := flt b a.

(** [a - b] *)
Definition fsub (a b : pyfloat) : pyfloat :=
  match a, b with
  | FNaN, _ => FNaN
  | _, FNaN => FNaN
  | FPosInf, FPosInf => FNaN
  | FNegInf, FNegInf => FNaN
  | FPosInf, _ => FPosInf
  | FNegInf, _ => FNegInf
  | Fin _, FPosInf => FNegInf
  | Fin _, FNegInf => FPosInf
  | Fin x, Fin y => Fin (x - y)
  end.

(** Sign flip of an infinity divided by a finite non-zero [y]. *)
Definition inf_over (pos : bool) (y : R) : pyfloat :=
  if Bool.eqb pos (Rltb 0 y) then FPosInf else FNegInf.

(** [a / b] on Python floats: a zero divisor raises. *)
Definition fdiv (a b : pyfloat) : res pyfloat :=
  match b with
  | FNaN => Ok FNaN
  | Fin y =>
      if Reqb y 0 then Raise ZeroDivisionError
      else match a with
           | FNaN => Ok FNaN
           | Fin x => Ok (Fin (x / y))
           | FPosInf => Ok (inf_over true y)
           | FNegInf => Ok (inf_over false y)
           end
  | FPosInf | FNegInf =>
      match a with
      | Fin _ => Ok (Fin 0)
      | _ => Ok FNaN
      end
  end.

(** The builtins [min(a, b)] and [max(a, b)]: the first argument is kept
    unless the second compares strictly below (above) it. *)
Definition py_min (a b : pyfloat) : pyfloat := if flt b a then b else a.
Definition py_max (a b : pyfloat) : pyfloat := if fgt b a then b else a.

(** [math.isfinite] *)
Definition isfinite (v : pyfloat) : bool :=
  match v with
  | Fin _ => true
  | _ => false
  end.

(* ===================================================================== *)
(** * NormState (bridge/eeg_ws_bridge.py, lines 77-90)                    *)
(* ===================================================================== *)

Record NormState : Type := mkNorm { Emin : pyfloat; Emax : pyfloat }.

(** [NormState()]: the dataclass defaults. *)
Definition NormState_init : NormState := mkNorm FPosInf FNegInf.

Definition update (s : NormState) (value : pyfloat) : NormState :=
  let s1 := if flt value (Emin s) then mkNorm value (Emax s) else s in
  if fgt value (Emax s1) then mkNorm (Emin s1) value else s1.

Definition reset (s : NormState) : NormState := mkNorm FPosInf FNegInf.

(** The normalisation step of the loop body (lines 245-249), as a function
    of the normaliser state and the raw value. *)
Definition normalize (s : NormState) (E : pyfloat) : res pyfloat :=
  let* Enorm := (if fgt (Emax s) (Emin s)
                 then fdiv (fsub E (Emin s)) (fsub (Emax s) (Emin s))
                 else Ok (Fin (1/2))) in
  Ok (py_max (Fin 0) (py_min (Fin 1) Enorm)).

(** The same update written inline in [run_engagement]
    (engagement_streaming.py, lines 143-147); the flag is [updated]. *)
Definition observe_inline (Emin0 Emax0 E : pyfloat)
  : pyfloat * pyfloat * bool :=
  let updated := false in
  let '(Emin1, updated) :=
    if flt E Emin0 then (E, true) else (Emin0, updated) in
  let '(Emax1, updated) :=
    if fgt E Emax0 then (E, true) else (Emax0, updated) in
  (Emin1, Emax1, updated).

(** What can happen to a normaliser: an observation or a reset. *)
Inductive norm_event : Type :=
| Observe (E : R)
| Reset.

Definition norm_step (s : NormState) (ev : norm_event) : NormState :=
  match ev with
  | Observe E => update s (Fin E)
  | Reset => reset s
  end.

Definition norm_run (evs : list norm_event) : NormState :=
  fold_left norm_step evs NormState_init.

Definition observe_all (obs : list R) : NormState :=
  fold_left (fun s E => update s (Fin E)) obs NormState_init.

(** A normaliser that has only seen finite values is either untouched or
    holds two finite, ordered bounds. *)
Definition norm_regular (s : NormState) : Prop :=
  s = NormState_init \/ exists lo hi, s = mkNorm (Fin lo) (Fin hi) /\ lo <= hi.

(* ===================================================================== *)
(** * Arrays                                                              *)
(* ===================================================================== *)

(** A two-dimensional numpy array: [shape = (length rows, ncols)].  The
    column count is kept apart from the rows so that the shapes [(0, 0)],
    [(0, C)] and [(n, 0)] stay distinct, as they are in numpy. *)
Record ndarray : Type := mkArr { ncols : nat; rows : list (list R) }.

Definition shape0 (a : ndarray) : nat := length (rows a).
Definition shape1 (a : ndarray) : nat := ncols a.
Definition size (a : ndarray) : nat := (shape0 a * shape1 a)%nat.

(** [np.empty((0, 0))] *)
Definition np_empty00 : ndarray := mkArr 0 [].

(** The slice [l[start:]] of a Python sequence: a negative start counts
    from the end and is clamped at the front, a start past the end gives
    the empty sequence. *)
Definition slice_from {A : Type} (start : Z) (l : list A) : list A :=
  let len := Z.of_nat (length l) in
  let s := if (start <? 0)%Z then Z.max (start + len) 0 else Z.min start len in
  skipn (Z.to_nat s) l.

(** [a[-k:, :]] *)
Definition last_rows (k : Z) (a : ndarray) : ndarray :=
  mkArr (ncols a) (slice_from (- k) (rows a)).

(** [a[:, c]] *)
Definition column (a : ndarray) (c : nat) : list R :=
  map (fun r => nth c r 0) (rows a).

(** [np.vstack((a, b))]: the column counts must agree. *)
Definition np_vstack (a b : ndarray) : res ndarray :=
  if Nat.eqb (ncols a) (ncols b)
  then Ok (mkArr (ncols a) (rows a ++ rows b))
  else Raise ValueError.

(* ===================================================================== *)
(** * numpy's vector operations, on lists of reals                        *)
(* ===================================================================== *)

Fixpoint zip_with {A B C : Type} (f : A -> B -> C) (l1 : list A) (l2 : list B)
  : list C :=
  match l1, l2 with
  | a :: l1', b :: l2' => f a b :: zip_with f l1' l2'
  | _, _ => []
  end.

Definition np_sum (l : list R) : R := fold_right Rplus 0 l.

Definition np_mean (x : list R) : R := np_sum x / INR (length x).

(** [np.hanning(M)]: [0.5 + 0.5 * cos(pi * n / (M - 1))] over
    [n = arange(1 - M, M, 2)], and [ones(1)] for [M = 1]. *)
Definition np_hanning (M : nat) : list R :=
  match M with
  | O => []
  | S O => [1]
  | _ => map (fun k => 1/2 + 1/2 * cos (PI * (1 - INR M + 2 * INR k) / (INR M - 1)))
             (seq 0 M)
  end.

(** [np.fft.rfftfreq(n, d)]: [arange(0, n // 2 + 1) * (1.0 / (n * d))]. *)
Definition np_rfftfreq (n : nat) (d : R) : list R :=
  let val := 1 / (INR n * d) in
  map (fun k => INR k * val) (seq 0 (n / 2 + 1)).

(** Complex numbers, as [numpy.complex128] pairs. *)
Definition cplx : Type := (R * R)%type.

(** One output bin of the discrete Fourier transform:
    [sum_m x[m] * exp(-2 pi i m k / n)]. *)
Definition dft_bin (x : list R) (k : nat) : cplx :=
  let n := length x in
  let term := fun (m : nat) (xm : R) =>
    let phi := 2 * PI * INR m * INR k / INR n in
    (xm * cos phi, - (xm * sin phi)) in
  fold_right (fun z acc => (fst z + fst acc, snd z + snd acc)) (0, 0)
             (zip_with term (seq 0 n) x).

(** [np.fft.rfft(x)]: the bins [0 .. n // 2]. *)
Definition np_rfft (x : list R) : list cplx :=
  map (dft_bin x) (seq 0 (length x / 2 + 1)).

(** [np.abs] of a complex number. *)
Definition np_abs (z : cplx) : R := sqrt (fst z * fst z + snd z * snd z).

(** Boolean-mask indexing [a[mask]]. *)
Fixpoint mask_index {A : Type} (a : list A) (mask : list bool) : list A :=
  match a, mask with
  | x :: a', b :: mask' =>
      if b then x :: mask_index a' mask' else mask_index a' mask'
  | _, _ => []
  end.

(** [np.any] *)
Definition np_any (mask : list bool) : bool := existsb (fun b => b) mask.

(** [np.trapz(y, x)]: [sum(diff(x) * (y[1:] + y[:-1]) / 2.0)]. *)
Definition np_trapz (y x : list R) : R :=
  let d := zip_with Rminus (tl x) x in
  let s := zip_with Rplus (tl y) y in
  np_sum (zip_with (fun di si => di * si / 2) d s).

(** Python's [a / b] on two finite numbers. *)
Definition py_div (a b : R) : res R :=
  if Reqb b 0 then Raise ZeroDivisionError else Ok (a / b).

(* ===================================================================== *)
(** * SpectralEngine (bridge/eeg_ws_bridge.py, lines 67-71 and 117-149)   *)
(* ===================================================================== *)

Definition BAND_theta : R * R := (4, 7).
Definition BAND_alpha : R * R := (7, 11).
Definition BAND_beta : R * R := (11, 20).

(** [(freqs >= f_lo) & (freqs < f_hi)] on one bin. *)
Definition in_band (f_lo f_hi f : R) : bool :=
  negb (Rltb f f_lo) && Rltb f f_hi.

(** Samples are real numbers, so the result is one.  The one place where
    the code leaves the reals is a signal of two samples: [np.hanning(2)]
    is [[0, 0]], [psd] is [0 / 0 = nan] (a warning, never an exception),
    and a band that holds both bins, 0 Hz and [fs / 2], integrates it to
    [nan].  A band with [0 < f_lo] never holds the bin at 0 Hz, its mask
    keeps at most one bin and [np.trapz] of one point is [0.0] whatever
    [psd] holds; so the three fixed bands are always inside the model, and
    what is proved of an arbitrary band carries the condition
    [length x <> 2 \/ 0 < f_lo]. *)
Definition bandpower_hann_rfft (x : list R) (fs f_lo f_hi : R) : res R :=
  let n := length x in
  if Nat.eqb n 0 then Ok 0
  else
    let window := np_hanning n in
    let demeaned := zip_with Rmult (map (fun xi => xi - np_mean x) x) window in
    let* d := py_div 1 fs in
    let freqs := np_rfftfreq n d in
    let spec := np_rfft demeaned in
    let psd := map (fun z => (np_abs z) ^ 2
                             / (np_sum (map (fun w => w ^ 2) window) * fs)) spec in
    let mask := map (in_band f_lo f_hi) freqs in
    if negb (np_any mask) then Ok 0
    else Ok (np_trapz (mask_index psd mask) (mask_index freqs mask)).

(** The loop [for c in range(C)] accumulating the three band powers. *)
Fixpoint band_loop (win : ndarray) (fs : R) (cs : list nat) (acc : R * R * R)
  : res (R * R * R) :=
  match cs with
  | [] => Ok acc
  | c :: cs' =>
      let '(theta_p, alpha_p, beta_p) := acc in
      let sig := column win c in
      let* t := bandpower_hann_rfft sig fs (fst BAND_theta) (snd BAND_theta) in
      let* a := bandpower_hann_rfft sig fs (fst BAND_alpha) (snd BAND_alpha) in
      let* b := bandpower_hann_rfft sig fs (fst BAND_beta) (snd BAND_beta) in
      band_loop win fs cs' (theta_p + t, alpha_p + a, beta_p + b)
  end.

(** Returns [(E, alpha_p, theta_p, beta_p)]. *)
Definition engagement_from_window (win : ndarray) (fs : R)
  : res (R * R * R * R) :=
  if Nat.eqb (size win) 0 then Ok (0, 0, 0, 0)
  else
    let C := shape1 win in
    let* sums := band_loop win fs (seq 0 C) (0, 0, 0) in
    let '(theta_p, alpha_p, beta_p) := sums in
    let* theta_p := py_div theta_p (INR C) in
    let* alpha_p := py_div alpha_p (INR C) in
    let* beta_p := py_div beta_p (INR C) in
    let denom := alpha_p + theta_p in
    let* E := (if Rltb (1 / 10 ^ 12) denom then py_div beta_p denom else Ok 0) in
    Ok (E, alpha_p, theta_p, beta_p).

(* ===================================================================== *)
(** * The spectral estimate as the specification words it                 *)
(* ===================================================================== *)

(** [sum_{k < n} f k] *)
Fixpoint big_sum (f : nat -> R) (n : nat) : R :=
  match n with
  | O => 0
  | S m => big_sum f m + f m
  end.

(** The Hann window of length [n] at sample [k]. *)
Definition spec_hann (n k : nat) : R :=
  if Nat.eqb n 1 then 1 else (1 - cos (2 * PI * INR k / (INR n - 1))) / 2.

Definition spec_mean (x : list R) : R :=
  big_sum (fun k => nth k x 0) (length x) / INR (length x).

(** The signal with its mean removed, times the window. *)
Definition spec_windowed (x : list R) (k : nat) : R :=
  (nth k x 0 - spec_mean x) * spec_hann (length x) k.

(** Real and imaginary part of bin [j] of the discrete Fourier transform. *)
Definition spec_dft_re (x : list R) (j : nat) : R :=
  big_sum (fun m => spec_windowed x m
                    * cos (2 * PI * INR m * INR j / INR (length x)))
          (length x).
Definition spec_dft_im (x : list R) (j : nat) : R :=
  - big_sum (fun m => spec_windowed x m
                      * sin (2 * PI * INR m * INR j / INR (length x)))
            (length x).

(** [|spectrum|^2 / (sum window^2 * fs)] at bin [j]. *)
Definition spec_psd (x : list R) (fs : R) (j : nat) : R :=
  (spec_dft_re x j ^ 2 + spec_dft_im x j ^ 2)
  / (big_sum (fun k => spec_hann (length x) k ^ 2) (length x) * fs).

(** The frequency of bin [j] of an [n]-sample window. *)
Definition spec_freq (n : nat) (fs : R) (j : nat) : R := INR j * fs / INR n.

(** [f] lies in [[lo, hi)]. *)
Definition spec_inside (lo hi f : R) : bool :=
  if Rle_dec lo f then (if Rlt_dec f hi then true else false) else false.

(** The trapezoidal rule over the bins [0 .. n / 2] that lie in the band:
    one trapezoid for every two neighbouring bins that are both in. *)
Definition spec_band_power (x : list R) (fs lo hi : R) : R :=
  let n := length x in
  big_sum (fun j =>
             if spec_inside lo hi (spec_freq n fs j)
                && spec_inside lo hi (spec_freq n fs (S j))
             then (spec_freq n fs (S j) - spec_freq n fs j)
                  * (spec_psd x fs (S j) + spec_psd x fs j) / 2
             else 0)
          (n / 2).

(** A band's power averaged over the channels of a window. *)
Definition spec_band_average (win : ndarray) (fs lo hi : R) : R :=
  big_sum (fun c => spec_band_power (column win c) fs lo hi) (shape1 win)
  / INR (shape1 win).

(** The sum of [g k k'] over the neighbours [k, k'] of a list. *)
Fixpoint pair_sum (g : nat -> nat -> R) (ks : list nat) : R :=
  match ks with
  | k :: rest =>
      match rest with
      | k' :: _ => g k k' + pair_sum g rest
      | [] => 0
      end
  | [] => 0
  end.

(* ===================================================================== *)
(** * The stream loop (bridge/eeg_ws_bridge.py, lines 211-271)            *)
(* ===================================================================== *)

Definition EEG_PULL_PERIOD_S : R := 200 / 1000.
Definition WINDOW_S : Z := 1.
Definition GATE_STRIDE : Z := 256.

(** [int(round(WINDOW_S * fs))] for the integral rate that
    [BoardShim.get_sampling_rate] returns. *)
Definition win_len_of (fs : Z) : Z := (WINDOW_S * fs)%Z.

(** The shared state of [EEGBridge]; subscribers are named by numbers. *)
Record Bridge : Type :=
  mkBridge { clients : gset nat; mode : string; norm : NormState }.

(** [EEGBridge.__init__] *)
Definition Bridge_init : Bridge := mkBridge ∅ "normal" NormState_init.

(** Outgoing packets.  A calibration packet carries the two bounds only
    when it answers [reset_norm]; [None] is JSON [null]. *)
Inductive message : Type :=
| MsgHello (m : string)
| MsgCalibration (m : string) (bounds : option (option pyfloat * option pyfloat))
| MsgEngagement (ts fs : Z) (E Enorm alpha theta beta : pyfloat)
                (lo hi : option pyfloat) (m : string).

Definition finite_or_none (value : pyfloat) : option pyfloat :=
  if isfinite value then Some value else None.

(** The local variables of [_stream_loop]. *)
Record Loop : Type :=
  mkLoop { buf : ndarray; global_idx : Z; next_gate : Z;
           next_pull : R; last_sec : Z }.

(** The locals as set before the loop starts, at instant [t0]. *)
Definition Loop_init (t0 : R) : Loop :=
  mkLoop np_empty00 0 GATE_STRIDE t0 (-1).

(** Lines 231-235: a non-empty block [X] is taken into the buffer. *)
Definition buffer_append (win_len fs : Z) (b X : ndarray) : res ndarray :=
  let n := Z.of_nat (shape0 X) in
  if Nat.eqb (size b) 0 then
    Ok (if (win_len <=? n)%Z then last_rows win_len X else X)
  else
    let keep := Z.max (win_len * 2) (win_len + fs) in
    let* stacked := np_vstack b X in
    Ok (last_rows keep stacked).

(** The most recent [bound] samples of a sequence, all of them when there
    are no more than [bound]: what a buffer with retention bound [bound]
    is said to hold. *)
Definition most_recent {A : Type} (bound : Z) (all : list A) : list A :=
  skipn (length all - Z.to_nat bound) all.

(** A first block of three samples at a rate of 2 Hz. *)
Definition first_block3 : ndarray := mkArr 1 [[1]; [2]; [3]].

(** Lines 236-238: the next pull instant after a pull at [now]. *)
Definition advance_pull (next_pull0 now : R) : R :=
  let next_pull1 := next_pull0 + EEG_PULL_PERIOD_S in
  if Rltb EEG_PULL_PERIOD_S (now - next_pull1) then now else next_pull1.

(** Lines 226-238.  [X] is what [get_new_eeg] returns when it is called. *)
Definition pull_step (fs win_len : Z) (l : Loop) (now : R) (X : ndarray)
  : res Loop :=
  if negb (Rltb now (next_pull l)) then
    let n := shape0 X in
    let* l1 :=
      (if (0 <? n)%nat then
         let* b := buffer_append win_len fs (buf l) X in
         Ok (mkLoop b (global_idx l + Z.of_nat n) (next_gate l)
                    (next_pull l) (last_sec l))
       else Ok l) in
    Ok (mkLoop (buf l1) (global_idx l1) (next_gate l1)
               (advance_pull (next_pull l) now) (last_sec l1))
  else Ok l.

(** Lines 268-269: [while next_gate <= global_idx: next_gate += GATE_STRIDE]. *)
Equations? advance_gate (gate idx : Z) : Z
  by wf (Z.to_nat (idx + 1 - gate)) lt :=
  advance_gate gate idx with Z_le_gt_dec gate idx => {
    | left _ := advance_gate (gate + GATE_STRIDE) idx;
    | right _ := gate }.
Proof. unfold GATE_STRIDE. lia. Qed.

(** [int(global_idx // fs)], with [fs] a float. *)
Definition py_floordiv (a b : Z) : res Z :=
  if (b =? 0)%Z then Raise ZeroDivisionError else Ok (a / b)%Z.

(** What one pass over lines 240-269 leaves behind: the shared state, the
    locals, the sample that was computed if the gate fired, and the packet
    handed to [_broadcast] if one was. *)
Record gate_out : Type :=
  mkGateOut { g_bridge : Bridge; g_loop : Loop;
              g_eval : option (R * R * R * R); g_sent : option message }.

(** Lines 240-269 without the [await] of lines 254-266: the evaluation,
    the packet that is handed to [_broadcast], and the [while] loop.  What
    the await does to the subscribers, and that it can raise before the
    [while] loop, is in [gate_pass] (one pass) and [sys_step] (a run). *)
Definition gate_step (fs win_len : Z) (b : Bridge) (l : Loop) (wall_ms : Z)
  : res gate_out :=
  if (next_gate l <=? global_idx l)%Z
     && (win_len <=? Z.of_nat (shape0 (buf l)))%Z
     && (0 <? shape1 (buf l))%nat
  then
    let win := last_rows win_len (buf l) in
    let* sample := engagement_from_window win (IZR fs) in
    let '(E, alpha_p, theta_p, beta_p) := sample in
    let norm1 := update (norm b) (Fin E) in
    let* Enorm := normalize norm1 (Fin E) in
    let* sec := py_floordiv (global_idx l) fs in
    let b1 := mkBridge (clients b) (mode b) norm1 in
    let sent :=
      if negb (sec =? last_sec l)%Z
      then Some (MsgEngagement wall_ms fs (Fin E) Enorm (Fin alpha_p)
                   (Fin theta_p) (Fin beta_p)
                   (finite_or_none (Emin norm1)) (finite_or_none (Emax norm1))
                   (mode b))
      else None in
    let last_sec1 := if negb (sec =? last_sec l)%Z then sec else last_sec l in
    Ok (mkGateOut b1
          (mkLoop (buf l) (global_idx l) (advance_gate (next_gate l) (global_idx l))
                  (next_pull l) last_sec1)
          (Some sample) sent)
  else Ok (mkGateOut b l None None).

(** A loop state with 200 samples taken in, and a block of 400 more: the
    pull that takes the index from 200 to 600. *)
Definition jump_before : Loop :=
  mkLoop (mkArr 1 (repeat [0] 200)) 200 GATE_STRIDE 0 (-1).
Definition jump_block : ndarray := mkArr 1 (repeat [0] 400).

(** One pass of the [while] body: the pull, then the gate. *)
Definition iteration (fs win_len : Z) (b : Bridge) (l : Loop)
  (now : R) (X : ndarray) (wall_ms : Z) : res gate_out :=
  let* l1 := pull_step fs win_len l now X in
  gate_step fs win_len b l1 wall_ms.

(* ===================================================================== *)
(** * JSON values and the control protocol (lines 167-194)                *)
(* ===================================================================== *)

(** What [json.loads] returns.  A [JDict] lists the items of a dict. *)
Inductive json : Type :=
| JNull
| JBool (b : bool)
| JInt (z : Z)
| JFloat (x : pyfloat)
| JStr (s : string)
| JList (l : list json)
| JDict (kv : list (string * json)).

Fixpoint dict_lookup (kv : list (string * json)) (key : string) : option json :=
  match kv with
  | [] => None
  | (k, v) :: kv' => if String.eqb k key then Some v else dict_lookup kv' key
  end.

(** [payload.get(key, default)]: only a dict has the method. *)
Definition py_get (payload : json) (key : string) (default : json) : res json :=
  match payload with
  | JDict kv =>
      Ok (match dict_lookup kv key with Some v => v | None => default end)
  | _ => Raise AttributeError
  end.

(** [v == s] for a string literal [s]. *)
Definition json_is_str (v : json) (s : string) : bool :=
  match v with
  | JStr t => String.eqb t s
  | _ => false
  end.

(** [self._broadcast(obj)] seen from its caller: the packet handed over. *)
Definition reset_reply (b : Bridge) : message :=
  MsgCalibration (mode b)
    (Some (finite_or_none (Emin (norm b)), finite_or_none (Emax (norm b)))).

(** The body of [async for message in ws] for one message; [loaded] is the
    outcome of [json.loads(message)].  The result is the new shared state
    and the packets broadcast, or the exception that leaves the loop. *)
Definition on_message (b : Bridge) (loaded : res json)
  : res (Bridge * list message) :=
  match loaded with
  | Raise JSONDecodeError => Ok (b, [])
  | Raise e => Raise e
  | Ok payload =>
      let* msg_type := py_get payload "type" JNull in
      if json_is_str msg_type "subscribe" then Ok (b, [])
      else
        let* r1 :=
          (if json_is_str msg_type "set_mode" then
             let* m := py_get payload "mode" JNull in
             match m with
             | JStr ms =>
                 if String.eqb ms "normal" || String.eqb ms "relax"
                    || String.eqb ms "mental"
                 then Ok (mkBridge (clients b) ms (norm b),
                          [MsgCalibration ms None])
                 else Ok (b, [])
             | _ => Ok (b, [])
             end
           else Ok (b, [])) in
        let '(b1, out1) := r1 in
        if json_is_str msg_type "reset_norm" then
          let b2 := mkBridge (clients b1) (mode b1) (reset (norm b1)) in
          Ok (b2, out1 ++ [reset_reply b2])
        else Ok (b1, out1)
  end.

(** What a message does to the connection [ws] that carried it. *)
Inductive conn_outcome : Type :=
| ConnOpen (b : Bridge) (sent : list message)
| ConnDropped (e : exn) (b : Bridge).

(** [_handler] around one message: an exception leaves the [async for],
    the [finally] discards [ws], and the handler returns, which closes the
    connection. *)
Definition handler_step (b : Bridge) (ws : nat) (loaded : res json)
  : conn_outcome :=
  match on_message b loaded with
  | Ok (b1, out) => ConnOpen b1 out
  | Raise e => ConnDropped e (mkBridge (clients b ∖ {[ws]}) (mode b) (norm b))
  end.

(* ===================================================================== *)
(** * BroadcastHub (lines 196-209)                                        *)
(* ===================================================================== *)

(** The part of the world a broadcast touches: the subscriber set, the
    packets each subscriber has received, and the closed connections. *)
Record hub : Type :=
  mkHub { hub_clients : gset nat;
          delivered : list (nat * message);
          closed : gset nat }.

Section Broadcast.

(** Whether [ws.send] and [ws.close] raise for a subscriber.  The
    websockets library documents [close] as idempotent and as not raising
    on a broken connection; the code guards it with [try ... finally]
    all the same, and so does the model. *)
Variable send_raises : nat -> bool.
Variable close_raises : nat -> bool.

Definition ws_send (h : hub) (ws : nat) (payload : message) : res hub :=
  if send_raises ws then Raise ConnectionClosed
  else Ok (mkHub (hub_clients h) ((ws, payload) :: delivered h) (closed h)).

Definition ws_close (h : hub) (ws : nat) : res hub :=
  if close_raises ws then Raise ConnectionClosed
  else Ok (mkHub (hub_clients h) (delivered h) (closed h ∪ {[ws]})).

Definition discard (h : hub) (ws : nat) : hub :=
  mkHub (hub_clients h ∖ {[ws]}) (delivered h) (closed h).

(** [_safe_send], run to completion: the hub afterwards, and whether the
    coroutine returned or raised. *)
Definition safe_send (h : hub) (ws : nat) (payload : message)
  : hub * res unit :=
  match ws_send h ws payload with
  | Ok h1 => (h1, Ok tt)
  | Raise _ =>
      match ws_close h ws with
      | Ok h1 => (discard h1 ws, Ok tt)
      | Raise e => (discard h ws, Raise e)
      end
  end.

(** [asyncio.gather] with the coroutines run one after the other, in the
    order of the snapshot: all of them run, and the first exception is the
    one passed on. *)
Fixpoint gather_seq (h : hub) (snapshot : list nat) (payload : message)
  : hub * res unit :=
  match snapshot with
  | [] => (h, Ok tt)
  | ws :: rest =>
      let '(h1, r1) := safe_send h ws payload in
      let '(h2, r2) := gather_seq h1 rest payload in
      (h2, match r1 with Raise e => Raise e | Ok _ => r2 end)
  end.

Definition broadcast (h : hub) (obj : message) : hub * res unit :=
  if decide (hub_clients h = ∅) then (h, Ok tt)
  else gather_seq h (elements (hub_clients h)) obj.

(** The coroutines of [asyncio.gather], interleaved.  A [_safe_send]
    coroutine waits at [await ws.send], then possibly at
    [await ws.close], and has then returned or raised. *)
Inductive pc : Type :=
| AtSend
| AtClose
| Returned (r : res unit).

Definition pool : Type := (hub * gmap nat pc)%type.

(** The pool [_broadcast] starts: one coroutine per current subscriber. *)
Definition spawn (h : hub) : pool := (h, gset_to_gmap AtSend (hub_clients h)).

(** One scheduling step: some waiting coroutine is resumed and runs to
    its next [await] or to its end. *)
Inductive task_step (payload : message) : pool -> pool -> Prop :=
| step_send_ok h t ws :
    t !! ws = Some AtSend -> send_raises ws = false ->
    task_step payload (h, t)
      (mkHub (hub_clients h) ((ws, payload) :: delivered h) (closed h),
       <[ws := Returned (Ok tt)]> t)
| step_send_raise h t ws :
    t !! ws = Some AtSend -> send_raises ws = true ->
    task_step payload (h, t) (h, <[ws := AtClose]> t)
| step_close_ok h t ws :
    t !! ws = Some AtClose -> close_raises ws = false ->
    task_step payload (h, t)
      (discard (mkHub (hub_clients h) (delivered h) (closed h ∪ {[ws]})) ws,
       <[ws := Returned (Ok tt)]> t)
| step_close_raise h t ws :
    t !! ws = Some AtClose -> close_raises ws = true ->
    task_step payload (h, t)
      (discard h ws, <[ws := Returned (Raise ConnectionClosed)]> t).

Inductive task_steps (payload : message) : pool -> pool -> Prop :=
| steps_refl p : task_steps payload p p
| steps_step p q r :
    task_steps payload p q -> task_step payload q r -> task_steps payload p r.

(** [gather] has returned: every coroutine has. *)
Definition all_returned (t : gmap nat pc) : Prop :=
  forall ws p, t !! ws = Some p -> exists r, p = Returned r.

(** [gather] passes an exception on to its caller. *)
Definition escalated (t : gmap nat pc) : Prop :=
  exists ws e, t !! ws = Some (Returned (Raise e)).

(** The subscribers whose [send] goes through. *)
Definition reachable (cl : gset nat) : gset nat :=
  filter (fun ws => send_raises ws = false) cl.

(** The subscribers whose [send] raises and whose [close] returns. *)
Definition closable (cl : gset nat) : gset nat :=
  filter (fun ws => send_raises ws = true /\ close_raises ws = false) cl.

(** How the coroutine for [ws] ends. *)
Definition outcome (ws : nat) : res unit :=
  if send_raises ws && close_raises ws then Raise ConnectionClosed else Ok tt.

(** The coroutine for [ws] has returned. *)
Definition returned_at (t : gmap nat pc) (ws : nat) : Prop :=
  exists r, t !! ws = Some (Returned r).

(** What holds of every pool a broadcast from [h0] can reach: there is
    one coroutine per subscriber of [h0]; a subscriber has left the set
    exactly when its send raised and its coroutine has ended, and it has
    been closed if its [close] returned; the new deliveries are one copy
    of the payload for each ended coroutine whose send went through; a
    coroutine ends in an exception only if both its send and its close
    raised. *)
Definition pool_inv (h0 : hub) (payload : message) (p : pool) : Prop :=
  let h := p.1 in
  let t := p.2 in
  (forall ws, is_Some (t !! ws) <-> ws ∈ hub_clients h0) /\
  (forall ws, ws ∈ hub_clients h <->
              ws ∈ hub_clients h0 /\
              ~ (send_raises ws = true /\ returned_at t ws)) /\
  (forall ws, ws ∈ closed h <->
              ws ∈ closed h0 \/
              (send_raises ws = true /\ close_raises ws = false /\
               returned_at t ws)) /\
  (exists order,
      delivered h = map (fun ws => (ws, payload)) order ++ delivered h0 /\
      NoDup order /\
      forall ws, ws ∈ order <-> send_raises ws = false /\ returned_at t ws) /\
  (forall ws, t !! ws = Some AtClose -> send_raises ws = true) /\
  (forall ws r, t !! ws = Some (Returned r) -> r = outcome ws).

End Broadcast.

(** Three subscribers, of which the second has a broken connection. *)
Definition three_subscribers : hub := mkHub {[1%nat; 2%nat; 3%nat]} [] ∅.
Definition second_fails (ws : nat) : bool := Nat.eqb ws 2.

(* ===================================================================== *)
(** * The bridge as a whole                                               *)
(* ===================================================================== *)

(** asyncio runs the stream loop and the handlers cooperatively: between
    two [await]s a coroutine runs alone.  The events below are those
    uninterrupted stretches. *)
Inductive event : Type :=
| EvTick (now : R) (X : ndarray) (wall_ms : Z)
| EvConnect (ws : nat)
| EvMessage (ws : nat) (loaded : res json)
| EvDisconnect (ws : nat).

(** The bridge while it runs: shared state, loop locals, every packet
    handed to [_broadcast] so far (oldest first), and the exception that
    ended [_stream_loop], if one did. *)
Record system : Type :=
  mkSystem { sys_bridge : Bridge; sys_loop : Loop;
             sys_log : list message; sys_stopped : option exn }.

Definition system_init (t0 : R) : system :=
  mkSystem Bridge_init (Loop_init t0) [] None.

Section System.

Variable send_raises : nat -> bool.
Variable close_raises : nat -> bool.
Variables fs win_len : Z.

(** The subscriber set once the coroutines of [_broadcast] have run. *)
Definition after_broadcast (b : Bridge) : Bridge :=
  mkBridge (reachable send_raises (clients b)) (mode b) (norm b).

(** [_broadcast] raises: some subscriber's send and close both do. *)
Definition broadcast_raises (b : Bridge) : bool :=
  existsb (fun ws => send_raises ws && close_raises ws) (elements (clients b)).

Definition sys_step (s : system) (ev : event) : system :=
  match sys_stopped s with
  | Some _ => s
  | None =>
      match ev with
      | EvTick now X wall_ms =>
          match iteration fs win_len (sys_bridge s) (sys_loop s) now X wall_ms with
          | Raise e => mkSystem (sys_bridge s) (sys_loop s) (sys_log s) (Some e)
          | Ok g =>
              match g_sent g with
              | Some m =>
                  mkSystem (after_broadcast (g_bridge g)) (g_loop g)
                    (sys_log s ++ [m])
                    (if broadcast_raises (g_bridge g)
                     then Some ConnectionClosed else None)
              | None => mkSystem (g_bridge g) (g_loop g) (sys_log s) None
              end
          end
      | EvConnect ws =>
          let b := sys_bridge s in
          let cl := if send_raises ws then clients b else clients b ∪ {[ws]} in
          mkSystem (mkBridge cl (mode b) (norm b)) (sys_loop s) (sys_log s) None
      | EvMessage ws loaded =>
          match handler_step (sys_bridge s) ws loaded with
          | ConnOpen b [] => mkSystem b (sys_loop s) (sys_log s) None
          | ConnOpen b out =>
              let b1 := after_broadcast b in
              let b2 := if broadcast_raises b
                        then mkBridge (clients b1 ∖ {[ws]}) (mode b1) (norm b1)
                        else b1 in
              mkSystem b2 (sys_loop s) (sys_log s ++ out) None
          | ConnDropped _ b => mkSystem b (sys_loop s) (sys_log s) None
          end
      | EvDisconnect ws =>
          let b := sys_bridge s in
          mkSystem (mkBridge (clients b ∖ {[ws]}) (mode b) (norm b))
                   (sys_loop s) (sys_log s) None
      end
  end.

Definition sys_run (t0 : R) (evs : list event) : system :=
  fold_left sys_step evs (system_init t0).

End System.

(** What the specification asks of every packet: an engagement packet carries a finite
    raw value and two finite bounds around it; a calibration packet that
    carries bounds carries two [null]s. *)
Definition packet_regular (m : message) : Prop :=
  match m with
  | MsgHello _ => True
  | MsgCalibration _ None => True
  | MsgCalibration _ (Some (lo, hi)) => lo = None /\ hi = None
  | MsgEngagement _ _ E _ _ _ _ lo hi _ =>
      exists e a b,
        E = Fin e /\ lo = Some (Fin a) /\ hi = Some (Fin b) /\ a <= e <= b
  end.

(** What holds of the bridge throughout a run. *)
Definition sys_inv (s : system) : Prop :=
  norm_regular (norm (sys_bridge s)) /\ Forall packet_regular (sys_log s).

(** The first block a freshly started bridge might receive: 256 samples. *)
Definition first_block256 : ndarray := mkArr 1 (repeat [0] 256).

(** A packet field is [null]. *)
Definition has_null_bound (m : message) : Prop :=
  match m with
  | MsgHello _ => False
  | MsgCalibration _ None => False
  | MsgCalibration _ (Some (lo, hi)) => lo = None \/ hi = None
  | MsgEngagement _ _ _ _ _ _ _ lo hi _ => lo = None \/ hi = None
  end.

(* ===================================================================== *)
(** * Persistence and the console loop (engagement_streaming.py)          *)
(* ===================================================================== *)

(** A file holds a JSON document or something [json.load] rejects. *)
Inductive file_content : Type :=
| Malformed
| Document (j : json).

Abbreviation disk := (gmap string file_content).

(** Whether the operating system lets each call of one attempt through:
    [open(path, "r")] with [json.load]'s read, [open(tmp, "w")], the write
    of [json.dump] and the close of the file, [os.replace], and a [print]
    to standard output. *)
Record io_oracle : Type :=
  mkOracle { read_ok : bool; open_ok : bool; write_ok : bool;
             replace_ok : bool; print_ok : bool }.

(** [open(path, "r")] followed by [json.load(f)]. *)
Definition read_json (d : disk) (o : io_oracle) (path : string) : res json :=
  if negb (read_ok o) then Raise OSError
  else match d !! path with
       | None => Raise OSError
       | Some Malformed => Raise JSONDecodeError
       | Some (Document j) => Ok j
       end.

(** [float(z)] of an [int] raises when [z] rounds to a value beyond the
    largest double, [2^1024 - 2^971]: from [2^1024 - 2^970] on. *)
Definition float_overflows (z : Z) : bool :=
  (2 ^ 1024 - 2 ^ 970 <=? Z.abs z)%Z.

Section Persistence.

(** The builtin [float] applied to a [str]. *)
Variable float_of_str : string -> res pyfloat.

(** The builtin [float]. *)
Definition py_float (v : json) : res pyfloat :=
  match v with
  | JFloat x => Ok x
  | JInt z => if float_overflows z then Raise OverflowError
              else Ok (Fin (IZR z))
  | JBool b => Ok (Fin (if b then 1 else 0))
  | JStr s => float_of_str s
  | JNull | JList _ | JDict _ => Raise TypeError
  end.

Definition load_norm_state (d : disk) (o : io_oracle) (path : string)
  : pyfloat * pyfloat :=
  let attempt :=
    let* doc := read_json d o path in
    let* lo := py_get doc "Emin" (JFloat FPosInf) in
    let* lo := py_float lo in
    let* hi := py_get doc "Emax" (JFloat FNegInf) in
    let* hi := py_float hi in
    Ok (lo, hi) in
  match attempt with
  | Ok p => p
  | Raise _ => (FPosInf, FNegInf)
  end.

End Persistence.

(** [save_norm_state]: the disk afterwards, and how the call ended.
    [open(tmp, "w")] creates the temporary file or empties it; a write
    that is then refused leaves it behind, empty or cut short, which
    [json.load] would reject. *)
Definition save_norm_state (d : disk) (o : io_oracle) (path : string)
  (lo hi : pyfloat) (mono_ns : Z) : disk * res unit :=
  let tmp := (path ++ ".tmp")%string in
  let doc := Document (JDict [("Emin", JFloat lo); ("Emax", JFloat hi);
                              ("updated_ns", JInt mono_ns)]%string) in
  if negb (open_ok o) then (d, Raise OSError)
  else
    let d0 := <[tmp := Malformed]> d in
    if negb (write_ok o) then (d0, Raise OSError)
    else
      let d1 := <[tmp := doc]> d0 in
      if negb (replace_ok o) then (d1, Raise OSError)
      else (<[path := doc]> (delete tmp d1), Ok tt).

(** [print(...)]: raises when standard output is closed or cannot encode
    the text ([BrokenPipeError] is an [OSError]; the model keeps that one
    exception for both). *)
Definition py_print (o : io_oracle) : res unit :=
  if print_ok o then Ok tt else Raise OSError.

Definition PERSIST_PATH : string := "engagement_norm.json".

(** The locals of [run_engagement]. *)
Record Console : Type :=
  mkConsole { c_loop : Loop; c_Emin : pyfloat; c_Emax : pyfloat }.

(** Lines 138-169 of [run_engagement]: the disk afterwards, and the new
    locals or the exception that leaves the [while True].  The save comes
    before the [print] of lines 161-165, the [while] of lines 168-169
    after it. *)
Definition console_gate (fs win_len : Z) (c : Console) (d : disk)
  (o : io_oracle) (mono_ns : Z) : disk * res Console :=
  let l := c_loop c in
  if (next_gate l <=? global_idx l)%Z
     && (win_len <=? Z.of_nat (shape0 (buf l)))%Z
     && (0 <? shape1 (buf l))%nat
  then
    let win := last_rows win_len (buf l) in
    match engagement_from_window win (IZR fs) with
    | Raise e => (d, Raise e)
    | Ok (E, a, t, b) =>
        let '(lo, hi, updated) := observe_inline (c_Emin c) (c_Emax c) (Fin E) in
        let '(d1, saved) :=
          if updated then save_norm_state d o PERSIST_PATH lo hi mono_ns
          else (d, Ok tt) in
        (d1,
         let* _ := saved in
         let* Enorm := normalize (mkNorm lo hi) (Fin E) in
         let* sec := py_floordiv (global_idx l) fs in
         let last1 := if negb (sec =? last_sec l)%Z then sec else last_sec l in
         let* _ := (if negb (sec =? last_sec l)%Z then py_print o else Ok tt) in
         Ok (mkConsole
               (mkLoop (buf l) (global_idx l)
                       (advance_gate (next_gate l) (global_idx l))
                       (next_pull l) last1)
               lo hi))
    end
  else (d, Ok c).

(** The console loop before its first evaluation, with no state loaded. *)
Definition console_before : Console := mkConsole jump_before FPosInf FNegInf.

(** The operating system refuses to open the temporary file. *)
Definition disk_full : io_oracle := mkOracle true false true true true.

(** One pass of the [while True] body. *)
Definition console_iteration (fs win_len : Z) (c : Console) (d : disk)
  (now : R) (X : ndarray) (o : io_oracle) (mono_ns : Z) : disk * res Console :=
  match pull_step fs win_len (c_loop c) now X with
  | Raise e => (d, Raise e)
  | Ok l1 => console_gate fs win_len (mkConsole l1 (c_Emin c) (c_Emax c)) d o mono_ns
  end.

(** How [run_engagement] stands after some passes: still looping, or left
    through an exception that [except KeyboardInterrupt] does not catch. *)
Inductive run_status : Type :=
| Looping (c : Console)
| Terminated (e : exn).

Definition console_tick : Type := (R * ndarray * io_oracle * Z)%type.

Fixpoint run_engagement (fs win_len : Z) (c : Console) (d : disk)
  (ticks : list console_tick) : disk * run_status :=
  match ticks with
  | [] => (d, Looping c)
  | (now, X, o, mono_ns) :: rest =>
      match console_iteration fs win_len c d now X o mono_ns with
      | (d1, Ok c1) => run_engagement fs win_len c1 d1 rest
      | (d1, Raise e) => (d1, Terminated e)
      end
  end.

(* ===================================================================== *)
(** * Runs of the loop's parts                                            *)
(* ===================================================================== *)

(** The buffer after the blocks of successive pulls: as in [pull_step], an
    empty block is not appended. *)
Fixpoint buffer_feed (win_len fs : Z) (b : ndarray) (blocks : list ndarray)
  : res ndarray :=
  match blocks with
  | [] => Ok b
  | X :: rest =>
      let* b1 := (if (0 <? shape0 X)%nat then buffer_append win_len fs b X
                  else Ok b) in
      buffer_feed win_len fs b1 rest
  end.

(** Every sample pulled so far, oldest first. *)
Definition stream_of (blocks : list ndarray) : list (list R) :=
  concat (map rows blocks).

(** What one append keeps of the invariant: the buffer is the tail of the
    stream, holds a full window as soon as the stream does, and stays
    within the retention bound. *)
Definition buffer_inv (win_len fs : Z) (C : nat) (stream : list (list R))
  (b : ndarray) : Prop :=
  (exists older, stream = older ++ rows b) /\
  (Z.min win_len (Z.of_nat (length stream)) <= Z.of_nat (shape0 b))%Z /\
  (Z.of_nat (shape0 b) <= Z.max (win_len * 2) (win_len + fs))%Z /\
  (stream <> [] -> ncols b = C).

(** How [run_engagement] starts (lines 100-119): a window shorter than
    eight samples raises [RuntimeError] before anything is read; otherwise
    the bounds come from the state file, they are printed, and the
    counters start afresh. *)
Inductive start_result : Type :=
| StartFailed (e : exn)
| Started (c : Console).

Definition console_start (float_of_str : string -> res pyfloat)
  (win_len : Z) (d : disk) (o : io_oracle) (t0 : R) : start_result :=
  if (win_len <? 8)%Z then StartFailed RuntimeError
  else
    let '(lo, hi) := load_norm_state float_of_str d o PERSIST_PATH in
    match py_print o with
    | Raise e => StartFailed e
    | Ok _ => Started (mkConsole (Loop_init t0) lo hi)
    end.

(** The operating system lets every call through. *)
Definition io_fine : io_oracle := mkOracle true true true true true.

(** The document [save_norm_state] writes. *)
Definition saved_doc (lo hi : pyfloat) (mono_ns : Z) : file_content :=
  Document (JDict [("Emin", JFloat lo); ("Emax", JFloat hi);
                   ("updated_ns", JInt mono_ns)]%string).

(** A file that holds two finite, ordered bounds as [save_norm_state]
    writes them. *)
Definition doc_regular (f : option file_content) : Prop :=
  exists lo hi mono_ns,
    f = Some (saved_doc (Fin lo) (Fin hi) mono_ns) /\ lo <= hi.

(** A signal with power in all three bands: nineteen samples at 38 Hz,
    so that the bins lie at 0, 2, ..., 18 Hz, with one sample standing
    out in the middle of the window and the first sample balancing the
    mean.  [impulse_window] is that signal as a window of one channel, and
    [impulse_density] what the estimate gives for its density at every
    bin. *)
Definition impulse19 : list R :=
  [-1; 0; 0; 0; 0; 0; 0; 0; 0; 1; 0; 0; 0; 0; 0; 0; 0; 0; 0].
Definition impulse_window : ndarray := mkArr 1 (map (fun v => [v]) impulse19).
Definition impulse_density : R :=
  1 / (big_sum (fun k => spec_hann 19 k ^ 2) 19 * 38).

(** The window an amplifier with gain [a] would have delivered. *)
Definition scale_window (a : R) (win : ndarray) : ndarray :=
  mkArr (ncols win) (map (map (Rmult a)) (rows win)).

(** The raw index as line 149 computes it from the three band averages. *)
Definition engagement_index (theta alpha beta : R) : R :=
  if Rltb (1 / 10 ^ 12) (alpha + theta) then beta / (alpha + theta) else 0.

(* ===================================================================== *)
(** * Taking samples from the board (lines 107-114)                       *)
(* ===================================================================== *)

(** What a call of [get_new_eeg] leaves: the channel cache and the block,
    or the [IndexError] of numpy when a channel is not a row of the data. *)
Inductive poll_result : Type :=
| Polled (cache : option (list nat)) (X : ndarray)
| PollIndexError.

(** [a[idx, :]] for a list of row numbers. *)
Definition take_rows (idx : list nat) (a : ndarray) : option ndarray :=
  if forallb (fun i => (i <? shape0 a)%nat) idx
  then Some (mkArr (ncols a) (map (fun i => nth i (rows a) []) idx))
  else None.

(** [a.T] *)
Definition np_transpose (a : ndarray) : ndarray :=
  mkArr (shape0 a)
        (map (fun i => map (fun r => nth i r 0) (rows a)) (seq 0 (ncols a))).

(** [get_new_eeg]: [eeg_channels] is what [BoardShim.get_eeg_channels]
    answers, asked only while the cache is empty; [data] is what
    [board.get_board_data()] pops, one row per board channel. *)
Definition get_new_eeg (eeg_channels : list nat) (cache : option (list nat))
  (data : ndarray) : poll_result :=
  let ch := match cache with
            | None => eeg_channels
            | Some c => c
            end in
  if Nat.eqb (size data) 0 then Polled (Some ch) np_empty00
  else match take_rows ch data with
       | None => PollIndexError
       | Some sel => Polled (Some ch) (np_transpose sel)
       end.

(* ===================================================================== *)
(** * The bind address (lines 286-293)                                    *)
(* ===================================================================== *)

(** [s[len(p):]] when [s.startswith(p)]. *)
Fixpoint strip_prefix (p s : string) : option string :=
  match p, s with
  | EmptyString, _ => Some s
  | String a p', String c s' =>
      if Ascii.eqb a c then strip_prefix p' s' else None
  | String _ _, EmptyString => None
  end.

(** [":" in s] *)
Fixpoint has_colon (s : string) : bool :=
  match s with
  | EmptyString => false
  | String c s' => Ascii.eqb c ":"%char || has_colon s'
  end.

(** [s.split(":", 1)] when [":" in s]: what stands before the first colon
    and what stands after it. *)
Fixpoint split_colon (s : string) : option (string * string) :=
  match s with
  | EmptyString => None
  | String c s' =>
      if Ascii.eqb c ":"%char then Some (EmptyString, s')
      else match split_colon s' with
           | Some (host, port_s) => Some (String c host, port_s)
           | None => None
           end
  end.

Section ParseAddr.

(** The builtin [int] applied to a [str]. *)
Variable py_int : string -> res Z.

Definition parse_ws_addr (addr : string) : res (string * Z) :=
  match strip_prefix "ws://" addr with
  | None => Raise ValueError
  | Some host_port =>
      match split_colon host_port with
      | None => Raise ValueError
      | Some (host, port_s) =>
          let* port := py_int port_s in
          Ok (host, port)
      end
  end.

End ParseAddr.

(** Schedules of [gather] with their steps counted. *)
Inductive task_steps_in (send_raises close_raises : nat -> bool)
  (payload : message) : nat -> pool -> pool -> Prop :=
| steps_in_O p : task_steps_in send_raises close_raises payload 0 p p
| steps_in_S n p q r :
    task_steps_in send_raises close_raises payload n p q ->
    task_step send_raises close_raises payload q r ->
    task_steps_in send_raises close_raises payload (S n) p r.

(** The resumptions the coroutine for [ws] still needs: one for a send
    that goes through, two for a send that raises (the close follows). *)
Definition work_left (send_raises : nat -> bool) (ws : nat) (p : option pc)
  : nat :=
  match p with
  | Some AtSend => if send_raises ws then 2 else 1
  | Some AtClose => 1
  | Some (Returned _) => 0
  | None => 0
  end.

Definition pending_work (send_raises : nat -> bool) (cl : list nat)
  (t : gmap nat pc) : nat :=
  list_sum (map (fun ws => work_left send_raises ws (t !! ws)) cl).

(** Lines 240-269 of [_stream_loop] with the [await self._broadcast(...)]
    of lines 254-266: [gate_step] is the pass as far as it concerns the
    locals and the normaliser, [broadcast_raises] and [after_broadcast]
    are what the coroutines of [gather] leave (every schedule of them
    ends alike).  When the await raises the pass ends there, before the
    [while] of lines 268-269, and the loop is left; when it returns, the
    [while] touches [next_gate] only, which the broadcast does not. *)
Definition gate_pass (send_raises close_raises : nat -> bool)
  (fs win_len : Z) (b : Bridge) (l : Loop) (wall_ms : Z) : res gate_out :=
  let* g := gate_step fs win_len b l wall_ms in
  match g_sent g with
  | None => Ok g
  | Some _ =>
      if broadcast_raises send_raises close_raises (g_bridge g)
      then Raise ConnectionClosed
      else Ok (mkGateOut (after_broadcast send_raises (g_bridge g))
                         (g_loop g) (g_eval g) (g_sent g))
  end.

(** The three mode names the protocol accepts. *)
Definition valid_mode (md : string) : Prop :=
  md = "normal"%string \/ md = "relax"%string \/ md = "mental"%string.

(** The [mode] field of a packet. *)
Definition packet_mode (m : message) : string :=
  match m with
  | MsgHello md => md
  | MsgCalibration md _ => md
  | MsgEngagement _ _ _ _ _ _ _ _ _ md => md
  end.

(** The fields of an engagement packet fit together: [Enorm] is the
    position of [E] between the two bounds, or one half when they meet. *)
Definition packet_consistent (m : message) : Prop :=
  match m with
  | MsgEngagement _ _ E En _ _ _ lo hi _ =>
      exists e r a b,
        E = Fin e /\ En = Fin r /\ lo = Some (Fin a) /\ hi = Some (Fin b) /\
        0 <= r <= 1 /\
        ((a < b /\ r = (e - a) / (b - a)) \/ (a = b /\ r = 1 / 2))
  | _ => True
  end.

(** How many engagement packets a log holds. *)
Fixpoint engagement_count (log : list message) : Z :=
  match log with
  | [] => 0
  | MsgEngagement _ _ _ _ _ _ _ _ _ _ :: rest => 1 + engagement_count rest
  | _ :: rest => engagement_count rest
  end.

(** What the bridge keeps true of its shared state and its packets. *)
Definition protocol_inv (s : system) : Prop :=
  norm_regular (norm (sys_bridge s)) /\
  valid_mode (mode (sys_bridge s)) /\
  Forall (fun m => packet_consistent m /\ valid_mode (packet_mode m))
         (sys_log s).

(** What the loop keeps true of its counters, at rate [fs] from instant
    [t0], with [sent] engagement packets broadcast so far. *)
Definition loop_inv (fs : Z) (t0 : R) (l : Loop) (sent : Z) : Prop :=
  (0 <= global_idx l)%Z /\
  (exists k, (1 <= k)%Z /\ next_gate l = (k * GATE_STRIDE)%Z) /\
  (next_gate l <= global_idx l + GATE_STRIDE)%Z /\
  (-1 <= last_sec l <= global_idx l / fs)%Z /\
  (sent <= last_sec l + 1)%Z /\
  t0 <= next_pull l.

Definition schedule_inv (fs : Z) (t0 : R) (s : system) : Prop :=
  loop_inv fs t0 (sys_loop s) (engagement_count (sys_log s)).

(* ===================================================================== *)
(** * Properties                                                          *)
(* ===================================================================== *)

Lemma Rltb_true (a b : R) : Rltb a b = true <-> a < b.
Proof. unfold Rltb. destruct (Rlt_dec a b); split; intros; try easy. Qed.

Lemma Rltb_false (a b : R) : Rltb a b = false <-> b <= a.
Proof.
  unfold Rltb. destruct (Rlt_dec a b); split; intros; try easy; lra.
Qed.

Lemma Reqb_true (a b : R) : Reqb a b = true <-> a = b.
Proof. unfold Reqb. destruct (Req_dec_T a b); split; intros; try easy. Qed.

Lemma Reqb_false (a b : R) : Reqb a b = false <-> a <> b.
Proof. unfold Reqb. destruct (Req_dec_T a b); split; intros; try easy. Qed.

(** Case analysis on a comparison of two reals that occurs in the goal. *)
Ltac case_Rltb a b :=
  let H := fresh "Hcmp" in
  destruct (Rltb a b) eqn:H;
  [apply Rltb_true in H | apply Rltb_false in H].

Ltac case_Reqb a b :=
  let H := fresh "Heq" in
  destruct (Reqb a b) eqn:H;
  [apply Reqb_true in H | apply Reqb_false in H].

(* --------------------------------------------------------------------- *)
(** ** Normalizer                                                         *)
(* --------------------------------------------------------------------- *)

(** The clamp [max(0.0, min(1.0, y))] on a finite [y]. *)
Lemma clamp_fin (y : R) :
  py_max (Fin 0) (py_min (Fin 1) (Fin y)) = Fin (Rmax 0 (Rmin 1 y)).
Proof.
  unfold py_max, py_min, fgt; simpl.
  case_Rltb y 1; simpl.
  - rewrite (Rmin_right 1 y) by lra.
    case_Rltb 0 y; [rewrite Rmax_right by lra | rewrite Rmax_left by lra];
      reflexivity.
  - rewrite (Rmin_left 1 y) by lra.
    case_Rltb 0 1; [rewrite Rmax_right by lra; reflexivity | lra].
Qed.

(** The clamp sends every float, NaN and the infinities included, into
    the unit interval. *)
Lemma clamp_range (y : pyfloat) :
  exists r, py_max (Fin 0) (py_min (Fin 1) y) = Fin r /\ 0 <= r <= 1.
Proof.
  destruct y as [| |y|].
  - exists 1. unfold py_max, py_min, fgt; simpl.
    case_Rltb 0 1; [split; [reflexivity | lra] | lra].
  - exists 0. unfold py_max, py_min, fgt; simpl. split; [reflexivity | lra].
  - exists (Rmax 0 (Rmin 1 y)). split; [apply clamp_fin |].
    split; [apply Rmax_l |].
    apply Rmax_lub; [lra | apply Rmin_l].
  - exists 1. unfold py_max, py_min, fgt; simpl.
    case_Rltb 0 1; [split; [reflexivity | lra] | lra].
Qed.

(** With [Emax > Emin] the divisor of the normalisation is never zero. *)
Lemma normalize_divides (s : NormState) (E : pyfloat) :
  fgt (Emax s) (Emin s) = true ->
  exists q, fdiv (fsub E (Emin s)) (fsub (Emax s) (Emin s)) = Ok q.
Proof.
  destruct s as [lo hi]; simpl. unfold fgt.
  destruct lo as [| |lo|], hi as [| |hi|]; simpl; try discriminate; intros Hlt.
  - destruct E; simpl; eauto.
  - destruct E; simpl; eauto.
  - apply Rltb_true in Hlt. unfold fdiv.
    case_Reqb (hi - lo) 0; [lra |].
    destruct E; simpl; eauto.
  - destruct E; simpl; eauto.
Qed.

Lemma normalize_total_range (s : NormState) (E : pyfloat) :
  exists r, normalize s E = Ok (Fin r) /\ 0 <= r <= 1.
Proof.
  unfold normalize.
  destruct (fgt (Emax s) (Emin s)) eqn:Hgt.
  - destruct (normalize_divides s E Hgt) as [q Hq]. rewrite Hq. simpl.
    destruct (clamp_range q) as [r [Hr Hb]]. exists r. rewrite Hr. auto.
  - simpl. destruct (clamp_range (Fin (1/2))) as [r [Hr Hb]].
    exists r. rewrite Hr. auto.
Qed.

Lemma normalize_finite (lo hi x : R) :
  lo < hi ->
  normalize (mkNorm (Fin lo) (Fin hi)) (Fin x)
  = Ok (Fin (Rmax 0 (Rmin 1 ((x - lo) / (hi - lo))))).
Proof.
  intros Hlt. unfold normalize, fgt; simpl.
  case_Rltb lo hi; [| lra]. unfold fdiv.
  case_Reqb (hi - lo) 0; [lra |]. simpl. now rewrite clamp_fin.
Qed.

Lemma normalize_midpoint (s : NormState) (E : pyfloat) :
  fgt (Emax s) (Emin s) = false -> normalize s E = Ok (Fin (1/2)).
Proof.
  intros Hgt. unfold normalize. rewrite Hgt. simpl. rewrite clamp_fin.
  rewrite Rmin_right by lra. rewrite Rmax_right by lra. reflexivity.
Qed.

Lemma update_regular (s : NormState) (E : R) :
  norm_regular s ->
  exists lo hi, update s (Fin E) = mkNorm (Fin lo) (Fin hi) /\ lo <= E <= hi.
Proof.
  intros [-> | (lo & hi & -> & Hle)].
  - exists E, E. split; [reflexivity | lra].
  - unfold update, fgt; simpl.
    case_Rltb E lo; simpl.
    + case_Rltb hi E; [lra |]. exists E, hi. split; [reflexivity | lra].
    + case_Rltb hi E.
      * exists lo, E. split; [reflexivity | lra].
      * exists lo, hi. split; [reflexivity | lra].
Qed.

Lemma norm_step_regular (s : NormState) (ev : norm_event) :
  norm_regular s -> norm_regular (norm_step s ev).
Proof.
  intros Hs. destruct ev as [E |]; simpl.
  - destruct (update_regular s E Hs) as (lo & hi & -> & Hb).
    right. exists lo, hi. split; [reflexivity | lra].
  - left. reflexivity.
Qed.

Lemma fold_norm_step_regular (evs : list norm_event) (s : NormState) :
  norm_regular s -> norm_regular (fold_left norm_step evs s).
Proof.
  revert s. induction evs as [| ev evs IH]; intros s Hs; simpl; [exact Hs |].
  apply IH, norm_step_regular, Hs.
Qed.

Lemma norm_run_regular (evs : list norm_event) : norm_regular (norm_run evs).
Proof. apply fold_norm_step_regular. left. reflexivity. Qed.

(** C2.  In every state the normaliser can be in after observations and
    resets, either [Emax > Emin], both bounds are finite and [normalize]
    returns [(E - Emin) / (Emax - Emin)] clamped to the unit interval, with
    [normalize(Emin) = 0] and [normalize(Emax) = 1]; or the bounds are equal
    or untouched and [normalize] returns one half for every argument.  The
    result is in the unit interval whatever the bounds and the argument
    are, and it is one half before any observation and right after a
    reset. *)
Theorem normalize_spec (evs : list norm_event) (x : R) :
  let s := norm_run evs in
  ((exists lo hi,
      s = mkNorm (Fin lo) (Fin hi) /\ lo < hi /\
      fgt (Emax s) (Emin s) = true /\
      normalize s (Fin x) = Ok (Fin (Rmax 0 (Rmin 1 ((x - lo) / (hi - lo))))) /\
      normalize s (Emin s) = Ok (Fin 0) /\
      normalize s (Emax s) = Ok (Fin 1))
   \/
   (fgt (Emax s) (Emin s) = false /\
    (s = NormState_init \/ exists v, s = mkNorm (Fin v) (Fin v)) /\
    forall E, normalize s E = Ok (Fin (1/2))))
  /\ (forall s' E, exists r, normalize s' E = Ok (Fin r) /\ 0 <= r <= 1)
  /\ (forall E, normalize NormState_init E = Ok (Fin (1/2)))
  /\ (forall s' E, normalize (reset s') E = Ok (Fin (1/2))).
Proof.
  intros s. repeat split.
  - destruct (norm_run_regular evs) as [Hs | (lo & hi & Hs & Hle)];
      fold s in Hs.
    + right. rewrite Hs. repeat split; [left; reflexivity |].
      intros E. now apply normalize_midpoint.
    + destruct (Rle_lt_or_eq_dec lo hi Hle) as [Hlt | Heq].
      * left. exists lo, hi. rewrite Hs. simpl.
        repeat split; try assumption.
        -- unfold fgt; simpl. now apply Rltb_true.
        -- now apply normalize_finite.
        -- rewrite normalize_finite by assumption. do 2 f_equal.
           replace ((lo - lo) / (hi - lo)) with 0 by (field; lra).
           rewrite Rmin_right by lra. apply Rmax_left; lra.
        -- rewrite normalize_finite by assumption. do 2 f_equal.
           replace ((hi - lo) / (hi - lo)) with 1 by (field; lra).
           rewrite Rmin_left by lra. apply Rmax_right; lra.
      * right. subst hi. rewrite Hs.
        assert (Hgt : fgt (Fin lo) (Fin lo) = false)
          by (unfold fgt; simpl; apply Rltb_false; lra).
        repeat split; [exact Hgt | right; now exists lo |].
        intros E. now apply normalize_midpoint.
  - apply normalize_total_range.
  - intros E. now apply normalize_midpoint.
  - intros s' E. now apply normalize_midpoint.
Qed.

(* --------------------------------------------------------------------- *)
(** ** Observation                                                         *)
(* --------------------------------------------------------------------- *)

Lemma observe_all_snoc (obs : list R) (E : R) :
  observe_all (obs ++ [E]) = update (observe_all obs) (Fin E).
Proof. unfold observe_all. now rewrite fold_left_app. Qed.

(** After at least one observation the bounds are the least and the
    greatest value seen. *)
Lemma observe_all_extrema (obs : list R) :
  obs <> [] ->
  exists lo hi,
    observe_all obs = mkNorm (Fin lo) (Fin hi) /\
    In lo obs /\ In hi obs /\ Forall (fun E => lo <= E <= hi) obs.
Proof.
  induction obs as [| E obs IH] using rev_ind; [congruence |]. intros _.
  rewrite observe_all_snoc.
  destruct obs as [| E0 obs0].
  - exists E, E. repeat split; simpl; auto.
    constructor; [lra | constructor].
  - remember (E0 :: obs0) as l eqn:Hl.
    destruct IH as (lo & hi & Hs & Hlo & Hhi & Hall);
      [rewrite Hl; discriminate |].
    rewrite Hs.
    assert (Hle : lo <= hi).
    { rewrite List.Forall_forall in Hall. specialize (Hall lo Hlo). lra. }
    unfold update, fgt; simpl.
    case_Rltb E lo; simpl.
    + case_Rltb hi E; [lra |].
      exists E, hi. repeat split.
      * apply in_or_app. right. now left.
      * apply in_or_app. now left.
      * apply List.Forall_app. split.
        -- eapply List.Forall_impl; [| exact Hall]. simpl. intros a Ha. lra.
        -- constructor; [lra | constructor].
    + case_Rltb hi E.
      * exists lo, E. repeat split.
        -- apply in_or_app. now left.
        -- apply in_or_app. right. now left.
        -- apply List.Forall_app. split.
           ++ eapply List.Forall_impl; [| exact Hall]. simpl. intros a Ha. lra.
           ++ constructor; [lra | constructor].
      * exists lo, hi. repeat split.
        -- apply in_or_app. now left.
        -- apply in_or_app. now left.
        -- apply List.Forall_app. split; [exact Hall |].
           constructor; [lra | constructor].
Qed.

Lemma update_Emin_decreases (s : NormState) (v : pyfloat) :
  Emin (update s v) = Emin s \/
  (Emin (update s v) = v /\ flt v (Emin s) = true).
Proof.
  unfold update. destruct (flt v (Emin s)) eqn:Hlt; simpl.
  - right. destruct (fgt v (Emax s)); simpl; auto.
  - left. destruct (fgt v (Emax s)); reflexivity.
Qed.

Lemma update_Emax_increases (s : NormState) (v : pyfloat) :
  Emax (update s v) = Emax s \/
  (Emax (update s v) = v /\ fgt v (Emax s) = true).
Proof.
  unfold update. destruct (flt v (Emin s)) eqn:Hlt; simpl;
    destruct (fgt v (Emax s)) eqn:Hgt; simpl; auto.
Qed.

(** The inline update of [run_engagement] computes the same bounds as
    [NormState.update], and its flag tells whether a bound moved. *)
Lemma observe_inline_update (lo hi E : pyfloat) :
  observe_inline lo hi E
  = (Emin (update (mkNorm lo hi) E), Emax (update (mkNorm lo hi) E),
     flt E lo || fgt E hi).
Proof.
  unfold observe_inline, update; cbn [Emin Emax].
  destruct (flt E lo); cbn [Emin Emax]; destruct (fgt E hi); reflexivity.
Qed.

(** C3.  From the untouched state, no observation leaves the bounds at
    plus and minus infinity, and after one or more observations [Emin] is
    the least and [Emax] the greatest value observed.  A single [update]
    leaves [Emin] as it is or replaces it by a strictly smaller value, and
    leaves [Emax] as it is or replaces it by a strictly greater one; the
    inline update of the console loop computes the same bounds.  [reset]
    gives the untouched state back. *)
Theorem observe_monotone :
  observe_all [] = mkNorm FPosInf FNegInf
  /\ (forall E obs, exists lo hi,
        observe_all (E :: obs) = mkNorm (Fin lo) (Fin hi) /\
        In lo (E :: obs) /\ In hi (E :: obs) /\
        Forall (fun v => lo <= v <= hi) (E :: obs))
  /\ (forall s v,
        (Emin (update s v) = Emin s \/
         (Emin (update s v) = v /\ flt v (Emin s) = true)) /\
        (Emax (update s v) = Emax s \/
         (Emax (update s v) = v /\ fgt v (Emax s) = true)))
  /\ (forall lo hi E,
        fst (observe_inline lo hi E)
        = (Emin (update (mkNorm lo hi) E), Emax (update (mkNorm lo hi) E)))
  /\ (forall s, reset s = mkNorm FPosInf FNegInf).
Proof.
  split; [reflexivity |]. split.
  { intros E obs. apply observe_all_extrema. discriminate. }
  split.
  { intros s v. split;
      [apply update_Emin_decreases | apply update_Emax_increases]. }
  split.
  { intros lo hi E. now rewrite observe_inline_update. }
  reflexivity.
Qed.

(* --------------------------------------------------------------------- *)
(** ** The spectral engine returns                                         *)
(* --------------------------------------------------------------------- *)

Lemma py_div_ok (a b : R) : b <> 0 -> py_div a b = Ok (a / b).
Proof. intros Hb. unfold py_div. case_Reqb b 0; [contradiction | reflexivity]. Qed.

Lemma bandpower_ok (x : list R) (fs f_lo f_hi : R) :
  fs <> 0 -> exists p, bandpower_hann_rfft x fs f_lo f_hi = Ok p.
Proof.
  intros Hfs. unfold bandpower_hann_rfft.
  destruct (Nat.eqb (length x) 0); [eauto |].
  rewrite py_div_ok by assumption. simpl.
  match goal with |- context [if ?c then _ else _] => destruct c end; eauto.
Qed.

Lemma band_loop_ok (win : ndarray) (fs : R) (cs : list nat) (acc : R * R * R) :
  fs <> 0 -> exists sums, band_loop win fs cs acc = Ok sums.
Proof.
  intros Hfs. revert acc.
  induction cs as [| c cs IH]; intros [[t a] b]; cbn [band_loop]; [eauto |].
  destruct (bandpower_ok (column win c) fs (fst BAND_theta) (snd BAND_theta) Hfs)
    as [pt ->].
  destruct (bandpower_ok (column win c) fs (fst BAND_alpha) (snd BAND_alpha) Hfs)
    as [pa ->].
  destruct (bandpower_ok (column win c) fs (fst BAND_beta) (snd BAND_beta) Hfs)
    as [pb ->].
  cbn [bind]. apply IH.
Qed.

Lemma size_nonzero_cols (win : ndarray) :
  Nat.eqb (size win) 0 = false -> INR (shape1 win) <> 0.
Proof.
  intros Hsz. apply Nat.eqb_neq in Hsz. unfold size in Hsz.
  apply not_0_INR. intros Hc. rewrite Hc in Hsz. lia.
Qed.

(** [engagement_from_window] raises nothing when the rate is not zero. *)
Lemma engagement_ok (win : ndarray) (fs : R) :
  fs <> 0 -> exists sample, engagement_from_window win fs = Ok sample.
Proof.
  intros Hfs. unfold engagement_from_window.
  destruct (Nat.eqb (size win) 0) eqn:Hsz; [eauto |].
  destruct (band_loop_ok win fs (seq 0 (shape1 win)) (0, 0, 0) Hfs)
    as [[[t a] b] ->]. cbn [bind].
  pose proof (size_nonzero_cols win Hsz) as HC.
  rewrite !py_div_ok by assumption. cbn [bind].
  case_Rltb (1 / 10 ^ 12) (a / INR (shape1 win) + t / INR (shape1 win)).
  - rewrite py_div_ok; [cbn [bind]; eauto |].
    assert (0 < 1 / 10 ^ 12) by (apply Rdiv_lt_0_compat; [lra | apply pow_lt; lra]).
    lra.
  - cbn [bind]. eauto.
Qed.

(* --------------------------------------------------------------------- *)
(** ** GateScheduler                                                       *)
(* --------------------------------------------------------------------- *)

Lemma advance_gate_loop (gate idx : Z) :
  advance_gate gate idx
  = if (gate <=? idx)%Z then advance_gate (gate + GATE_STRIDE) idx else gate.
Proof.
  rewrite advance_gate_equation_1. destruct (Z_le_gt_dec gate idx); simpl.
  - destruct (Z.leb_spec gate idx); [reflexivity | lia].
  - destruct (Z.leb_spec gate idx); [lia | reflexivity].
Qed.

(** The loop stops at the first value [gate + k * GATE_STRIDE] above the
    index. *)
Lemma advance_gate_spec (gate idx : Z) :
  exists k : Z,
    (0 <= k)%Z /\
    advance_gate gate idx = (gate + k * GATE_STRIDE)%Z /\
    (idx < advance_gate gate idx)%Z /\
    ((gate <= idx)%Z ->
     (1 <= k)%Z /\ (advance_gate gate idx - GATE_STRIDE <= idx)%Z) /\
    ((idx < gate)%Z -> k = 0%Z).
Proof.
  funelim (advance_gate gate idx).
  - match goal with IH : exists _, _ |- _ =>
      destruct IH as (k & Hk & Hval & Hgt & Hfired & Hidle) end.
    exists (k + 1)%Z. unfold GATE_STRIDE in *.
    split; [lia |]. split; [lia |]. split; [lia |]. split; [| lia].
    intros _. split; [lia |].
    destruct (Z_le_gt_dec (gate + 256) idx) as [Hle | Hgt'].
    + destruct (Hfired Hle). lia.
    + rewrite (Hidle ltac:(lia)) in Hval. lia.
  - exists 0%Z. unfold GATE_STRIDE. repeat split; lia.
Qed.

Lemma advance_gate_closed (gate idx : Z) :
  (gate <= idx)%Z ->
  advance_gate gate idx
  = (gate + GATE_STRIDE * ((idx - gate) / GATE_STRIDE + 1))%Z.
Proof.
  intros Hle.
  destruct (advance_gate_spec gate idx) as (k & Hk & Hval & Hgt & Hfired & _).
  destruct (Hfired Hle) as [Hk1 Hlow]. rewrite Hval in *.
  unfold GATE_STRIDE in *.
  assert ((idx - gate) / 256 = k - 1)%Z as ->; [| lia].
  symmetry. apply Z.div_unique with (r := (idx - gate - 256 * (k - 1))%Z); lia.
Qed.

(** The gate does not fire while the index is below [next_gate]. *)
Lemma gate_step_idle (fs win_len : Z) (b : Bridge) (l : Loop) (wall_ms : Z) :
  (global_idx l < next_gate l)%Z ->
  gate_step fs win_len b l wall_ms = Ok (mkGateOut b l None None).
Proof.
  intros Hlt. unfold gate_step.
  destruct (Z.leb_spec (next_gate l) (global_idx l)); [lia | reflexivity].
Qed.

(** When the gate fires the pass returns, with one sample and with
    [next_gate] moved by the loop. *)
Lemma gate_step_fires (fs win_len : Z) (b : Bridge) (l : Loop) (wall_ms : Z) :
  (0 < fs)%Z ->
  (next_gate l <= global_idx l)%Z ->
  (win_len <= Z.of_nat (shape0 (buf l)))%Z ->
  (0 < shape1 (buf l))%nat ->
  exists g sample,
    gate_step fs win_len b l wall_ms = Ok g /\
    engagement_from_window (last_rows win_len (buf l)) (IZR fs) = Ok sample /\
    g_eval g = Some sample /\
    norm (g_bridge g) = update (norm b) (Fin (fst (fst (fst sample)))) /\
    buf (g_loop g) = buf l /\
    global_idx (g_loop g) = global_idx l /\
    next_gate (g_loop g) = advance_gate (next_gate l) (global_idx l).
Proof.
  intros Hfs Hidx Hwin Hcols. unfold gate_step.
  destruct (Z.leb_spec (next_gate l) (global_idx l)); [| lia].
  destruct (Z.leb_spec win_len (Z.of_nat (shape0 (buf l)))); [| lia].
  destruct (Nat.ltb_spec 0 (shape1 (buf l))); [| lia]. simpl.
  assert (HfsR : IZR fs <> 0) by (apply not_0_IZR; lia).
  destruct (engagement_ok (last_rows win_len (buf l)) (IZR fs) HfsR)
    as [[[[E a] t] bt] Hsample].
  rewrite Hsample. simpl.
  destruct (normalize_total_range (update (norm b) (Fin E)) (Fin E))
    as (r & Hnorm & _).
  rewrite Hnorm. simpl.
  unfold py_floordiv. destruct (Z.eqb_spec fs 0); [lia |]. simpl.
  eexists. exists (E, a, t, bt). split; [reflexivity |].
  simpl. repeat split.
Qed.

(** When the gate is due, what the pass computes, written out: one call
    of [engagement_from_window] on the last [win_len] rows, one [update]
    with its [E], the packet of lines 254-266 when the second is new, and
    the [while] loop. *)
Lemma gate_step_due (fs win_len : Z) (b : Bridge) (l : Loop) (wall_ms : Z) :
  (0 < fs)%Z ->
  (next_gate l <= global_idx l)%Z ->
  (win_len <= Z.of_nat (shape0 (buf l)))%Z ->
  (0 < shape1 (buf l))%nat ->
  exists E alpha theta beta Enorm,
    engagement_from_window (last_rows win_len (buf l)) (IZR fs)
    = Ok (E, alpha, theta, beta) /\
    normalize (update (norm b) (Fin E)) (Fin E) = Ok Enorm /\
    gate_step fs win_len b l wall_ms
    = Ok (mkGateOut
            (mkBridge (clients b) (mode b) (update (norm b) (Fin E)))
            (mkLoop (buf l) (global_idx l)
                    (advance_gate (next_gate l) (global_idx l)) (next_pull l)
                    (if negb (global_idx l / fs =? last_sec l)%Z
                     then (global_idx l / fs)%Z else last_sec l))
            (Some (E, alpha, theta, beta))
            (if negb (global_idx l / fs =? last_sec l)%Z
             then Some (MsgEngagement wall_ms fs (Fin E) Enorm (Fin alpha)
                          (Fin theta) (Fin beta)
                          (finite_or_none (Emin (update (norm b) (Fin E))))
                          (finite_or_none (Emax (update (norm b) (Fin E))))
                          (mode b))
             else None)).
Proof.
  intros Hfs Hidx Hwin Hcols. unfold gate_step.
  destruct (Z.leb_spec (next_gate l) (global_idx l)); [| lia].
  destruct (Z.leb_spec win_len (Z.of_nat (shape0 (buf l)))); [| lia].
  destruct (Nat.ltb_spec 0 (shape1 (buf l))); [| lia]. cbn [andb].
  assert (HfsR : IZR fs <> 0) by (apply not_0_IZR; lia).
  destruct (engagement_ok (last_rows win_len (buf l)) (IZR fs) HfsR)
    as [[[[E a] t] bt] Hsample].
  destruct (normalize_total_range (update (norm b) (Fin E)) (Fin E))
    as (r & Hnorm & _).
  exists E, a, t, bt, (Fin r).
  split; [exact Hsample |]. split; [exact Hnorm |].
  rewrite Hsample. cbn [bind]. cbv zeta. rewrite Hnorm. cbn [bind].
  unfold py_floordiv. destruct (Z.eqb_spec fs 0); [lia |]. reflexivity.
Qed.

(** A broadcast raises only through a subscriber whose [send] and [close]
    both raise. *)
Lemma broadcast_raises_false
  (send_raises close_raises : nat -> bool) (b : Bridge) :
  (forall ws, ws ∈ clients b -> send_raises ws && close_raises ws = false) ->
  broadcast_raises send_raises close_raises b = false.
Proof.
  intros Hquiet. unfold broadcast_raises. apply not_true_is_false. intros Hex.
  apply existsb_exists in Hex as (ws & Hin & Hws).
  rewrite Hquiet in Hws; [discriminate |].
  apply elem_of_elements, list_elem_of_In, Hin.
Qed.

(** The console's pass over lines 138-169 next to the bridge's over lines
    240-269, as far as the locals and the bounds go: with the state file
    writable and the [print] returning they end alike. *)
Lemma console_gate_agrees
  (fs win_len : Z) (c : Console) (b : Bridge) (d : disk) (o : io_oracle)
  (mono_ns wall_ms : Z) :
  norm b = mkNorm (c_Emin c) (c_Emax c) ->
  open_ok o = true -> write_ok o = true -> replace_ok o = true ->
  print_ok o = true ->
  snd (console_gate fs win_len c d o mono_ns)
  = match gate_step fs win_len b (c_loop c) wall_ms with
    | Ok g => Ok (mkConsole (g_loop g) (Emin (norm (g_bridge g)))
                            (Emax (norm (g_bridge g))))
    | Raise e => Raise e
    end.
Proof.
  intros Hnorm Hopen Hw Hr Hp. unfold console_gate, gate_step.
  destruct (_ && _ && _).
  2:{ cbn. rewrite Hnorm. now destruct c. }
  destruct (engagement_from_window _ _) as [[[[E a] t] bt] | e]; cbn [bind snd];
    [| reflexivity].
  rewrite observe_inline_update, Hnorm.
  set (s1 := update (mkNorm (c_Emin c) (c_Emax c)) (Fin E)).
  assert (Hs1 : mkNorm (Emin s1) (Emax s1) = s1) by now destruct s1.
  assert (Hsaved :
    snd (if flt (Fin E) (c_Emin c) || fgt (Fin E) (c_Emax c)
         then save_norm_state d o PERSIST_PATH (Emin s1) (Emax s1) mono_ns
         else (d, Ok tt)) = Ok tt).
  { destruct (_ || _); [| reflexivity].
    unfold save_norm_state. now rewrite Hopen, Hw, Hr. }
  destruct (if flt (Fin E) (c_Emin c) || fgt (Fin E) (c_Emax c) then _ else _)
    as [d1 saved].
  cbn [snd] in Hsaved. subst saved. cbn [snd bind]. rewrite Hs1.
  destruct (normalize s1 (Fin E)) as [En | e]; cbn [bind]; [| reflexivity].
  destruct (py_floordiv _ _) as [sec | e]; cbn [bind]; [| reflexivity].
  unfold py_print. rewrite Hp.
  destruct (negb _); reflexivity.
Qed.

(** C4.  In a state where the sample index has reached [next_gate] and a
    full window is in the buffer, one pass of the gate makes exactly one
    evaluation: one call of [engagement_from_window], on the most recent
    [win_len] rows, whose [E] is observed once by the normaliser and
    normalised, and whose packet is handed to [_broadcast] if the second
    is new.  The pass then moves [next_gate] forward by a whole number (at
    least one) of strides, to the first such value above the index: it
    then exceeds the index, and one stride less would not.  However far
    the index has jumped, the same index does not fire the gate again.
    The [await] of the broadcast stands between the evaluation and the
    [while] loop: when no subscriber's [send] and [close] both raise it
    returns and the pass ends as described; otherwise the pass, and with
    it the stream loop, ends in the exception.  The console loop, with
    its state file writable and its [print] returning, leaves the same
    counters and the bounds the same update gives. *)
Theorem gate_fires_once
  (send_raises close_raises : nat -> bool)
  (fs win_len : Z) (b : Bridge) (l : Loop) (wall_ms : Z) :
  (0 < fs)%Z ->
  (next_gate l <= global_idx l)%Z ->
  (win_len <= Z.of_nat (shape0 (buf l)))%Z ->
  (0 < shape1 (buf l))%nat ->
  exists g E alpha theta beta Enorm k,
    gate_step fs win_len b l wall_ms = Ok g /\
    engagement_from_window (last_rows win_len (buf l)) (IZR fs)
    = Ok (E, alpha, theta, beta) /\
    g_eval g = Some (E, alpha, theta, beta) /\
    norm (g_bridge g) = update (norm b) (Fin E) /\
    clients (g_bridge g) = clients b /\ mode (g_bridge g) = mode b /\
    normalize (update (norm b) (Fin E)) (Fin E) = Ok Enorm /\
    g_sent g
    = (if (global_idx l / fs =? last_sec l)%Z then None
       else Some (MsgEngagement wall_ms fs (Fin E) Enorm (Fin alpha)
                    (Fin theta) (Fin beta)
                    (finite_or_none (Emin (update (norm b) (Fin E))))
                    (finite_or_none (Emax (update (norm b) (Fin E))))
                    (mode b))) /\
    (1 <= k)%Z /\
    next_gate (g_loop g) = (next_gate l + k * GATE_STRIDE)%Z /\
    (global_idx l < next_gate (g_loop g))%Z /\
    (next_gate (g_loop g) - GATE_STRIDE <= global_idx l)%Z /\
    global_idx (g_loop g) = global_idx l /\
    buf (g_loop g) = buf l /\
    (forall b' wall_ms',
      gate_step fs win_len b' (g_loop g) wall_ms'
      = Ok (mkGateOut b' (g_loop g) None None)) /\
    gate_pass send_raises close_raises fs win_len b l wall_ms
    = (if match g_sent g with Some _ => true | None => false end
          && broadcast_raises send_raises close_raises (g_bridge g)
       then Raise ConnectionClosed
       else Ok (mkGateOut
                  (match g_sent g with
                   | Some _ => after_broadcast send_raises (g_bridge g)
                   | None => g_bridge g
                   end)
                  (g_loop g) (g_eval g) (g_sent g))) /\
    ((forall ws, ws ∈ clients b ->
                 send_raises ws && close_raises ws = false) ->
     exists g',
       gate_pass send_raises close_raises fs win_len b l wall_ms = Ok g' /\
       g_loop g' = g_loop g /\ g_eval g' = g_eval g /\
       norm (g_bridge g') = norm (g_bridge g)) /\
    (forall (c : Console) (d : disk) (o : io_oracle) (mono_ns : Z),
       c_loop c = l ->
       open_ok o = true -> write_ok o = true -> replace_ok o = true ->
       print_ok o = true ->
       snd (console_gate fs win_len c d o mono_ns)
       = Ok (mkConsole (g_loop g)
               (Emin (update (mkNorm (c_Emin c) (c_Emax c)) (Fin E)))
               (Emax (update (mkNorm (c_Emin c) (c_Emax c)) (Fin E))))).
Proof.
  intros Hfs Hidx Hwin Hcols.
  destruct (gate_step_due fs win_len b l wall_ms Hfs Hidx Hwin Hcols)
    as (E & a & t & bt & En & Hsample & Hnorm & Hg).
  destruct (advance_gate_spec (next_gate l) (global_idx l))
    as (k & _ & Hval & Hgt & Hfired & _).
  destruct (Hfired Hidx) as [Hk Hlow].
  eexists _, E, a, t, bt, En, k.
  split; [exact Hg |]. cbn [g_eval g_bridge g_loop g_sent norm clients mode
                             next_gate global_idx buf].
  split; [exact Hsample |]. split; [reflexivity |]. split; [reflexivity |].
  split; [reflexivity |]. split; [reflexivity |]. split; [exact Hnorm |].
  split; [now destruct (global_idx l / fs =? last_sec l)%Z |].
  split; [exact Hk |]. split; [exact Hval |]. split; [exact Hgt |].
  split; [exact Hlow |]. split; [reflexivity |]. split; [reflexivity |].
  assert (Hpass : forall sent : option message,
    match sent with
    | None =>
        Ok (mkGateOut (mkBridge (clients b) (mode b) (update (norm b) (Fin E)))
              (mkLoop (buf l) (global_idx l)
                 (advance_gate (next_gate l) (global_idx l)) (next_pull l)
                 (if negb (global_idx l / fs =? last_sec l)%Z
                  then (global_idx l / fs)%Z else last_sec l))
              (Some (E, a, t, bt)) sent)
    | Some _ =>
        if broadcast_raises send_raises close_raises
             (mkBridge (clients b) (mode b) (update (norm b) (Fin E)))
        then Raise ConnectionClosed
        else Ok (mkGateOut
                   (after_broadcast send_raises
                      (mkBridge (clients b) (mode b) (update (norm b) (Fin E))))
                   (mkLoop (buf l) (global_idx l)
                      (advance_gate (next_gate l) (global_idx l)) (next_pull l)
                      (if negb (global_idx l / fs =? last_sec l)%Z
                       then (global_idx l / fs)%Z else last_sec l))
                   (Some (E, a, t, bt)) sent)
    end
    = (if match sent with Some _ => true | None => false end
          && broadcast_raises send_raises close_raises
               (mkBridge (clients b) (mode b) (update (norm b) (Fin E)))
       then Raise ConnectionClosed
       else Ok (mkGateOut
                  (match sent with
                   | Some _ =>
                       after_broadcast send_raises
                         (mkBridge (clients b) (mode b)
                            (update (norm b) (Fin E)))
                   | None =>
                       mkBridge (clients b) (mode b) (update (norm b) (Fin E))
                   end)
                  (mkLoop (buf l) (global_idx l)
                     (advance_gate (next_gate l) (global_idx l)) (next_pull l)
                     (if negb (global_idx l / fs =? last_sec l)%Z
                      then (global_idx l / fs)%Z else last_sec l))
                  (Some (E, a, t, bt)) sent))).
  { intros [m |]; cbn [andb]; [| reflexivity].
    now destruct (broadcast_raises _ _ _). }
  split; [| split; [| split]].
  - intros b' wall_ms'. apply gate_step_idle. cbn [global_idx next_gate].
    exact Hgt.
  - unfold gate_pass. rewrite Hg. cbn [bind g_sent g_bridge g_loop g_eval].
    apply Hpass.
  - intros Hquiet. unfold gate_pass. rewrite Hg.
    cbn [bind g_sent g_bridge g_loop g_eval].
    rewrite (broadcast_raises_false send_raises close_raises
               (mkBridge (clients b) (mode b) (update (norm b) (Fin E))))
      by exact Hquiet.
    destruct (negb (global_idx l / fs =? last_sec l)%Z);
      eexists; (split; [reflexivity |]); repeat split.
  - intros c d o mono_ns Hc Hopen Hw Hr Hp.
    rewrite (console_gate_agrees fs win_len c
               (mkBridge (clients b) (mode b) (mkNorm (c_Emin c) (c_Emax c)))
               d o mono_ns wall_ms eq_refl Hopen Hw Hr Hp).
    rewrite Hc.
    destruct (gate_step_due fs win_len
                (mkBridge (clients b) (mode b) (mkNorm (c_Emin c) (c_Emax c)))
                l wall_ms Hfs Hidx Hwin Hcols)
      as (E' & a' & t' & bt' & En' & Hsample' & _ & Hg').
    rewrite Hsample in Hsample'. injection Hsample' as <- <- <- <-.
    rewrite Hg'. reflexivity.
Qed.

Lemma jump_pull :
  exists l1,
    pull_step 125 125 jump_before 0 jump_block = Ok l1 /\
    global_idx l1 = 600%Z /\ next_gate l1 = 256%Z /\
    shape0 (buf l1) = 250%nat /\ shape1 (buf l1) = 1%nat.
Proof.
  unfold pull_step, jump_before, jump_block. cbn [next_pull].
  case_Rltb 0 0; [lra |]. cbn [negb].
  eexists. split; [vm_compute; reflexivity |].
  cbn [global_idx next_gate buf]. repeat split.
Defined.

(** With stride 256, a pull that takes the index from 200 to 600 is
    followed by exactly one evaluation, of the last 125 of the 250 rows
    in the buffer; its packet is handed over, both bounds in it are its
    own [E], and with no subscriber the await returns; [next_gate] ends
    at 768 and the same index does not fire again. *)
Lemma gate_fires_once_witness :
  exists l1 g E alpha theta beta Enorm,
    pull_step 125 125 jump_before 0 jump_block = Ok l1 /\
    global_idx jump_before = 200%Z /\ global_idx l1 = 600%Z /\
    gate_step 125 125 Bridge_init l1 0 = Ok g /\
    engagement_from_window (last_rows 125 (buf l1)) 125
    = Ok (E, alpha, theta, beta) /\
    g_eval g = Some (E, alpha, theta, beta) /\
    norm (g_bridge g) = mkNorm (Fin E) (Fin E) /\
    g_sent g = Some (MsgEngagement 0 125 (Fin E) Enorm (Fin alpha) (Fin theta)
                       (Fin beta) (Some (Fin E)) (Some (Fin E)) "normal") /\
    next_gate (g_loop g) = 768%Z /\
    gate_step 125 125 (g_bridge g) (g_loop g) 0
    = Ok (mkGateOut (g_bridge g) (g_loop g) None None) /\
    exists g',
      gate_pass (fun _ => false) (fun _ => false) 125 125 Bridge_init l1 0
      = Ok g' /\ g_loop g' = g_loop g.
Proof.
  destruct jump_pull as (l1 & Hpull & Hidx & Hgate & Hrows & Hcols).
  assert (Hsec : last_sec l1 = (-1)%Z).
  { unfold pull_step, jump_before, jump_block in Hpull. cbn [next_pull] in Hpull.
    revert Hpull. case_Rltb 0 0; [lra |]. cbn [negb].
    intros Hpull. cbv in Hpull. injection Hpull as <-. reflexivity. }
  destruct (gate_fires_once (fun _ => false) (fun _ => false)
              125 125 Bridge_init l1 0) as
    (g & E & a & t & bt & En & k & Hg & Hsample & Heval & Hnorm & _ & _ & _
       & Hsent & Hk & Hnext & Hgt & Hlow & _ & _ & Hagain & _ & Hquiet & _).
  - lia.
  - rewrite Hidx, Hgate. lia.
  - rewrite Hrows. lia.
  - rewrite Hcols. lia.
  - exists l1, g, E, a, t, bt, En.
    rewrite Hidx, Hgate, ?Hsec in *. unfold GATE_STRIDE in *.
    split; [exact Hpull |]. split; [reflexivity |]. split; [reflexivity |].
    split; [exact Hg |]. split; [exact Hsample |]. split; [exact Heval |].
    split; [exact Hnorm |]. split; [exact Hsent |]. split; [lia |].
    split; [apply Hagain |].
    destruct Hquiet as (g' & Hpass & Hloop & _); [reflexivity |].
    exists g'. split; assumption.
Defined.

(* --------------------------------------------------------------------- *)
(** ** AcquisitionScheduler                                                *)
(* --------------------------------------------------------------------- *)

Lemma advance_pull_cases (next_pull0 now : R) :
  (EEG_PULL_PERIOD_S < now - (next_pull0 + EEG_PULL_PERIOD_S) /\
   advance_pull next_pull0 now = now)
  \/
  (now - (next_pull0 + EEG_PULL_PERIOD_S) <= EEG_PULL_PERIOD_S /\
   advance_pull next_pull0 now = next_pull0 + EEG_PULL_PERIOD_S).
Proof.
  unfold advance_pull.
  case_Rltb EEG_PULL_PERIOD_S (now - (next_pull0 + EEG_PULL_PERIOD_S)); auto.
Qed.

(** A pull returns unless [np.vstack] meets two different channel counts. *)
Lemma pull_step_returns (fs win_len : Z) (l : Loop) (now : R) (X : ndarray) :
  shape0 X = 0%nat \/ size (buf l) = 0%nat \/ ncols (buf l) = ncols X ->
  exists l1, pull_step fs win_len l now X = Ok l1.
Proof.
  intros Hshape. unfold pull_step.
  destruct (negb (Rltb now (next_pull l))); [| eauto].
  destruct (Nat.ltb_spec 0 (shape0 X)) as [Hn | Hn]; [| cbn [bind]; eauto].
  unfold buffer_append.
  destruct (Nat.eqb_spec (size (buf l)) 0) as [Hz | Hz]; [cbn [bind]; eauto |].
  destruct Hshape as [H0 | [H0 | Hc]]; [lia | contradiction |].
  unfold np_vstack. rewrite Hc, Nat.eqb_refl. cbn [bind]. eauto.
Qed.

Lemma pull_step_next_pull (fs win_len : Z) (l l1 : Loop) (now : R) (X : ndarray) :
  next_pull l <= now ->
  pull_step fs win_len l now X = Ok l1 ->
  next_pull l1 = advance_pull (next_pull l) now.
Proof.
  intros Hdue. unfold pull_step.
  case_Rltb now (next_pull l); [lra |]. cbn [negb].
  destruct (0 <? shape0 X)%nat.
  - destruct (buffer_append win_len fs (buf l) X); cbn [bind]; [| discriminate].
    intros [= <-]. reflexivity.
  - cbn [bind]. intros [= <-]. reflexivity.
Qed.

(** C5.  On a tick at [now] that is due ([now >= next_pull]), the pull
    returns whenever the block fits the buffer, and it leaves the next
    pull instant one period later, unless [now] lies more than one period
    past that advanced instant (more than two periods past the instant
    that was due), in which case the next pull instant is [now].  Either
    way the schedule moves forward by at least one period and is left no
    more than one period behind [now], so no backlog of pulls builds up. *)
Theorem pull_drift_correction
  (fs win_len : Z) (l : Loop) (now : R) (X : ndarray) :
  next_pull l <= now ->
  let advanced := next_pull l + EEG_PULL_PERIOD_S in
  (shape0 X = 0%nat \/ size (buf l) = 0%nat \/ ncols (buf l) = ncols X ->
   exists l1, pull_step fs win_len l now X = Ok l1)
  /\ forall l1,
       pull_step fs win_len l now X = Ok l1 ->
       (now - advanced <= EEG_PULL_PERIOD_S -> next_pull l1 = advanced) /\
       (EEG_PULL_PERIOD_S < now - advanced -> next_pull l1 = now) /\
       (now - next_pull l <= 2 * EEG_PULL_PERIOD_S -> next_pull l1 = advanced) /\
       (2 * EEG_PULL_PERIOD_S < now - next_pull l -> next_pull l1 = now) /\
       advanced <= next_pull l1 /\
       now - next_pull l1 <= EEG_PULL_PERIOD_S.
Proof.
  intros Hdue advanced. split; [apply pull_step_returns |].
  intros l1 Hl1.
  rewrite (pull_step_next_pull fs win_len l l1 now X Hdue Hl1).
  subst advanced. unfold EEG_PULL_PERIOD_S in *.
  destruct (advance_pull_cases (next_pull l) now) as [[Hc ->] | [Hc ->]];
    unfold EEG_PULL_PERIOD_S in *; repeat split; intros; try lra.
Qed.

(** A tick that comes half a second late, on an empty poll: the schedule
    is set to the tick itself. *)
Lemma pull_drift_correction_witness :
  exists l1,
    pull_step 125 125 (Loop_init 0) (1/2) np_empty00 = Ok l1 /\
    next_pull l1 = 1/2.
Proof.
  assert (Hdue : next_pull (Loop_init 0) <= 1/2) by (simpl; lra).
  destruct (pull_drift_correction 125 125 (Loop_init 0) (1/2) np_empty00 Hdue)
    as [Hret Hnext].
  destruct Hret as [l1 Hl1]; [left; reflexivity |].
  exists l1. split; [exact Hl1 |].
  destruct (Hnext l1 Hl1) as (_ & Hsnap & _).
  apply Hsnap. unfold EEG_PULL_PERIOD_S. simpl. lra.
Defined.

(* --------------------------------------------------------------------- *)
(** ** WindowBuffer                                                        *)
(* --------------------------------------------------------------------- *)

(** For a positive [k] the slice [l[-k:]] is the last [k] elements. *)
Lemma slice_from_neg {A : Type} (k : Z) (l : list A) :
  (0 < k)%Z -> slice_from (- k) l = most_recent k l.
Proof.
  intros Hk. unfold slice_from, most_recent.
  destruct (Z.ltb_spec (- k) 0); [| lia].
  f_equal. lia.
Qed.

Lemma most_recent_all {A : Type} (bound : Z) (all : list A) :
  (Z.of_nat (length all) <= bound)%Z -> most_recent bound all = all.
Proof.
  intros Hle. unfold most_recent.
  replace (length all - Z.to_nat bound)%nat with 0%nat by lia. reflexivity.
Qed.

Lemma most_recent_suffix {A : Type} (bound : Z) (all : list A) :
  (0 <= bound < Z.of_nat (length all))%Z ->
  Z.of_nat (length (most_recent bound all)) = bound /\
  exists dropped, all = dropped ++ most_recent bound all.
Proof.
  intros Hlt. unfold most_recent. split.
  - rewrite length_skipn. lia.
  - exists (firstn (length all - Z.to_nat bound) all).
    symmetry. apply firstn_skipn.
Qed.

(** The first block: the buffer becomes the block, cut to one window. *)
Lemma buffer_append_first (win_len fs : Z) (b X : ndarray) :
  (0 < win_len)%Z -> size b = 0%nat ->
  buffer_append win_len fs b X
  = Ok (mkArr (ncols X) (most_recent win_len (rows X))).
Proof.
  intros Hw Hsz. unfold buffer_append. rewrite Hsz. cbn [Nat.eqb].
  destruct (Z.leb_spec win_len (Z.of_nat (shape0 X))) as [Hle | Hlt].
  - unfold last_rows. now rewrite slice_from_neg.
  - unfold shape0 in Hlt. rewrite most_recent_all by lia. now destruct X.
Qed.

(** A later block: the buffer and the block, cut to the retention bound. *)
Lemma buffer_append_later (win_len fs : Z) (b X : ndarray) :
  (0 < win_len)%Z -> size b <> 0%nat -> ncols b = ncols X ->
  buffer_append win_len fs b X
  = Ok (mkArr (ncols b)
          (most_recent (Z.max (win_len * 2) (win_len + fs)) (rows b ++ rows X))).
Proof.
  intros Hw Hsz Hc. unfold buffer_append.
  destruct (Nat.eqb_spec (size b) 0); [contradiction |].
  unfold np_vstack. rewrite Hc, Nat.eqb_refl. cbn [bind].
  unfold last_rows. cbn [ncols rows]. rewrite slice_from_neg by lia.
  reflexivity.
Qed.

(** C6 as the specification states it fails for the first block.  At
    2 Hz the retention bound is 4, yet of a first block of three samples
    only the last two are kept, although the total is within the bound. *)
Lemma buffer_first_block_cut :
  let bound := Z.max (win_len_of 2 * 2) (win_len_of 2 + 2) in
  exists b1,
    buffer_append (win_len_of 2) 2 np_empty00 first_block3 = Ok b1 /\
    (Z.of_nat (length (rows np_empty00 ++ rows first_block3)) <= bound)%Z /\
    rows b1 = [[2]; [3]] /\
    rows b1 <> most_recent bound (rows np_empty00 ++ rows first_block3).
Proof.
  cbv zeta. eexists. split; [vm_compute; reflexivity |].
  split; [vm_compute; discriminate |].
  split; [reflexivity |].
  intros Heq. apply (f_equal (@length (list R))) in Heq.
  vm_compute in Heq. discriminate.
Qed.

(** C6, amended.  With a window of at least one sample, a non-empty block
    appended to a non-empty buffer of the same channel count leaves exactly
    the most recent samples up to the bound
    [max(2 * win_len, win_len + fs)]: everything when buffer and block
    together are within the bound, the last bound-many otherwise.  The
    first block, appended to the empty buffer, is cut to one window: the
    buffer is then the last [win_len] samples of the block, or the whole
    block when it is shorter than a window. *)
Theorem buffer_retention (win_len fs : Z) (b X : ndarray) :
  (0 < win_len)%Z ->
  (0 < shape0 X)%nat ->
  (size b = 0%nat ->
   exists b1,
     buffer_append win_len fs b X = Ok b1 /\
     ncols b1 = ncols X /\
     rows b1 = most_recent win_len (rows X) /\
     ((Z.of_nat (shape0 X) <= win_len)%Z -> rows b1 = rows X) /\
     ((win_len < Z.of_nat (shape0 X))%Z ->
      Z.of_nat (shape0 b1) = win_len /\
      exists dropped, rows X = dropped ++ rows b1))
  /\
  (size b <> 0%nat -> ncols b = ncols X ->
   let keep := Z.max (win_len * 2) (win_len + fs) in
   let all := rows b ++ rows X in
   exists b1,
     buffer_append win_len fs b X = Ok b1 /\
     ncols b1 = ncols b /\
     rows b1 = most_recent keep all /\
     ((Z.of_nat (length all) <= keep)%Z -> rows b1 = all) /\
     ((keep < Z.of_nat (length all))%Z ->
      Z.of_nat (shape0 b1) = keep /\
      exists dropped, all = dropped ++ rows b1)).
Proof.
  intros Hw Hn. split.
  - intros Hsz. eexists. split; [now apply buffer_append_first |].
    cbn [ncols rows shape0]. repeat split.
    + intros Hle. now apply most_recent_all.
    + apply most_recent_suffix. unfold shape0 in *. lia.
    + apply most_recent_suffix. unfold shape0 in *. lia.
  - intros Hsz Hc keep all. eexists.
    split; [now apply buffer_append_later |].
    cbn [ncols rows shape0]. fold keep. fold all. repeat split.
    + intros Hle. now apply most_recent_all.
    + apply most_recent_suffix. subst keep. lia.
    + apply most_recent_suffix. subst keep. lia.
Qed.

(** A first block of three samples at 2 Hz, then a block appended to the
    resulting two-sample buffer. *)
Lemma buffer_retention_witness :
  (exists b1,
     buffer_append 2 2 np_empty00 first_block3 = Ok b1 /\
     rows b1 = most_recent 2 (rows first_block3))
  /\
  (exists b2,
     buffer_append 2 2 (mkArr 1 [[2]; [3]]) first_block3 = Ok b2 /\
     rows b2 = most_recent 4 ([[2]; [3]] ++ rows first_block3)).
Proof.
  split.
  - destruct (buffer_retention 2 2 np_empty00 first_block3) as [Hfirst _];
      [lia | unfold first_block3, shape0; simpl; lia |].
    destruct Hfirst as (b1 & Hb1 & _ & Hrows & _); [reflexivity |].
    exists b1. split; assumption.
  - destruct (buffer_retention 2 2 (mkArr 1 [[2]; [3]]) first_block3)
      as [_ Hlater]; [lia | unfold first_block3, shape0; simpl; lia |].
    destruct Hlater as (b2 & Hb2 & _ & Hrows & _);
      [simpl; discriminate | reflexivity |].
    exists b2. split; assumption.
Defined.

(* --------------------------------------------------------------------- *)
(** ** BroadcastHub                                                        *)
(* --------------------------------------------------------------------- *)

Section BroadcastProofs.

Variable send_raises : nat -> bool.
Variable close_raises : nat -> bool.
Variable payload : message.
Variable h0 : hub.

Lemma returned_at_insert_returned (t : gmap nat pc) (ws0 ws : nat) (r : res unit) :
  returned_at (<[ws0 := Returned r]> t) ws <-> ws = ws0 \/ returned_at t ws.
Proof.
  unfold returned_at. destruct (decide (ws0 = ws)) as [-> | Hne].
  - rewrite lookup_insert_eq. split; [auto | eauto].
  - rewrite lookup_insert_ne by assumption. split; [auto |].
    intros [Heq | H]; [congruence | exact H].
Qed.

Lemma returned_at_insert_waiting (t : gmap nat pc) (ws0 ws : nat) :
  t !! ws0 = Some AtSend ->
  returned_at (<[ws0 := AtClose]> t) ws <-> returned_at t ws.
Proof.
  intros Hsend. unfold returned_at. destruct (decide (ws0 = ws)) as [-> | Hne].
  - rewrite lookup_insert_eq, Hsend. split; intros [r Hr]; discriminate.
  - now rewrite lookup_insert_ne by assumption.
Qed.

Lemma is_Some_insert_present (t : gmap nat pc) (ws0 ws : nat) (p0 p : pc) :
  t !! ws0 = Some p0 ->
  is_Some (<[ws0 := p]> t !! ws) <-> is_Some (t !! ws).
Proof.
  intros Hp0. destruct (decide (ws0 = ws)) as [-> | Hne].
  - rewrite lookup_insert_eq, Hp0. split; eauto.
  - now rewrite lookup_insert_ne by assumption.
Qed.

Lemma lookup_insert_case (t : gmap nat pc) (ws0 ws : nat) (p q : pc) :
  <[ws0 := p]> t !! ws = Some q -> (ws = ws0 /\ q = p) \/ t !! ws = Some q.
Proof.
  destruct (decide (ws0 = ws)) as [-> | Hne].
  - rewrite lookup_insert_eq. intros [= <-]. auto.
  - rewrite lookup_insert_ne by assumption. auto.
Qed.

Lemma pool_inv_spawn : pool_inv send_raises close_raises h0 payload (spawn h0).
Proof.
  assert (Hnone : forall ws, ~ returned_at (gset_to_gmap AtSend (hub_clients h0)) ws).
  { intros ws [r Hr]. apply lookup_gset_to_gmap_Some in Hr as [_ Hr]. discriminate. }
  unfold pool_inv, spawn; cbn [fst snd].
  split.
  { intros ws. unfold is_Some. split.
    - intros [p Hp]. now apply lookup_gset_to_gmap_Some in Hp as [Hin _].
    - intros Hin. exists AtSend. now apply lookup_gset_to_gmap_Some. }
  split.
  { intros ws. split; [intros Hin; split; [exact Hin |] | tauto].
    intros [_ Hr]. now apply Hnone in Hr. }
  split.
  { intros ws. split; [tauto |].
    intros [Hc | (_ & _ & Hr)]; [exact Hc | now apply Hnone in Hr]. }
  split.
  { exists []. split; [reflexivity |]. split; [constructor |].
    intros ws. split.
    - intros Hin. inversion Hin.
    - intros [_ Hr]. now apply Hnone in Hr. }
  split.
  - intros ws Hws. apply lookup_gset_to_gmap_Some in Hws as [_ Hws]. discriminate.
  - intros ws r Hws. apply lookup_gset_to_gmap_Some in Hws as [_ Hws]. discriminate.
Qed.

Lemma pool_inv_step (p q : pool) :
  pool_inv send_raises close_raises h0 payload p ->
  task_step send_raises close_raises payload p q ->
  pool_inv send_raises close_raises h0 payload q.
Proof.
  intros (Hdom & Hcl & Hclosed & (order & Hdel & Hnd & Horder) & Hwait & Hok) Hstep.
  destruct Hstep as [h t ws0 Hat Hsend | h t ws0 Hat Hsend
                     | h t ws0 Hat Hclose | h t ws0 Hat Hclose];
    cbn [fst snd] in *.
  - (* the send goes through *)
    assert (Hfresh : ~ returned_at t ws0)
      by (intros [r Hr]; rewrite Hat in Hr; discriminate).
    unfold pool_inv; cbn [fst snd hub_clients closed delivered].
    split; [intros ws; rewrite (is_Some_insert_present t ws0 ws AtSend) by assumption;
            apply Hdom |].
    split.
    { intros ws. rewrite Hcl, returned_at_insert_returned.
      split; intros [Hin Hn]; split; try assumption.
      - intros [Hr [-> | Hret]]; [congruence | apply Hn; auto].
      - intros [Hr Hret]. apply Hn. auto. }
    split.
    { intros ws. rewrite Hclosed, returned_at_insert_returned.
      split; intros [Hc | (Hr & Hcr & Hret)]; auto.
      destruct Hret as [-> | Hret]; [congruence | auto]. }
    split.
    { exists (ws0 :: order). split; [cbn [map app]; now rewrite Hdel |].
      split.
      - constructor; [| exact Hnd]. rewrite Horder. tauto.
      - intros ws. rewrite elem_of_cons, Horder, returned_at_insert_returned.
        split.
        + intros [-> | [Hr Hret]]; auto.
        + intros [Hr [-> | Hret]]; auto. }
    split.
    { intros ws Hws. apply lookup_insert_case in Hws as [[_ Hq] | Hws];
        [discriminate | now apply Hwait]. }
    { intros ws r Hws. apply lookup_insert_case in Hws as [[-> Hq] | Hws].
      - injection Hq as ->. unfold outcome. now rewrite Hsend.
      - now apply Hok. }
  - (* the send raises: the coroutine goes on to close *)
    unfold pool_inv; cbn [fst snd].
    split; [intros ws; rewrite (is_Some_insert_present t ws0 ws AtSend) by assumption;
            apply Hdom |].
    split; [intros ws; rewrite Hcl, returned_at_insert_waiting by assumption; tauto |].
    split; [intros ws; rewrite Hclosed, returned_at_insert_waiting by assumption; tauto |].
    split.
    { exists order. split; [assumption |]. split; [assumption |].
      intros ws. rewrite Horder, returned_at_insert_waiting by assumption.
      tauto. }
    split.
    { intros ws Hws. apply lookup_insert_case in Hws as [[-> _] | Hws];
        [assumption | now apply Hwait]. }
    { intros ws r Hws. apply lookup_insert_case in Hws as [[_ Hq] | Hws];
        [discriminate | now apply Hok]. }
  - (* the close returns and the subscriber is discarded *)
    pose proof (Hwait ws0 Hat) as Hraises.
    unfold pool_inv, discard; cbn [fst snd hub_clients closed delivered].
    split; [intros ws; rewrite (is_Some_insert_present t ws0 ws AtClose) by assumption;
            apply Hdom |].
    split.
    { intros ws. rewrite elem_of_difference, elem_of_singleton, Hcl,
        returned_at_insert_returned.
      split.
      - intros [[Hin Hn] Hne]. split; [assumption |].
        intros [Hr [-> | Hret]]; [congruence | apply Hn; auto].
      - intros [Hin Hn]. split; [split; [assumption |] |].
        + intros [Hr Hret]. apply Hn. auto.
        + intros ->. apply Hn. auto. }
    split.
    { intros ws. rewrite elem_of_union, elem_of_singleton, Hclosed,
        returned_at_insert_returned.
      split.
      - intros [[Hc | (Hr & Hcr & Hret)] | ->]; auto 6.
      - intros [Hc | (Hr & Hcr & [-> | Hret])]; auto 6. }
    split.
    { exists order. split; [assumption |]. split; [assumption |].
      intros ws. rewrite Horder, returned_at_insert_returned.
      split.
      - intros [Hr Hret]. auto.
      - intros [Hr [-> | Hret]]; [congruence | auto]. }
    split.
    { intros ws Hws. apply lookup_insert_case in Hws as [[_ Hq] | Hws];
        [discriminate | now apply Hwait]. }
    { intros ws r Hws. apply lookup_insert_case in Hws as [[-> Hq] | Hws].
      - injection Hq as ->. unfold outcome. now rewrite Hraises, Hclose.
      - now apply Hok. }
  - (* the close raises; the subscriber is discarded all the same *)
    pose proof (Hwait ws0 Hat) as Hraises.
    unfold pool_inv, discard; cbn [fst snd hub_clients closed delivered].
    split; [intros ws; rewrite (is_Some_insert_present t ws0 ws AtClose) by assumption;
            apply Hdom |].
    split.
    { intros ws. rewrite elem_of_difference, elem_of_singleton, Hcl,
        returned_at_insert_returned.
      split.
      - intros [[Hin Hn] Hne]. split; [assumption |].
        intros [Hr [-> | Hret]]; [congruence | apply Hn; auto].
      - intros [Hin Hn]. split; [split; [assumption |] |].
        + intros [Hr Hret]. apply Hn. auto.
        + intros ->. apply Hn. auto. }
    split.
    { intros ws. rewrite Hclosed, returned_at_insert_returned.
      split.
      - intros [Hc | (Hr & Hcr & Hret)]; auto 6.
      - intros [Hc | (Hr & Hcr & [-> | Hret])]; [auto | congruence | auto 6]. }
    split.
    { exists order. split; [assumption |]. split; [assumption |].
      intros ws. rewrite Horder, returned_at_insert_returned.
      split.
      - intros [Hr Hret]. auto.
      - intros [Hr [-> | Hret]]; [congruence | auto]. }
    split.
    { intros ws Hws. apply lookup_insert_case in Hws as [[_ Hq] | Hws];
        [discriminate | now apply Hwait]. }
    { intros ws r Hws. apply lookup_insert_case in Hws as [[-> Hq] | Hws].
      - injection Hq as ->. unfold outcome. now rewrite Hraises, Hclose.
      - now apply Hok. }
Qed.

Lemma pool_inv_steps (p : pool) :
  task_steps send_raises close_raises payload (spawn h0) p ->
  pool_inv send_raises close_raises h0 payload p.
Proof.
  intros Hrun. remember (spawn h0) as p0 eqn:Hp0.
  induction Hrun as [p | p q r _ IH Hstep]; [subst; apply pool_inv_spawn |].
  eapply pool_inv_step; [apply IH, Hp0 | exact Hstep].
Qed.

Lemma task_steps_trans (p q r : pool) :
  task_steps send_raises close_raises payload p q ->
  task_steps send_raises close_raises payload q r ->
  task_steps send_raises close_raises payload p r.
Proof.
  intros Hpq Hqr. induction Hqr as [| q r r' _ IH Hstep]; [exact Hpq |].
  eapply steps_step; [apply IH, Hpq | exact Hstep].
Qed.

(** A waiting coroutine can always be resumed, whatever the others are
    doing, and resuming it touches no other coroutine. *)
Lemma task_never_blocked (h : hub) (t : gmap nat pc) (ws : nat) :
  t !! ws = Some AtSend \/ t !! ws = Some AtClose ->
  exists h1 p1,
    task_step send_raises close_raises payload (h, t) (h1, <[ws := p1]> t) /\
    Some p1 <> t !! ws.
Proof.
  intros [Hat | Hat].
  - destruct (send_raises ws) eqn:Hr.
    + exists h, AtClose. split; [now apply step_send_raise |].
      rewrite Hat. discriminate.
    + eexists _, (Returned (Ok tt)). split; [now apply step_send_ok |].
      rewrite Hat. discriminate.
  - destruct (close_raises ws) eqn:Hr.
    + eexists _, (Returned (Raise ConnectionClosed)).
      split; [now apply step_close_raise |]. rewrite Hat. discriminate.
    + eexists _, (Returned (Ok tt)). split; [now apply step_close_ok |].
      rewrite Hat. discriminate.
Qed.

(** One [_safe_send] run to completion is a run of its coroutine. *)
Lemma safe_send_run (h : hub) (t : gmap nat pc) (ws : nat) :
  t !! ws = Some AtSend ->
  task_steps send_raises close_raises payload (h, t)
    ((safe_send send_raises close_raises h ws payload).1,
     <[ws := Returned (safe_send send_raises close_raises h ws payload).2]> t)
  /\ (safe_send send_raises close_raises h ws payload).2
     = outcome send_raises close_raises ws.
Proof.
  intros Hat. unfold safe_send, ws_send, ws_close, outcome.
  destruct (send_raises ws) eqn:Hr; cbn [andb].
  - destruct (close_raises ws) eqn:Hc; cbn [fst snd]; (split; [| reflexivity]).
    + eapply steps_step; [eapply steps_step; [apply steps_refl |] |].
      * apply step_send_raise; eassumption.
      * rewrite <- (insert_insert_eq t ws (Returned (Raise ConnectionClosed)) AtClose).
        apply step_close_raise; [apply lookup_insert_eq | assumption].
    + eapply steps_step; [eapply steps_step; [apply steps_refl |] |].
      * apply step_send_raise; eassumption.
      * rewrite <- (insert_insert_eq t ws (Returned (Ok tt)) AtClose).
        apply step_close_ok; [apply lookup_insert_eq | assumption].
  - cbn [fst snd]. split; [| reflexivity].
    eapply steps_step; [apply steps_refl |]. now apply step_send_ok.
Qed.

(** The coroutines run one after the other make a complete schedule. *)
Lemma gather_seq_run (snapshot : list nat) (h : hub) (t : gmap nat pc) :
  NoDup snapshot ->
  (forall ws, ws ∈ snapshot -> t !! ws = Some AtSend) ->
  exists t1,
    task_steps send_raises close_raises payload (h, t)
      ((gather_seq send_raises close_raises h snapshot payload).1, t1) /\
    (forall ws, ws ∈ snapshot -> returned_at t1 ws) /\
    (forall ws, ws ∉ snapshot -> t1 !! ws = t !! ws).
Proof.
  revert h t. induction snapshot as [| ws0 rest IH]; intros h t Hnd Hall.
  - exists t. cbn. split; [apply steps_refl |]. split; [| reflexivity].
    intros ws Hin. inversion Hin.
  - apply NoDup_cons in Hnd as [Hfresh Hnd].
    destruct (safe_send_run h t ws0) as [Hrun1 _]; [apply Hall; left |].
    cbn [gather_seq].
    destruct (safe_send send_raises close_raises h ws0 payload) as [h1 r1].
    cbn [fst snd] in Hrun1.
    destruct (IH h1 (<[ws0 := Returned r1]> t) Hnd) as (t2 & Hrun2 & Hdone & Hrest).
    { intros ws Hin. rewrite lookup_insert_ne by (intros ->; contradiction).
      apply Hall. now right. }
    destruct (gather_seq send_raises close_raises h1 rest payload) as [h2 r2].
    cbn [fst snd] in *. exists t2.
    split; [eapply task_steps_trans; eassumption |].
    split.
    + intros ws Hin. apply elem_of_cons in Hin as [-> | Hin].
      * exists r1. rewrite Hrest by assumption. apply lookup_insert_eq.
      * now apply Hdone.
    + intros ws Hnin. apply not_elem_of_cons in Hnin as [Hne Hnin].
      rewrite Hrest by assumption. now rewrite lookup_insert_ne.
Qed.

(** What [gather] hands to its caller: an exception when some subscriber's
    send and close both raise. *)
Lemma gather_seq_result (snapshot : list nat) (h : hub) :
  (gather_seq send_raises close_raises h snapshot payload).2
  = if existsb (fun ws => send_raises ws && close_raises ws) snapshot
    then Raise ConnectionClosed else Ok tt.
Proof.
  revert h. induction snapshot as [| ws0 rest IH]; intros h; [reflexivity |].
  cbn [gather_seq existsb].
  assert (Hr1 : (safe_send send_raises close_raises h ws0 payload).2
                = outcome send_raises close_raises ws0).
  { unfold safe_send, ws_send, ws_close, outcome.
    destruct (send_raises ws0), (close_raises ws0); reflexivity. }
  destruct (safe_send send_raises close_raises h ws0 payload) as [h1 r1].
  specialize (IH h1).
  destruct (gather_seq send_raises close_raises h1 rest payload) as [h2 r2].
  cbn [fst snd] in *. subst r1 r2. unfold outcome.
  destruct (send_raises ws0 && close_raises ws0); reflexivity.
Qed.

(** [_broadcast] run sequentially is a complete schedule of the
    coroutines. *)
Lemma broadcast_run :
  exists t1,
    task_steps send_raises close_raises payload (spawn h0)
      ((broadcast send_raises close_raises h0 payload).1, t1) /\
    all_returned t1.
Proof.
  destruct (gather_seq_run (elements (hub_clients h0)) h0
              (gset_to_gmap AtSend (hub_clients h0)))
    as (t1 & Hrun & Hdone & Hrest).
  { apply NoDup_elements. }
  { intros ws Hin. apply lookup_gset_to_gmap_Some. split; [| reflexivity].
    now apply elem_of_elements. }
  exists t1. split.
  - unfold broadcast. destruct (decide (hub_clients h0 = ∅)) as [Hemp | _];
      [| exact Hrun].
    rewrite Hemp, elements_empty in Hrun. unfold spawn. rewrite Hemp.
    exact Hrun.
  - intros ws p Hp. destruct (decide (ws ∈ elements (hub_clients h0))) as [Hin | Hnin].
    + destruct (Hdone ws Hin) as [r Hr]. rewrite Hr in Hp. inversion Hp. eauto.
    + rewrite (Hrest ws Hnin) in Hp.
      apply lookup_gset_to_gmap_Some in Hp as [Hin _].
      exfalso. apply Hnin. now apply elem_of_elements.
Qed.

Lemma broadcast_result :
  (broadcast send_raises close_raises h0 payload).2
  = if existsb (fun ws => send_raises ws && close_raises ws)
               (elements (hub_clients h0))
    then Raise ConnectionClosed else Ok tt.
Proof.
  unfold broadcast. destruct (decide (hub_clients h0 = ∅)) as [Hemp | _].
  - rewrite Hemp, elements_empty. reflexivity.
  - apply gather_seq_result.
Qed.

(** Once every coroutine has ended, it has ended for every subscriber. *)
Lemma complete_schedule_returned (h : hub) (t : gmap nat pc) :
  task_steps send_raises close_raises payload (spawn h0) (h, t) ->
  all_returned t ->
  forall ws, returned_at t ws <-> ws ∈ hub_clients h0.
Proof.
  intros Hrun Hdone ws.
  destruct (pool_inv_steps (h, t) Hrun) as (Hdom & _). cbn [fst snd] in *.
  rewrite <- Hdom. split.
  - intros [r Hr]. eauto.
  - intros [p Hp]. destruct (Hdone ws p Hp) as [r ->]. now exists r.
Qed.

(** The subscribers left by a complete schedule. *)
Lemma complete_schedule_clients (h : hub) (t : gmap nat pc) :
  task_steps send_raises close_raises payload (spawn h0) (h, t) ->
  all_returned t ->
  hub_clients h = reachable send_raises (hub_clients h0).
Proof.
  intros Hrun Hdone.
  pose proof (complete_schedule_returned h t Hrun Hdone) as Hret.
  destruct (pool_inv_steps (h, t) Hrun) as (_ & Hcl & _). cbn [fst snd] in *.
  apply set_eq. intros ws. unfold reachable.
  rewrite elem_of_filter, Hcl, Hret.
  destruct (send_raises ws); intuition congruence.
Qed.

End BroadcastProofs.

(** The bridge-level summary of a broadcast agrees with [_broadcast]. *)
Lemma after_broadcast_sound
  (send_raises close_raises : nat -> bool) (b : Bridge) (m : message)
  (log : list (nat * message)) (cl : gset nat) :
  let done := broadcast send_raises close_raises (mkHub (clients b) log cl) m in
  hub_clients done.1 = clients (after_broadcast send_raises b) /\
  done.2 = if broadcast_raises send_raises close_raises b
           then Raise ConnectionClosed else Ok tt.
Proof.
  intros done. split.
  - destruct (broadcast_run send_raises close_raises m (mkHub (clients b) log cl))
      as (t1 & Hrun & Hdone).
    apply (complete_schedule_clients _ _ _ _ _ _ Hrun Hdone).
  - apply broadcast_result.
Qed.

(** What a broadcast to the subscribers of [h0] leaves, some of whose
    sends raise.  Run sequentially, [_broadcast] is one complete schedule of its
    coroutines, and it raises only if, for some subscriber, [send] and
    [close] both do.  In every schedule a waiting coroutine can be resumed
    whatever state the others are in.  When all coroutines of any schedule
    have ended: the subscriber set is the old one without the subscribers
    whose send raised, every other subscriber has received the payload
    exactly once, the failing subscribers whose [close] returned are
    closed, and an exception reaches [gather] exactly when [send] and
    [close] of one subscriber both raised.  So when no [close] raises, no
    failure is passed on and every failing subscriber is closed; and with
    exactly one failing subscriber among [N], that one is removed and the
    other [N - 1] have the payload. *)
Theorem broadcast_outcome
  (send_raises close_raises : nat -> bool) (payload : message) (h0 : hub) :
  (exists t1,
      task_steps send_raises close_raises payload (spawn h0)
        ((broadcast send_raises close_raises h0 payload).1, t1) /\
      all_returned t1 /\
      ((forall ws, close_raises ws = false) ->
       (broadcast send_raises close_raises h0 payload).2 = Ok tt))
  /\
  (forall h t ws,
      task_steps send_raises close_raises payload (spawn h0) (h, t) ->
      t !! ws = Some AtSend \/ t !! ws = Some AtClose ->
      exists h1 p1,
        task_step send_raises close_raises payload (h, t) (h1, <[ws := p1]> t) /\
        Some p1 <> t !! ws)
  /\
  (forall p,
      task_steps send_raises close_raises payload (spawn h0) p ->
      all_returned p.2 ->
      let ok := reachable send_raises (hub_clients h0) in
      hub_clients p.1 = ok /\
      closed p.1 = closed h0 ∪ closable send_raises close_raises (hub_clients h0) /\
      (exists order,
          order ≡ₚ elements ok /\
          delivered p.1 = map (fun ws => (ws, payload)) order ++ delivered h0) /\
      (escalated p.2 <->
       exists ws, ws ∈ hub_clients h0 /\
                  send_raises ws = true /\ close_raises ws = true) /\
      ((forall ws, close_raises ws = false) ->
       ~ escalated p.2 /\ closed p.1 = closed h0 ∪ (hub_clients h0 ∖ ok)) /\
      (forall bad,
          bad ∈ hub_clients h0 ->
          (forall ws, ws ∈ hub_clients h0 -> send_raises ws = true <-> ws = bad) ->
          hub_clients p.1 = hub_clients h0 ∖ {[bad]} /\
          (close_raises bad = false -> bad ∈ closed p.1) /\
          S (length (elements (hub_clients p.1)))
          = length (elements (hub_clients h0)))).
Proof.
  split.
  { destruct (broadcast_run send_raises close_raises payload h0) as (t1 & Hrun & Hdone).
    exists t1. split; [exact Hrun |]. split; [exact Hdone |].
    intros Hcontract. rewrite broadcast_result.
    replace (existsb _ _) with false; [reflexivity |].
    symmetry. apply not_true_is_false. intros Hex.
    apply existsb_exists in Hex as (ws & _ & Hboth).
    rewrite Hcontract, andb_false_r in Hboth. discriminate. }
  split; [intros h t ws _; apply task_never_blocked |].
  intros [h t] Hrun Hdone ok. cbn [fst snd] in *.
  destruct (pool_inv_steps send_raises close_raises payload h0 (h, t) Hrun)
    as (Hdom & Hcl & Hclosed & (order & Hdel & Hnd & Horder) & _ & Hok).
  cbn [fst snd] in *.
  pose proof (complete_schedule_returned send_raises close_raises payload h0
                h t Hrun Hdone) as Hret.
  pose proof (complete_schedule_clients send_raises close_raises payload h0
                h t Hrun Hdone) as Hclients.
  fold ok in Hclients.
  assert (Hclosable :
    closed h = closed h0 ∪ closable send_raises close_raises (hub_clients h0)).
  { apply set_eq. intros ws. unfold closable.
    rewrite Hclosed, Hret, elem_of_union, elem_of_filter. tauto. }
  assert (Hesc : escalated t <->
                 exists ws, ws ∈ hub_clients h0 /\
                            send_raises ws = true /\ close_raises ws = true).
  { split.
    - intros (ws & e & Hws). exists ws.
      split; [apply Hdom; eauto |].
      apply Hok in Hws. unfold outcome in Hws.
      destruct (send_raises ws), (close_raises ws); try discriminate; auto.
    - intros (ws & Hin & Hs & Hc).
      apply Hret in Hin as [r Hr]. exists ws, ConnectionClosed.
      rewrite Hr. apply Hok in Hr. subst r. unfold outcome.
      now rewrite Hs, Hc. }
  split; [exact Hclients |].
  split; [exact Hclosable |].
  split.
  { exists order. split; [| exact Hdel].
    apply NoDup_Permutation; [exact Hnd | apply NoDup_elements |].
    intros ws. subst ok. unfold reachable.
    rewrite elem_of_elements, elem_of_filter, Horder, Hret. tauto. }
  split; [exact Hesc |].
  split.
  { intros Hcontract. split.
    - rewrite Hesc. intros (ws & _ & _ & Hc). rewrite Hcontract in Hc. discriminate.
    - rewrite Hclosable. f_equal. apply set_eq. intros ws.
      subst ok. unfold closable, reachable.
      rewrite elem_of_filter, elem_of_difference, elem_of_filter.
      specialize (Hcontract ws).
      destruct (send_raises ws); intuition congruence. }
  intros bad Hbad Honly.
  assert (Hok_eq : ok = hub_clients h0 ∖ {[bad]}).
  { apply set_eq. intros ws. subst ok. unfold reachable.
    rewrite elem_of_filter, elem_of_difference, elem_of_singleton.
    split.
    - intros [Hf Hin]. split; [exact Hin |]. intros ->.
      assert (send_raises bad = true) by (now apply Honly). congruence.
    - intros [Hin Hne]. split; [| exact Hin].
      destruct (send_raises ws) eqn:Hr; [| reflexivity].
      exfalso. apply Hne. now apply Honly. }
  split; [now rewrite Hclients |].
  split.
  { intros Hc. apply Hclosed. right.
    split; [now apply Honly |]. split; [exact Hc | now apply Hret]. }
  rewrite Hclients, Hok_eq.
  assert (Hperm : elements (hub_clients h0)
                  ≡ₚ bad :: elements (hub_clients h0 ∖ {[bad]})).
  { apply NoDup_Permutation.
    - apply NoDup_elements.
    - constructor; [| apply NoDup_elements].
      rewrite elem_of_elements, elem_of_difference, elem_of_singleton. tauto.
    - intros ws. rewrite elem_of_cons, !elem_of_elements, elem_of_difference,
        elem_of_singleton.
      destruct (decide (ws = bad)) as [-> | Hne]; tauto. }
  now rewrite Hperm.
Qed.

(** Three subscribers, the second failing: the broadcast returns, the
    second is removed and closed, and two subscribers are left. *)
Lemma broadcast_outcome_example :
  let done := broadcast second_fails (fun _ => false) three_subscribers
                (MsgCalibration "relax" None) in
  done.2 = Ok tt /\
  hub_clients done.1 = hub_clients three_subscribers ∖ {[2%nat]} /\
  2%nat ∈ closed done.1 /\
  S (length (elements (hub_clients done.1))) = 3%nat.
Proof.
  intros done.
  destruct (broadcast_outcome second_fails (fun _ => false)
              (MsgCalibration "relax" None) three_subscribers)
    as [(t1 & Hrun & Hdone & Hcall) [_ Hend]].
  fold done in Hrun, Hcall.
  destruct (Hend (done.1, t1) Hrun Hdone) as (_ & _ & _ & _ & _ & Hone).
  assert (Hin : 2%nat ∈ hub_clients three_subscribers)
    by (unfold three_subscribers; cbn [hub_clients]; set_solver).
  assert (Honly : forall ws, ws ∈ hub_clients three_subscribers ->
                             second_fails ws = true <-> ws = 2%nat)
    by (intros ws _; unfold second_fails; apply Nat.eqb_eq).
  destruct (Hone 2%nat Hin Honly) as (Hcl & Hclosed & Hcount).
  cbn [fst] in *.
  split; [apply Hcall; reflexivity |].
  split; [exact Hcl |]. split; [apply Hclosed; reflexivity | exact Hcount].
Defined.

(** C7.  Where the claim fails.  [_safe_send] catches what [ws.send]
    raises, but the [try ... finally] around [await ws.close()] has no
    [except]: when [close] of the failing subscriber raises as well, the
    exception leaves [_safe_send].  For a subscriber [bad] whose [send]
    and [close] both raise: [_broadcast] raises; in every schedule of the
    coroutines the one for [bad] ends in the exception and [gather]
    passes it on, and [bad] is not closed by the broadcast; and a pass of
    the stream loop that hands a packet to [_broadcast] ends in the
    exception, so the stream ends for every subscriber.  What the claim
    says of the others does hold: [bad] is removed, and every subscriber
    whose send goes through has the payload exactly once. *)
Theorem broadcast_escalates_close_failure
  (send_raises close_raises : nat -> bool) (payload : message) (h0 : hub)
  (bad : nat) :
  bad ∈ hub_clients h0 ->
  send_raises bad = true ->
  close_raises bad = true ->
  (broadcast send_raises close_raises h0 payload).2 = Raise ConnectionClosed
  /\
  (forall p,
      task_steps send_raises close_raises payload (spawn h0) p ->
      all_returned p.2 ->
      escalated p.2 /\
      p.2 !! bad = Some (Returned (Raise ConnectionClosed)) /\
      (bad ∈ closed p.1 <-> bad ∈ closed h0) /\
      (bad ∉ hub_clients p.1) /\
      hub_clients p.1 = reachable send_raises (hub_clients h0) /\
      exists order,
        order ≡ₚ elements (reachable send_raises (hub_clients h0)) /\
        delivered p.1 = map (fun ws => (ws, payload)) order ++ delivered h0)
  /\
  (forall (fs win_len : Z) (b : Bridge) (l : Loop) (wall_ms : Z),
      clients b = hub_clients h0 ->
      (0 < fs)%Z ->
      (next_gate l <= global_idx l)%Z ->
      (win_len <= Z.of_nat (shape0 (buf l)))%Z ->
      (0 < shape1 (buf l))%nat ->
      (global_idx l / fs)%Z <> last_sec l ->
      gate_pass send_raises close_raises fs win_len b l wall_ms
      = Raise ConnectionClosed).
Proof.
  intros Hin Hsend Hclose.
  assert (Hex : existsb (fun ws => send_raises ws && close_raises ws)
                  (elements (hub_clients h0)) = true).
  { apply existsb_exists. exists bad. split.
    - apply list_elem_of_In, elem_of_elements, Hin.
    - now rewrite Hsend, Hclose. }
  split; [| split].
  - rewrite broadcast_result. now rewrite Hex.
  - intros [h t] Hrun Hdone. cbn [fst snd] in *.
    destruct (broadcast_outcome send_raises close_raises payload h0)
      as (_ & _ & Hend).
    destruct (Hend (h, t) Hrun Hdone)
      as (Hcl & Hclosed & Horder & Hesc & _ & _). cbn [fst snd] in *.
    destruct (pool_inv_steps send_raises close_raises payload h0 (h, t) Hrun)
      as (_ & _ & _ & _ & _ & Hout). cbn [fst snd] in *.
    assert (Hbad : t !! bad = Some (Returned (Raise ConnectionClosed))).
    { destruct (proj2 (complete_schedule_returned send_raises close_raises
                         payload h0 h t Hrun Hdone bad) Hin) as [r Hr].
      rewrite Hr. rewrite (Hout bad r Hr). unfold outcome.
      now rewrite Hsend, Hclose. }
    split; [apply Hesc; exists bad; auto |]. split; [exact Hbad |].
    split.
    { rewrite Hclosed. unfold closable. rewrite elem_of_union, elem_of_filter.
      split; [| tauto]. intros [H | [[_ H] _]]; [exact H | congruence]. }
    split.
    { rewrite Hcl. unfold reachable. rewrite elem_of_filter.
      intros [H _]. congruence. }
    split; [exact Hcl | exact Horder].
  - intros fs win_len b l wall_ms Hb Hfs Hidx Hwin Hcols Hsec.
    destruct (gate_step_due fs win_len b l wall_ms Hfs Hidx Hwin Hcols)
      as (E & a & t & bt & En & _ & _ & Hg).
    unfold gate_pass. rewrite Hg. cbn [bind g_sent g_bridge].
    destruct (Z.eqb_spec (global_idx l / fs) (last_sec l)); [contradiction |].
    cbn [negb]. unfold broadcast_raises. cbn [clients]. now rewrite Hb, Hex.
Qed.

(** Three subscribers, the second with a broken connection whose [close]
    raises too: [_broadcast] raises, the second is removed but not
    closed, and a stream loop with these subscribers ends at its first
    packet. *)
Lemma broadcast_escalates_close_failure_witness :
  let done := broadcast second_fails second_fails three_subscribers
                (MsgCalibration "relax" None) in
  done.2 = Raise ConnectionClosed /\
  (2%nat ∉ hub_clients done.1) /\
  (2%nat ∉ closed done.1) /\
  gate_pass second_fails second_fails 125 125
    (mkBridge (hub_clients three_subscribers) "normal" NormState_init)
    (mkLoop first_block256 256 GATE_STRIDE 0 (-1)) 0
  = Raise ConnectionClosed.
Proof.
  intros done.
  assert (Hin : 2%nat ∈ hub_clients three_subscribers)
    by (unfold three_subscribers; cbn [hub_clients]; set_solver).
  destruct (broadcast_escalates_close_failure second_fails second_fails
              (MsgCalibration "relax" None) three_subscribers 2%nat
              Hin eq_refl eq_refl) as (Hraise & Hend & Hloop).
  destruct (broadcast_run second_fails second_fails
              (MsgCalibration "relax" None) three_subscribers)
    as (t1 & Hrun & Hdone).
  fold done in Hraise, Hrun.
  destruct (Hend (done.1, t1) Hrun Hdone)
    as (_ & _ & Hclosed & Hgone & _). cbn [fst] in *.
  split; [exact Hraise |]. split; [exact Hgone |].
  split.
  { intros H. apply Hclosed in H. unfold three_subscribers in H.
    cbn [closed] in H. set_solver. }
  apply Hloop.
  - reflexivity.
  - lia.
  - vm_compute. discriminate.
  - vm_compute. discriminate.
  - vm_compute. lia.
  - vm_compute. discriminate.
Defined.

(* --------------------------------------------------------------------- *)
(** ** ControlProtocol                                                     *)
(* --------------------------------------------------------------------- *)

(** Text that is not JSON is skipped. *)
Lemma unparseable_ignored (b : Bridge) (ws : nat) :
  handler_step b ws (Raise JSONDecodeError) = ConnOpen b [].
Proof. reflexivity. Qed.

(** A JSON object whose [type] is none of the three known kinds is
    skipped. *)
Lemma unknown_kind_ignored (b : Bridge) (ws : nat) (kv : list (string * json)) :
  let kind := match dict_lookup kv "type" with Some v => v | None => JNull end in
  json_is_str kind "subscribe" = false ->
  json_is_str kind "set_mode" = false ->
  json_is_str kind "reset_norm" = false ->
  handler_step b ws (Ok (JDict kv)) = ConnOpen b [].
Proof.
  intros kind H1 H2 H3. unfold handler_step, on_message, py_get.
  cbn [bind]. fold kind. rewrite H1, H2. cbn [bind]. now rewrite H3.
Qed.

(** A [set_mode] whose mode is not one of the three names is skipped. *)
Lemma invalid_mode_ignored (b : Bridge) (ws : nat) (kv : list (string * json)) :
  dict_lookup kv "type" = Some (JStr "set_mode") ->
  (forall ms, dict_lookup kv "mode" = Some (JStr ms) ->
              ms <> "normal"%string /\ ms <> "relax"%string /\ ms <> "mental"%string) ->
  handler_step b ws (Ok (JDict kv)) = ConnOpen b [].
Proof.
  intros Htype Hmode. unfold handler_step, on_message, py_get.
  cbn [bind]. rewrite Htype. cbn.
  destruct (dict_lookup kv "mode") as [[| | | | ms | |] |]; try reflexivity.
  destruct (Hmode ms eq_refl) as (Hn & Hr & Hm).
  apply String.eqb_neq in Hn, Hr, Hm. rewrite Hn, Hr, Hm. reflexivity.
Qed.

(** Any JSON value that is not an object makes [payload.get] raise, which
    ends the handler and with it the connection. *)
Lemma non_object_drops (b : Bridge) (ws : nat) (payload : json) :
  (forall kv, payload <> JDict kv) ->
  handler_step b ws (Ok payload)
  = ConnDropped AttributeError (mkBridge (clients b ∖ {[ws]}) (mode b) (norm b)).
Proof.
  intros Hnd. destruct payload; try reflexivity. now destruct (Hnd kv).
Qed.

(** Bytes that are not UTF-8 make [json.loads] raise [UnicodeDecodeError],
    which the handler does not catch. *)
Lemma undecodable_drops (b : Bridge) (ws : nat) :
  handler_step b ws (Raise UnicodeDecodeError)
  = ConnDropped UnicodeDecodeError
      (mkBridge (clients b ∖ {[ws]}) (mode b) (norm b)).
Proof. reflexivity. Qed.

(** C8, at the message [42].  The text parses as JSON, to a number, so it
    names no known kind; [payload.get] raises [AttributeError], the handler
    is left through its [finally], the sender is taken out of the
    subscriber set and its connection ends.  A binary frame that is not
    UTF-8, which does not parse as JSON, ends the connection in the same
    way. *)
Theorem handler_drops_non_object (ws : nat) :
  let b := mkBridge {[ws]} "normal" NormState_init in
  handler_step b ws (Ok (JInt 42))
  = ConnDropped AttributeError (mkBridge ∅ "normal" NormState_init)
  /\ handler_step b ws (Raise UnicodeDecodeError)
     = ConnDropped UnicodeDecodeError (mkBridge ∅ "normal" NormState_init)
  /\ clients b <> ∅.
Proof.
  cbv zeta. split; [| split].
  - unfold handler_step; cbn. do 2 f_equal. apply difference_diag_L.
  - unfold handler_step; cbn. do 2 f_equal. apply difference_diag_L.
  - cbn. apply non_empty_singleton_L.
Qed.

(* --------------------------------------------------------------------- *)
(** ** Persistence                                                         *)
(* --------------------------------------------------------------------- *)

(** A file that is missing, unreadable or not JSON makes the read raise. *)
Lemma read_json_fails (d : disk) (o : io_oracle) (path : string) :
  read_ok o = false \/ d !! path = None \/ d !! path = Some Malformed ->
  exists e, read_json d o path = Raise e.
Proof.
  unfold read_json. intros [Hr | [Hm | Hm]].
  - rewrite Hr. cbn. eauto.
  - destruct (read_ok o); cbn; [rewrite Hm |]; eauto.
  - destruct (read_ok o); cbn; [rewrite Hm |]; eauto.
Qed.

(** Whatever is raised while loading is caught. *)
Lemma load_norm_state_default
  (float_of_str : string -> res pyfloat) (d : disk) (o : io_oracle)
  (path : string) (e : exn) :
  read_json d o path = Raise e ->
  load_norm_state float_of_str d o path = (FPosInf, FNegInf).
Proof. intros Hr. unfold load_norm_state. now rewrite Hr. Qed.

(** A document that is not an object, or whose fields are not numbers,
    is treated like a missing file. *)
Lemma load_norm_state_not_object
  (float_of_str : string -> res pyfloat) (d : disk) (o : io_oracle)
  (path : string) (doc : json) :
  read_json d o path = Ok doc ->
  (forall kv, doc <> JDict kv) ->
  load_norm_state float_of_str d o path = (FPosInf, FNegInf).
Proof.
  intros Hr Hnd. unfold load_norm_state. rewrite Hr.
  destruct doc; try reflexivity. now destruct (Hnd kv).
Qed.

(** A field that [float] does not convert makes the whole load fall
    back: a string it cannot parse, [null], a list, an object, an integer
    beyond the range of a double. *)
Lemma load_norm_state_bad_field
  (float_of_str : string -> res pyfloat) (d : disk) (o : io_oracle)
  (path : string) (kv : list (string * json)) (e : exn) :
  read_json d o path = Ok (JDict kv) ->
  py_float float_of_str
    (match dict_lookup kv "Emin" with Some v => v | None => JFloat FPosInf end)
  = Raise e \/
  py_float float_of_str
    (match dict_lookup kv "Emax" with Some v => v | None => JFloat FNegInf end)
  = Raise e ->
  load_norm_state float_of_str d o path = (FPosInf, FNegInf).
Proof.
  intros Hr Hbad. unfold load_norm_state. rewrite Hr. cbn [py_get bind].
  destruct Hbad as [Hlo | Hhi].
  - now rewrite Hlo.
  - destruct (py_float float_of_str
                (match dict_lookup kv "Emin" with
                 | Some v => v
                 | None => JFloat FPosInf
                 end)); cbn [bind]; [| reflexivity].
    now rewrite Hhi.
Qed.

(** What was saved is what is loaded. *)
Lemma save_then_load
  (float_of_str : string -> res pyfloat) (d d1 : disk) (o o1 : io_oracle)
  (path : string) (lo hi : pyfloat) (mono_ns : Z) :
  save_norm_state d o path lo hi mono_ns = (d1, Ok tt) ->
  read_ok o1 = true ->
  load_norm_state float_of_str d1 o1 path = (lo, hi).
Proof.
  unfold save_norm_state. intros Hsave Hread.
  destruct (open_ok o); cbn in Hsave; [| discriminate].
  destruct (write_ok o); cbn in Hsave; [| discriminate].
  destruct (replace_ok o); cbn in Hsave; [| discriminate].
  injection Hsave as <-.
  unfold load_norm_state, read_json. rewrite Hread. cbn [negb].
  rewrite lookup_insert_eq. reflexivity.
Qed.

Lemma save_norm_state_fails (d : disk) (o : io_oracle) (path : string)
  (lo hi : pyfloat) (mono_ns : Z) :
  open_ok o = false \/ write_ok o = false \/ replace_ok o = false ->
  snd (save_norm_state d o path lo hi mono_ns) = Raise OSError.
Proof.
  unfold save_norm_state. intros Hfail.
  destruct (open_ok o); cbn [negb]; [| reflexivity].
  destruct (write_ok o); cbn [negb]; [| reflexivity].
  destruct (replace_ok o); cbn [negb]; [| reflexivity].
  destruct Hfail as [H | [H | H]]; discriminate.
Qed.

(** A save that fails during an evaluation leaves the [while True]: the
    pass ends in the exception of the save. *)
Lemma console_gate_save_fails
  (fs win_len : Z) (c : Console) (d : disk) (o : io_oracle) (mono_ns : Z)
  (E a t bt : R) :
  (next_gate (c_loop c) <= global_idx (c_loop c))%Z ->
  (win_len <= Z.of_nat (shape0 (buf (c_loop c))))%Z ->
  (0 < shape1 (buf (c_loop c)))%nat ->
  engagement_from_window (last_rows win_len (buf (c_loop c))) (IZR fs)
  = Ok (E, a, t, bt) ->
  flt (Fin E) (c_Emin c) || fgt (Fin E) (c_Emax c) = true ->
  open_ok o = false \/ write_ok o = false \/ replace_ok o = false ->
  snd (console_gate fs win_len c d o mono_ns) = Raise OSError.
Proof.
  intros Hidx Hwin Hcols Hsample Hupd Hfail. unfold console_gate.
  destruct (Z.leb_spec (next_gate (c_loop c)) (global_idx (c_loop c))); [| lia].
  destruct (Z.leb_spec win_len (Z.of_nat (shape0 (buf (c_loop c))))); [| lia].
  destruct (Nat.ltb_spec 0 (shape1 (buf (c_loop c)))); [| lia]. cbn [andb].
  rewrite Hsample, observe_inline_update, Hupd.
  pose proof (save_norm_state_fails d o PERSIST_PATH
                (Emin (update (mkNorm (c_Emin c) (c_Emax c)) (Fin E)))
                (Emax (update (mkNorm (c_Emin c) (c_Emax c)) (Fin E)))
                mono_ns Hfail) as Hsave.
  destruct (save_norm_state d o PERSIST_PATH _ _ mono_ns) as [d1 saved].
  cbn [snd] in *. now rewrite Hsave.
Qed.

(** With no state loaded, the first evaluation always saves. *)
Lemma console_gate_first_save_fails
  (fs win_len : Z) (c : Console) (d : disk) (o : io_oracle) (mono_ns : Z) :
  (0 < fs)%Z ->
  (next_gate (c_loop c) <= global_idx (c_loop c))%Z ->
  (win_len <= Z.of_nat (shape0 (buf (c_loop c))))%Z ->
  (0 < shape1 (buf (c_loop c)))%nat ->
  c_Emin c = FPosInf ->
  open_ok o = false \/ write_ok o = false \/ replace_ok o = false ->
  snd (console_gate fs win_len c d o mono_ns) = Raise OSError.
Proof.
  intros Hfs Hidx Hwin Hcols Hmin Hfail.
  assert (HfsR : IZR fs <> 0) by (apply not_0_IZR; lia).
  destruct (engagement_ok (last_rows win_len (buf (c_loop c))) (IZR fs) HfsR)
    as [[[[E a] t] bt] Hsample].
  eapply console_gate_save_fails; try eassumption.
  now rewrite Hmin.
Qed.

(** C9 as the specification states it fails for a save.  The first
    evaluation of the console loop with a disk that refuses the write:
    [run_engagement] is left through [OSError]; it does not go on. *)
Lemma save_failure_terminates :
  snd (run_engagement 125 125 console_before ∅ [(0, jump_block, disk_full, 0%Z)])
  = Terminated OSError
  /\ forall c1,
       snd (run_engagement 125 125 console_before ∅
              [(0, jump_block, disk_full, 0%Z)]) <> Looping c1.
Proof.
  assert (Hrun : snd (run_engagement 125 125 console_before ∅
                        [(0, jump_block, disk_full, 0%Z)]) = Terminated OSError).
  { cbn [run_engagement]. unfold console_iteration.
    destruct jump_pull as (l1 & Hpull & Hidx & Hgate & Hrows & Hcols).
    cbn [console_before c_loop c_Emin c_Emax]. rewrite Hpull.
    pose proof (console_gate_first_save_fails 125 125
                  (mkConsole l1 FPosInf FNegInf) ∅ disk_full 0) as Hfail.
    cbn [c_loop c_Emin] in Hfail. rewrite Hidx, Hgate, Hrows, Hcols in Hfail.
    specialize (Hfail ltac:(lia) ltac:(lia) ltac:(lia) ltac:(lia) eq_refl
                      (or_introl eq_refl)).
    destruct (console_gate 125 125 (mkConsole l1 FPosInf FNegInf) ∅ disk_full 0)
      as [d1 r]. cbn [snd] in Hfail. now rewrite Hfail. }
  split; [exact Hrun |]. intros c1. rewrite Hrun. discriminate.
Qed.

(** C9, amended.  A load that fails returns the untouched bounds, plus
    and minus infinity, as if no state had been saved: when the file is
    missing, unreadable or not JSON, when the document is not an object,
    and when [Emin] or [Emax] in it is not a number that [float] converts.
    A save that fails is not survived: whichever of its three calls is
    refused, the pass of the console loop in which the bounds moved ends
    in that exception, and [run_engagement] is left through it, whatever
    further input was to come. *)
Theorem persistence_failure_policy :
  (forall (float_of_str : string -> res pyfloat) (d : disk) (o : io_oracle)
          (path : string),
      (read_ok o = false \/ d !! path = None \/ d !! path = Some Malformed ->
       load_norm_state float_of_str d o path = (FPosInf, FNegInf)) /\
      (forall doc,
          read_json d o path = Ok doc -> (forall kv, doc <> JDict kv) ->
          load_norm_state float_of_str d o path = (FPosInf, FNegInf)) /\
      (forall kv e,
          read_json d o path = Ok (JDict kv) ->
          py_float float_of_str
            (match dict_lookup kv "Emin" with
             | Some v => v
             | None => JFloat FPosInf
             end) = Raise e \/
          py_float float_of_str
            (match dict_lookup kv "Emax" with
             | Some v => v
             | None => JFloat FNegInf
             end) = Raise e ->
          load_norm_state float_of_str d o path = (FPosInf, FNegInf)))
  /\
  (forall (fs win_len : Z) (c : Console) (d : disk) (o : io_oracle)
          (now : R) (X : ndarray) (mono_ns : Z) (rest : list console_tick)
          (l1 : Loop) (E a t bt : R),
      pull_step fs win_len (c_loop c) now X = Ok l1 ->
      (next_gate l1 <= global_idx l1)%Z ->
      (win_len <= Z.of_nat (shape0 (buf l1)))%Z ->
      (0 < shape1 (buf l1))%nat ->
      engagement_from_window (last_rows win_len (buf l1)) (IZR fs)
      = Ok (E, a, t, bt) ->
      flt (Fin E) (c_Emin c) || fgt (Fin E) (c_Emax c) = true ->
      open_ok o = false \/ write_ok o = false \/ replace_ok o = false ->
      snd (console_iteration fs win_len c d now X o mono_ns) = Raise OSError /\
      snd (run_engagement fs win_len c d ((now, X, o, mono_ns) :: rest))
      = Terminated OSError).
Proof.
  split.
  - intros float_of_str d o path. split; [| split].
    + intros Hbad. destruct (read_json_fails d o path Hbad) as [e He].
      eapply load_norm_state_default, He.
    + intros doc. apply load_norm_state_not_object.
    + intros kv e. apply load_norm_state_bad_field.
  - intros fs win_len c d o now X mono_ns rest l1 E a t bt
           Hpull Hidx Hwin Hcols Hsample Hupd Hfail.
    assert (Hiter : snd (console_iteration fs win_len c d now X o mono_ns)
                    = Raise OSError).
    { unfold console_iteration. rewrite Hpull.
      eapply console_gate_save_fails with (c := mkConsole l1 (c_Emin c) (c_Emax c));
        eassumption. }
    split; [exact Hiter |].
    cbn [run_engagement].
    destruct (console_iteration fs win_len c d now X o mono_ns) as [d1 r].
    cbn [snd] in Hiter. now rewrite Hiter.
Qed.

(** A missing state file; a state file whose [Emin] is an integer beyond
    the doubles; and a first evaluation whose save is refused. *)
Lemma persistence_failure_policy_witness :
  load_norm_state (fun _ => Raise ValueError) ∅ io_fine
    PERSIST_PATH = (FPosInf, FNegInf)
  /\ load_norm_state (fun _ => Raise ValueError)
       {[ PERSIST_PATH :=
            Document (JDict [("Emin"%string, JInt (2 ^ 1024));
                             ("Emax"%string, JFloat (Fin 2))]) ]}
       io_fine PERSIST_PATH = (FPosInf, FNegInf)
  /\ exists e,
       snd (run_engagement 125 125 console_before ∅
              [(0, jump_block, disk_full, 0%Z)]) = Terminated e.
Proof.
  destruct persistence_failure_policy as [Hload Hsave]. split; [| split].
  - apply Hload. right. left. reflexivity.
  - destruct (Hload (fun _ => Raise ValueError)
                ({[ PERSIST_PATH :=
                      Document (JDict [("Emin"%string, JInt (2 ^ 1024));
                                       ("Emax"%string, JFloat (Fin 2))]) ]} : disk)
                io_fine PERSIST_PATH) as (_ & _ & Hfield).
    apply (Hfield [("Emin"%string, JInt (2 ^ 1024));
                   ("Emax"%string, JFloat (Fin 2))] OverflowError);
      [reflexivity |]. left. reflexivity.
  - destruct jump_pull as (l1 & Hpull & Hidx & Hgate & Hrows & Hcols).
    destruct (engagement_ok (last_rows 125 (buf l1)) (IZR 125))
      as [[[[E a] t] bt] Hsample]; [apply not_0_IZR; lia |].
    exists OSError.
    apply (Hsave 125%Z 125%Z console_before ∅ disk_full 0 jump_block 0%Z []
             l1 E a t bt).
    + exact Hpull.
    + rewrite Hidx, Hgate. lia.
    + rewrite Hrows. lia.
    + rewrite Hcols. lia.
    + exact Hsample.
    + reflexivity.
    + left. reflexivity.
Defined.

(* --------------------------------------------------------------------- *)
(** ** Bounds in outgoing packets                                          *)
(* --------------------------------------------------------------------- *)

Lemma has_null_bound_regular (m : message) :
  packet_regular m -> has_null_bound m ->
  exists md, m = MsgCalibration md (Some (None, None)).
Proof.
  destruct m as [md | md [[lo hi] |] | ts fs E En al th be lo hi md]; cbn.
  - tauto.
  - intros [-> ->] _. now exists md.
  - tauto.
  - intros (e & a & b & _ & -> & -> & _) [H | H]; discriminate.
Qed.

(** The gate observes before it builds the packet: from a regular
    normaliser it leaves a regular one with finite bounds, and the packet
    carries those. *)
Lemma gate_step_regular
  (fs win_len : Z) (b : Bridge) (l : Loop) (wall_ms : Z) (g : gate_out) :
  norm_regular (norm b) ->
  gate_step fs win_len b l wall_ms = Ok g ->
  norm_regular (norm (g_bridge g)) /\
  forall m, g_sent g = Some m -> packet_regular m.
Proof.
  intros Hreg. unfold gate_step.
  destruct (_ && _ && _).
  2:{ intros [= <-]. cbn. split; [exact Hreg | discriminate]. }
  destruct (engagement_from_window _ _) as [[[[E a] t] bt] | e]; cbn [bind];
    [| discriminate].
  destruct (update_regular (norm b) E Hreg) as (lo & hi & Hupd & Hb).
  rewrite Hupd.
  destruct (normalize _ _) as [En | e]; cbn [bind]; [| discriminate].
  destruct (py_floordiv _ _) as [sec | e]; cbn [bind]; [| discriminate].
  intros [= <-]. cbn [g_bridge g_sent norm]. split.
  - right. exists lo, hi. split; [reflexivity | lra].
  - intros m. destruct (negb _); [| discriminate].
    intros [= <-]. cbn. exists E, lo, hi. repeat split; lra.
Qed.

(** A control message leaves a regular normaliser regular, and what it
    broadcasts is regular. *)
Lemma on_message_regular (b b1 : Bridge) (loaded : res json) (out : list message) :
  norm_regular (norm b) ->
  on_message b loaded = Ok (b1, out) ->
  norm_regular (norm b1) /\ Forall packet_regular out.
Proof.
  intros Hreg. unfold on_message.
  destruct loaded as [payload | []]; try discriminate.
  2:{ intros [= <- <-]. split; [exact Hreg | constructor]. }
  destruct (py_get payload "type" JNull) as [kind | e]; cbn [bind];
    [| discriminate].
  destruct (json_is_str kind "subscribe").
  { intros [= <- <-]. split; [exact Hreg | constructor]. }
  assert (Hset :
    forall r1,
      (if json_is_str kind "set_mode"
       then let* m := py_get payload "mode" JNull in
            match m with
            | JStr ms =>
                if String.eqb ms "normal" || String.eqb ms "relax"
                   || String.eqb ms "mental"
                then Ok (mkBridge (clients b) ms (norm b), [MsgCalibration ms None])
                else Ok (b, [])
            | _ => Ok (b, [])
            end
       else Ok (b, [])) = Ok r1 ->
      norm (fst r1) = norm b /\ Forall packet_regular (snd r1)).
  { intros r1. destruct (json_is_str kind "set_mode").
    - destruct (py_get payload "mode" JNull) as [m | e]; cbn [bind];
        [| discriminate].
      destruct m; try (intros [= <-]; cbn; split; [reflexivity | constructor]).
      destruct (_ || _ || _); intros [= <-]; cbn;
        (split; [reflexivity |]); repeat constructor.
    - intros [= <-]. cbn. split; [reflexivity | constructor]. }
  destruct (if json_is_str kind "set_mode" then _ else _) as [[b' out1] | e];
    cbn [bind]; [| discriminate].
  destruct (Hset (b', out1) eq_refl) as [Hnorm Hout]. cbn [fst snd] in *.
  destruct (json_is_str kind "reset_norm").
  - intros [= <- <-]. cbn [norm]. split; [left; reflexivity |].
    apply Forall_app. split; [exact Hout |].
    constructor; [| constructor]. cbn. auto.
  - intros [= <- <-]. rewrite Hnorm. split; assumption.
Qed.

Section SystemProofs.

Variable send_raises : nat -> bool.
Variable close_raises : nat -> bool.
Variables fs win_len : Z.

Lemma sys_step_inv (s : system) (ev : event) :
  sys_inv s -> sys_inv (sys_step send_raises close_raises fs win_len s ev).
Proof.
  intros [Hreg Hlog]. unfold sys_step.
  destruct (sys_stopped s); [split; assumption |].
  destruct ev as [now X wall_ms | ws | ws loaded | ws].
  - unfold iteration.
    destruct (pull_step fs win_len (sys_loop s) now X) as [l1 | e];
      cbn [bind]; [| split; assumption].
    destruct (gate_step fs win_len (sys_bridge s) l1 wall_ms) as [g | e] eqn:Hg;
      [| split; assumption].
    destruct (gate_step_regular _ _ _ _ _ g Hreg Hg) as [Hreg1 Hsent].
    destruct (g_sent g) as [m |]; split; cbn; try assumption.
    apply Forall_app. split; [exact Hlog |].
    constructor; [now apply Hsent | constructor].
  - split; assumption.
  - unfold handler_step.
    destruct (on_message (sys_bridge s) loaded) as [[b1 out] | e] eqn:Hmsg.
    + destruct (on_message_regular _ _ _ _ Hreg Hmsg) as [Hreg1 Hout].
      destruct out as [| m out]; [split; assumption |].
      split.
      * cbn [sys_bridge]. destruct (broadcast_raises _ _ b1); exact Hreg1.
      * cbn [sys_log]. apply Forall_app. split; assumption.
    + split; assumption.
  - split; assumption.
Qed.

Lemma sys_run_inv (t0 : R) (evs : list event) :
  sys_inv (sys_run send_raises close_raises fs win_len t0 evs).
Proof.
  unfold sys_run.
  assert (Hgen : forall s,
             sys_inv s ->
             sys_inv (fold_left (sys_step send_raises close_raises fs win_len)
                                evs s)).
  { induction evs as [| ev evs IH]; intros s Hs; cbn; [exact Hs |].
    apply IH, sys_step_inv, Hs. }
  apply Hgen. split; [left; reflexivity | constructor].
Qed.

End SystemProofs.

(** A bridge that receives 256 samples in its first pull broadcasts one
    engagement packet, and both bounds in it are the finite raw value. *)
Lemma first_packet (send_raises close_raises : nat -> bool) :
  exists E En a t bt,
    sys_log (sys_run send_raises close_raises 125 125 0
               [EvTick 0 first_block256 0])
    = [MsgEngagement 0 125 (Fin E) En (Fin a) (Fin t) (Fin bt)
         (Some (Fin E)) (Some (Fin E)) "normal"].
Proof.
  unfold sys_run. cbn [fold_left]. unfold sys_step.
  cbn [system_init sys_stopped sys_bridge sys_loop sys_log].
  unfold iteration.
  assert (Hpull : pull_step 125 125 (Loop_init 0) 0 first_block256
                  = Ok (mkLoop (last_rows 125 first_block256) 256 GATE_STRIDE
                               (advance_pull 0 0) (-1))).
  { unfold pull_step. cbn [Loop_init next_pull].
    case_Rltb 0 0; [lra |]. cbn [negb]. reflexivity. }
  rewrite Hpull. cbn [bind]. unfold gate_step.
  cbn [next_gate global_idx buf last_sec next_pull].
  replace ((GATE_STRIDE <=? 256)%Z
           && (125 <=? Z.of_nat (shape0 (last_rows 125 first_block256)))%Z
           && (0 <? shape1 (last_rows 125 first_block256))%nat)
    with true by (vm_compute; reflexivity).
  destruct (engagement_ok (last_rows 125 (last_rows 125 first_block256)) (IZR 125))
    as [[[[E a] t] bt] Hsample]; [apply not_0_IZR; lia |].
  rewrite Hsample. cbn [bind].
  destruct (normalize_total_range (update (norm Bridge_init) (Fin E)) (Fin E))
    as (r & Hnorm & _).
  rewrite Hnorm. cbn [bind].
  replace (py_floordiv 256 125) with (Ok 2%Z) by reflexivity. cbn [bind].
  exists E, (Fin r), a, t, bt. reflexivity.
Qed.

(** C10.  Whatever ticks, connections and control messages a bridge goes
    through from its start, every engagement packet it hands to
    [_broadcast] carries a finite raw value and two finite bounds that
    enclose it, and every calibration packet that carries bounds carries
    two [null]s; so a packet with a [null] bound is a calibration packet
    sent on [reset_norm]. *)
Theorem engagement_bounds_finite
  (send_raises close_raises : nat -> bool) (fs win_len : Z) (t0 : R)
  (evs : list event) :
  Forall (fun m =>
            packet_regular m /\
            (has_null_bound m ->
             exists md, m = MsgCalibration md (Some (None, None))))
         (sys_log (sys_run send_raises close_raises fs win_len t0 evs)).
Proof.
  destruct (sys_run_inv send_raises close_raises fs win_len t0 evs) as [_ Hlog].
  eapply List.Forall_impl; [| exact Hlog].
  intros m Hm. split; [exact Hm | now apply has_null_bound_regular].
Qed.

(* --------------------------------------------------------------------- *)
(** ** SpectralEngine: the array code computes the worded estimate         *)
(* --------------------------------------------------------------------- *)

Lemma np_sum_app (l1 l2 : list R) : np_sum (l1 ++ l2) = np_sum l1 + np_sum l2.
Proof.
  unfold np_sum. induction l1 as [| a l1 IH]; cbn; [lra |].
  rewrite IH. lra.
Qed.

Lemma np_sum_map_seq (f : nat -> R) (n : nat) :
  np_sum (map f (seq 0 n)) = big_sum f n.
Proof.
  induction n as [| n IH]; [reflexivity |].
  rewrite seq_S, map_app, np_sum_app, IH. cbn. lra.
Qed.

Lemma big_sum_ext (f g : nat -> R) (n : nat) :
  (forall k, (k < n)%nat -> f k = g k) -> big_sum f n = big_sum g n.
Proof.
  induction n as [| n IH]; intros Hfg; [reflexivity |].
  cbn. rewrite IH by (intros k Hk; apply Hfg; lia).
  rewrite Hfg by lia. reflexivity.
Qed.

Lemma big_sum_zero (f : nat -> R) (n : nat) :
  (forall k, (k < n)%nat -> f k = 0) -> big_sum f n = 0.
Proof.
  induction n as [| n IH]; intros Hf; [reflexivity |].
  cbn. rewrite IH by (intros k Hk; apply Hf; lia).
  rewrite Hf by lia. lra.
Qed.

Lemma big_sum_opp (f : nat -> R) (n : nat) :
  big_sum (fun k => - f k) n = - big_sum f n.
Proof. induction n as [| n IH]; cbn; [lra | rewrite IH; lra]. Qed.

Lemma list_map_nth_seq (x : list R) :
  x = map (fun k => nth k x 0) (seq 0 (length x)).
Proof.
  apply nth_ext with (d := 0) (d' := (fun k => nth k x 0) 0%nat).
  - now rewrite length_map, length_seq.
  - intros k Hk.
    pose proof (map_nth (fun k => nth k x 0) (seq 0 (length x)) 0%nat k) as Hnth.
    cbv beta in Hnth. rewrite Hnth, seq_nth by assumption. reflexivity.
Qed.

Lemma zip_with_map {A B C D : Type} (f : A -> B -> C) (g : D -> A) (h : D -> B)
  (l : list D) :
  zip_with f (map g l) (map h l) = map (fun k => f (g k) (h k)) l.
Proof. induction l as [| d l IH]; cbn; [reflexivity | now rewrite IH]. Qed.

Lemma zip_with_map_r {A B C : Type} (f : A -> B -> C) (h : A -> B) (l : list A) :
  zip_with f l (map h l) = map (fun k => f k (h k)) l.
Proof. induction l as [| d l IH]; cbn; [reflexivity | now rewrite IH]. Qed.

(** [np.hanning] is the Hann window. *)
Lemma np_hanning_spec (n : nat) : np_hanning n = map (spec_hann n) (seq 0 n).
Proof.
  destruct n as [| [| n]]; [reflexivity | reflexivity |].
  unfold np_hanning. apply map_ext. intros k. unfold spec_hann.
  cbn [Nat.eqb].
  assert (Hn : INR (S (S n)) - 1 <> 0).
  { rewrite S_INR. pose proof (pos_INR (S n)) as Hp. rewrite S_INR in *.
    pose proof (pos_INR n). lra. }
  replace (PI * (1 - INR (S (S n)) + 2 * INR k) / (INR (S (S n)) - 1))
    with (2 * PI * INR k / (INR (S (S n)) - 1) - PI) by (field; exact Hn).
  rewrite cos_minus, cos_PI, sin_PI. lra.
Qed.

Lemma np_mean_spec (x : list R) : np_mean x = spec_mean x.
Proof.
  unfold np_mean, spec_mean. f_equal.
  rewrite (list_map_nth_seq x) at 1. apply np_sum_map_seq.
Qed.

(** The windowed signal, sample by sample. *)
Lemma demeaned_spec (x : list R) :
  zip_with Rmult (map (fun xi => xi - np_mean x) x) (np_hanning (length x))
  = map (spec_windowed x) (seq 0 (length x)).
Proof.
  rewrite np_hanning_spec, np_mean_spec.
  rewrite (list_map_nth_seq x) at 1. rewrite map_map, zip_with_map.
  reflexivity.
Qed.

Lemma pair_fold_sums (a b : nat -> R) (l : list nat) :
  fold_right (fun z acc => (fst z + fst acc, snd z + snd acc)) (0, 0)
             (map (fun m => (a m, b m)) l)
  = (np_sum (map a l), np_sum (map b l)).
Proof.
  induction l as [| m l IH]; [reflexivity |].
  cbn [map fold_right]. rewrite IH. reflexivity.
Qed.

(** One bin of the transform of the windowed signal. *)
Lemma dft_bin_spec (x : list R) (j : nat) :
  dft_bin (map (spec_windowed x) (seq 0 (length x))) j
  = (spec_dft_re x j, spec_dft_im x j).
Proof.
  unfold dft_bin. rewrite length_map, length_seq, zip_with_map_r.
  rewrite (pair_fold_sums
             (fun m => spec_windowed x m * cos (2 * PI * INR m * INR j / INR (length x)))
             (fun m => - (spec_windowed x m * sin (2 * PI * INR m * INR j / INR (length x))))).
  rewrite !np_sum_map_seq. unfold spec_dft_re, spec_dft_im.
  now rewrite big_sum_opp.
Qed.

Lemma np_abs_sq (z : cplx) : np_abs z ^ 2 = fst z ^ 2 + snd z ^ 2.
Proof.
  unfold np_abs. rewrite pow2_sqrt; [ring | nra].
Qed.

(** The density array, bin by bin. *)
Lemma psd_spec (x : list R) (fs : R) :
  map (fun z => np_abs z ^ 2
                / (np_sum (map (fun w => w ^ 2) (np_hanning (length x))) * fs))
      (np_rfft (map (spec_windowed x) (seq 0 (length x))))
  = map (spec_psd x fs) (seq 0 (length x / 2 + 1)).
Proof.
  unfold np_rfft. rewrite length_map, length_seq, map_map.
  apply map_ext. intros j. rewrite dft_bin_spec, np_abs_sq. cbn [fst snd].
  unfold spec_psd. do 2 f_equal.
  rewrite np_hanning_spec, map_map. apply np_sum_map_seq.
Qed.

(** The frequency array, bin by bin. *)
Lemma rfftfreq_spec (n : nat) (fs : R) :
  fs <> 0 -> n <> 0%nat ->
  np_rfftfreq n (1 / fs) = map (spec_freq n fs) (seq 0 (n / 2 + 1)).
Proof.
  intros Hfs Hn. unfold np_rfftfreq. apply map_ext. intros j.
  unfold spec_freq. field. split; [now apply not_0_INR | exact Hfs].
Qed.

Lemma in_band_spec (lo hi f : R) : in_band lo hi f = spec_inside lo hi f.
Proof.
  unfold in_band, spec_inside.
  case_Rltb f lo; destruct (Rle_dec lo f); try lra; reflexivity.
Qed.

Lemma mask_index_map {A : Type} (P : nat -> A) (b : nat -> bool) (l : list nat) :
  mask_index (map P l) (map b l) = map P (List.filter b l).
Proof.
  induction l as [| k l IH]; [reflexivity |].
  cbn. destruct (b k); cbn; now rewrite IH.
Qed.

Lemma np_any_map (b : nat -> bool) (l : list nat) :
  np_any (map b l) = false -> List.filter b l = [].
Proof.
  unfold np_any. induction l as [| k l IH]; [reflexivity |].
  cbn. destruct (b k); cbn; [discriminate | exact IH].
Qed.

(** [np.trapz] of two arrays indexed by the same bins is a sum over
    neighbouring bins. *)
Lemma np_trapz_map (P F : nat -> R) (ks : list nat) :
  np_trapz (map P ks) (map F ks)
  = pair_sum (fun k k' => (F k' - F k) * (P k' + P k) / 2) ks.
Proof.
  set (g := fun k k' => (F k' - F k) * (P k' + P k) / 2).
  unfold np_trapz. induction ks as [| k ks IH]; [reflexivity |].
  destruct ks as [| k' rest]; [reflexivity |].
  change (pair_sum g (k :: k' :: rest)) with (g k k' + pair_sum g (k' :: rest)).
  rewrite <- IH. reflexivity.
Qed.

Lemma filter_none (p : nat -> bool) (a n : nat) :
  (forall j, (a <= j)%nat -> p j = false) -> List.filter p (seq a n) = [].
Proof.
  revert a. induction n as [| n IH]; intros a Hp; [reflexivity |].
  cbn. rewrite Hp by lia. apply IH. intros j Hj. apply Hp. lia.
Qed.

(** When the selected bins form an interval, neighbours among the selected
    bins are neighbouring bins. *)
Lemma pair_sum_filter_seq (p : nat -> bool) (g : nat -> nat -> R) (a n : nat) :
  (forall i j k, (i <= j <= k)%nat -> p i = true -> p k = true -> p j = true) ->
  pair_sum g (List.filter p (seq a n))
  = np_sum (map (fun j => if p j && p (S j) then g j (S j) else 0)
                (seq a (n - 1))).
Proof.
  intros Hconvex. revert a.
  induction n as [| n IH]; intros a; [reflexivity |].
  replace (S n - 1)%nat with n by lia.
  destruct n as [| n].
  - cbn. destruct (p a); reflexivity.
  - specialize (IH (S a)). replace (S n - 1)%nat with n in IH by lia.
    change (seq a (S (S n))) with (a :: seq (S a) (S n)).
    change (seq a (S n)) with (a :: seq (S a) n).
    cbn [List.filter map np_sum fold_right].
    fold (np_sum (map (fun j => if p j && p (S j) then g j (S j) else 0)
                      (seq (S a) n))).
    rewrite <- IH.
    destruct (p a) eqn:Hpa; cbn [andb].
    + change (seq (S a) (S n)) with (S a :: seq (S (S a)) n) in *.
      cbn [List.filter] in *.
      destruct (p (S a)) eqn:Hpb.
      * reflexivity.
      * rewrite filter_none.
        -- cbn. lra.
        -- intros j Hj. destruct (p j) eqn:Hpj; [| reflexivity].
           rewrite <- Hpb. symmetry.
           apply (Hconvex a (S a) j); [lia | assumption..].
    + lra.
Qed.

Lemma spec_freq_mono (n : nat) (fs : R) (i j : nat) :
  0 < fs -> n <> 0%nat -> (i <= j)%nat -> spec_freq n fs i <= spec_freq n fs j.
Proof.
  intros Hfs Hn Hij. unfold spec_freq.
  assert (0 < INR n) by (apply lt_0_INR; lia).
  apply le_INR in Hij.
  apply Rmult_le_compat_r; [left; now apply Rinv_0_lt_compat |].
  apply Rmult_le_compat_r; lra.
Qed.

(** The bins in a band form an interval. *)
Lemma spec_inside_convex (n : nat) (fs lo hi : R) (i j k : nat) :
  0 < fs -> n <> 0%nat -> (i <= j <= k)%nat ->
  spec_inside lo hi (spec_freq n fs i) = true ->
  spec_inside lo hi (spec_freq n fs k) = true ->
  spec_inside lo hi (spec_freq n fs j) = true.
Proof.
  intros Hfs Hn [Hij Hjk]. unfold spec_inside.
  pose proof (spec_freq_mono n fs i j Hfs Hn Hij).
  pose proof (spec_freq_mono n fs j k Hfs Hn Hjk).
  repeat match goal with
         | |- context [Rle_dec ?a ?b] => destruct (Rle_dec a b)
         | |- context [Rlt_dec ?a ?b] => destruct (Rlt_dec a b)
         end; intros; try discriminate; try reflexivity; lra.
Qed.

(** The band power of the array code is the worded band power. *)
Lemma bandpower_spec (x : list R) (fs f_lo f_hi : R) :
  0 < fs ->
  bandpower_hann_rfft x fs f_lo f_hi = Ok (spec_band_power x fs f_lo f_hi).
Proof.
  intros Hfs. unfold bandpower_hann_rfft.
  destruct (Nat.eqb_spec (length x) 0) as [Hz | Hnz].
  { unfold spec_band_power. rewrite Hz. reflexivity. }
  rewrite py_div_ok by lra. cbn [bind].
  rewrite demeaned_spec, psd_spec, rfftfreq_spec by (assumption || lra).
  rewrite map_map.
  set (N := (length x / 2 + 1)%nat).
  set (p := fun j => in_band f_lo f_hi (spec_freq (length x) fs j)).
  change (map (fun j => in_band f_lo f_hi (spec_freq (length x) fs j)) (seq 0 N))
    with (map p (seq 0 N)).
  assert (Htrapz :
    np_trapz (mask_index (map (spec_psd x fs) (seq 0 N)) (map p (seq 0 N)))
             (mask_index (map (spec_freq (length x) fs) (seq 0 N)) (map p (seq 0 N)))
    = spec_band_power x fs f_lo f_hi).
  { rewrite !mask_index_map, np_trapz_map, pair_sum_filter_seq.
    - subst N. replace (length x / 2 + 1 - 1)%nat with (length x / 2)%nat by lia.
      rewrite np_sum_map_seq. unfold spec_band_power. apply big_sum_ext.
      intros j _. subst p. cbv beta. now rewrite !in_band_spec.
    - intros i j k Hijk. subst p. cbv beta. rewrite !in_band_spec.
      now apply spec_inside_convex. }
  destruct (np_any (map p (seq 0 N))) eqn:Hany; cbn [negb].
  - now rewrite Htrapz.
  - rewrite <- Htrapz, !mask_index_map, (np_any_map p _ Hany). reflexivity.
Qed.

Lemma band_loop_spec (win : ndarray) (fs : R) (cs : list nat) (t0 a0 b0 : R) :
  0 < fs ->
  band_loop win fs cs (t0, a0, b0)
  = Ok (t0 + np_sum (map (fun c => spec_band_power (column win c) fs 4 7) cs),
        a0 + np_sum (map (fun c => spec_band_power (column win c) fs 7 11) cs),
        b0 + np_sum (map (fun c => spec_band_power (column win c) fs 11 20) cs)).
Proof.
  intros Hfs. revert t0 a0 b0.
  induction cs as [| c cs IH]; intros t0 a0 b0.
  - cbn. do 2 f_equal; [f_equal |]; lra.
  - cbn [band_loop BAND_theta BAND_alpha BAND_beta fst snd].
    rewrite !bandpower_spec by assumption. cbn [bind]. rewrite IH.
    cbn [map np_sum fold_right]. do 2 f_equal; [f_equal |]; unfold np_sum; lra.
Qed.

(** A band that holds no bin has no power. *)
Lemma spec_band_power_empty (x : list R) (fs lo hi : R) :
  (forall j, (j <= length x / 2)%nat ->
             ~ (lo <= spec_freq (length x) fs j < hi)) ->
  spec_band_power x fs lo hi = 0.
Proof.
  intros Hout. unfold spec_band_power. apply big_sum_zero. intros j Hj.
  assert (Hin : spec_inside lo hi (spec_freq (length x) fs j) = false).
  { unfold spec_inside. specialize (Hout j ltac:(lia)).
    destruct (Rle_dec lo _); [destruct (Rlt_dec _ hi) |]; try reflexivity.
    exfalso. apply Hout. split; assumption. }
  now rewrite Hin.
Qed.

(** C1.  An empty window gives four zeros.  For a window of at least one
    sample and one channel and a positive rate, [engagement_from_window]
    returns without an exception; its three band powers are the channel
    averages of the worded estimate (mean removed, Hann window, discrete
    Fourier transform, [|spectrum|^2 / (sum window^2 * fs)], trapezoidal
    rule over the bins in [[lo, hi)]) for theta 4-7, alpha 7-11 and beta
    11-20 Hz, and [E] is [beta / (alpha + theta)] when [alpha + theta]
    exceeds [1e-12] and zero otherwise.  The power [bandpower_hann_rfft]
    gives for a channel is the worded one for every band, save on a
    signal of two samples for a band that starts at or below 0 Hz (there
    the window is zero and the code divides zero by zero); and it is zero
    whenever no bin lies in the band. *)
Theorem engagement_spec (win : ndarray) (fs : R) :
  (size win = 0%nat -> engagement_from_window win fs = Ok (0, 0, 0, 0))
  /\
  (0 < fs -> (0 < shape0 win)%nat -> (0 < shape1 win)%nat ->
   let theta := spec_band_average win fs 4 7 in
   let alpha := spec_band_average win fs 7 11 in
   let beta := spec_band_average win fs 11 20 in
   exists E,
     engagement_from_window win fs = Ok (E, alpha, theta, beta) /\
     (1 / 10 ^ 12 < alpha + theta -> E = beta / (alpha + theta)) /\
     (alpha + theta <= 1 / 10 ^ 12 -> E = 0))
  /\
  (0 < fs ->
   forall x lo hi,
     (length x <> 2%nat \/ 0 < lo ->
      bandpower_hann_rfft x fs lo hi = Ok (spec_band_power x fs lo hi)) /\
     ((forall j, (j <= length x / 2)%nat ->
                 ~ (lo <= spec_freq (length x) fs j < hi)) ->
      bandpower_hann_rfft x fs lo hi = Ok 0)).
Proof.
  split; [| split].
  - intros Hsz. unfold engagement_from_window. now rewrite Hsz.
  - intros Hfs Hrows Hcols theta alpha beta. unfold engagement_from_window.
    destruct (Nat.eqb_spec (size win) 0) as [Hz | Hnz];
      [unfold size in Hz; nia |].
    rewrite band_loop_spec by assumption. cbn [bind].
    rewrite !np_sum_map_seq, !Rplus_0_l.
    assert (HC : INR (shape1 win) <> 0) by (apply not_0_INR; lia).
    rewrite !py_div_ok by assumption. cbn [bind].
    fold (spec_band_average win fs 4 7). fold (spec_band_average win fs 7 11).
    fold (spec_band_average win fs 11 20). fold theta. fold alpha. fold beta.
    assert (Heps : 0 < 1 / 10 ^ 12)
      by (apply Rdiv_lt_0_compat; [lra | apply pow_lt; lra]).
    case_Rltb (1 / 10 ^ 12) (alpha + theta).
    + rewrite py_div_ok by lra. cbn [bind]. eexists. split; [reflexivity |].
      split; [reflexivity | lra].
    + cbn [bind]. eexists. split; [reflexivity |].
      split; [lra | reflexivity].
  - intros Hfs x lo hi. split; [intros _; now apply bandpower_spec |].
    intros Hout. rewrite bandpower_spec by assumption.
    now rewrite spec_band_power_empty.
Qed.

(* --------------------------------------------------------------------- *)
(** ** Where the density divides by zero                                   *)
(* --------------------------------------------------------------------- *)

Lemma big_sum_nonneg_term (f : nat -> R) (n k : nat) :
  (forall j, 0 <= f j) -> (k < n)%nat -> f k <= big_sum f n.
Proof.
  intros Hf. induction n as [| n IH]; intros Hk; [lia |].
  assert (Hsum : forall m, 0 <= big_sum f m).
  { induction m as [| m IHm]; cbn; [lra |]. specialize (Hf m). lra. }
  cbn. destruct (Nat.eq_dec k n) as [-> | Hne].
  - specialize (Hsum n). lra.
  - specialize (IH ltac:(lia)). specialize (Hf n). lra.
Qed.

(** The window has energy, so the density is a true quotient, for every
    length but two, where [np.hanning] is [[0, 0]]. *)
Lemma hann_energy_pos (n : nat) :
  n <> 0%nat -> n <> 2%nat ->
  0 < big_sum (fun k => spec_hann n k ^ 2) n.
Proof.
  intros H0 H2.
  destruct n as [| [| [| n]]]; try contradiction.
  - cbn. lra.
  - set (m := S (S (S n))).
    apply Rlt_le_trans with (r2 := spec_hann m 1 ^ 2).
    + unfold spec_hann. replace (Nat.eqb m 1) with false by reflexivity.
      assert (Hm : 2 <= INR m - 1).
      { subst m. rewrite !S_INR. pose proof (pos_INR n). lra. }
      assert (Hcos : cos (2 * PI * INR 1 / (INR m - 1)) < 1).
      { pose proof PI_RGT_0 as Hpi.
        set (d := INR m - 1) in *.
        assert (Hy : 2 * PI * INR 1 / d = PI * (2 / d)) by (cbn; field; lra).
        assert (Hfrac : 0 < 2 / d <= 1).
        { split; [apply Rdiv_lt_0_compat; lra |].
          apply Rmult_le_reg_r with (r := d); [lra |].
          unfold Rdiv. rewrite Rmult_assoc, Rinv_l by lra. lra. }
        rewrite Hy.
        assert (Hdec : cos (PI * (2 / d)) < cos 0)
          by (apply cos_decreasing_1; nra).
        now rewrite cos_0 in Hdec. }
      apply pow_lt. lra.
    + apply (big_sum_nonneg_term (fun k => spec_hann m k ^ 2)).
      * intros j. apply pow2_ge_0.
      * subst m. lia.
Qed.

(** A window of two samples has the bins [0] and [fs / 2] only: a band
    that starts above zero holds at most one of them and has no power. *)
Lemma two_sample_band_power (x : list R) (fs lo hi : R) :
  0 < lo -> length x = 2%nat -> spec_band_power x fs lo hi = 0.
Proof.
  intros Hlo Hlen. unfold spec_band_power. rewrite Hlen.
  change (2 / 2)%nat with 1%nat. cbn [big_sum].
  assert (Hout : spec_inside lo hi (spec_freq 2 fs 0) = false).
  { unfold spec_inside, spec_freq. cbn [INR].
    match goal with |- context [Rle_dec ?a ?b] => destruct (Rle_dec a b) end;
      [lra | reflexivity]. }
  rewrite Hout. cbn [andb]. lra.
Qed.

(* --------------------------------------------------------------------- *)
(** ** A window with power in every band                                   *)
(* --------------------------------------------------------------------- *)

Ltac inr_num :=
  rewrite ?INR_IZR_INZ;
  repeat match goal with
         | |- context [Z.of_nat ?n] =>
             let z := eval vm_compute in (Z.of_nat n) in
             change (Z.of_nat n) with z
         end.

Ltac decide_inside :=
  unfold spec_inside;
  repeat match goal with
         | |- context [Rle_dec ?a ?b] => destruct (Rle_dec a b); try lra
         | |- context [Rlt_dec ?a ?b] => destruct (Rlt_dec a b); try lra
         end.

Lemma big_sum_single (f : nat -> R) (n m : nat) :
  (m < n)%nat -> (forall k, (k < n)%nat -> k <> m -> f k = 0) ->
  big_sum f n = f m.
Proof.
  induction n as [| n IH]; intros Hm Hz; [lia |].
  cbn [big_sum]. destruct (Nat.eq_dec m n) as [-> | Hne].
  - rewrite big_sum_zero; [lra |]. intros k Hk. apply Hz; lia.
  - rewrite IH by (try lia; intros k Hk Hkm; apply Hz; lia).
    rewrite (Hz n) by lia. lra.
Qed.

Lemma big_sum_le_const (f : nat -> R) (n : nat) (c : R) :
  (forall k, (k < n)%nat -> f k <= c) -> big_sum f n <= INR n * c.
Proof.
  induction n as [| n IH]; intros Hf; [cbn; lra |].
  rewrite S_INR. cbn [big_sum].
  specialize (Hf n ltac:(lia)) as Hn.
  assert (big_sum f n <= INR n * c) by (apply IH; intros k Hk; apply Hf; lia).
  lra.
Qed.

Lemma spec_hann_range (n k : nat) : 0 <= spec_hann n k <= 1.
Proof.
  unfold spec_hann. destruct (Nat.eqb n 1); [lra |].
  pose proof (COS_bound (2 * PI * INR k / (INR n - 1))). lra.
Qed.

(** A signal that the window leaves with one sample only has the same
    density at every bin: the square of that sample over the energy of
    the window and the rate. *)
Lemma impulse_psd (x : list R) (fs : R) (m j : nat) :
  (m < length x)%nat ->
  (forall k, (k < length x)%nat -> k <> m -> spec_windowed x k = 0) ->
  spec_psd x fs j
  = spec_windowed x m ^ 2
    / (big_sum (fun k => spec_hann (length x) k ^ 2) (length x) * fs).
Proof.
  intros Hm Hz. unfold spec_psd, spec_dft_re, spec_dft_im.
  rewrite (big_sum_single _ (length x) m Hm)
    by (intros k Hk Hkm; rewrite Hz by assumption; ring).
  rewrite (big_sum_single _ (length x) m Hm)
    by (intros k Hk Hkm; rewrite Hz by assumption; ring).
  set (th := 2 * PI * INR m * INR j / INR (length x)).
  pose proof (sin2_cos2 th) as Hsc. unfold Rsqr in Hsc.
  f_equal.
  replace ((spec_windowed x m * cos th) ^ 2 + (- (spec_windowed x m * sin th)) ^ 2)
    with (spec_windowed x m ^ 2 * (sin th * sin th + cos th * cos th)) by ring.
  rewrite Hsc. ring.
Qed.

Lemma impulse19_mean : spec_mean impulse19 = 0.
Proof.
  unfold spec_mean. cbn [length impulse19 big_sum nth].
  unfold Rdiv.
  match goal with |- ?a * _ = 0 => replace a with 0 by lra end. ring.
Qed.

Lemma hann19_first : spec_hann 19 0 = 0.
Proof.
  unfold spec_hann. cbn [Nat.eqb INR].
  replace (2 * PI * 0 / _) with 0 by (unfold Rdiv; ring).
  rewrite cos_0. lra.
Qed.

Lemma hann19_middle : spec_hann 19 9 = 1.
Proof.
  unfold spec_hann. cbn [Nat.eqb]. inr_num.
  replace (2 * PI * 9 / (19 - 1)) with PI by field.
  rewrite cos_PI. lra.
Qed.

Lemma impulse19_windowed (k : nat) :
  (k < 19)%nat -> spec_windowed impulse19 k = if Nat.eqb k 9 then 1 else 0.
Proof.
  intros Hk. unfold spec_windowed. rewrite impulse19_mean.
  change (length impulse19) with 19%nat.
  do 19 (destruct k as [| k];
         [first [ rewrite hann19_first | rewrite hann19_middle | idtac ];
          cbn [nth impulse19 Nat.eqb]; ring |]).
  lia.
Qed.

Lemma impulse_density_bounds : 1 / 722 <= impulse_density.
Proof.
  unfold impulse_density.
  set (W := big_sum (fun k => spec_hann 19 k ^ 2) 19).
  assert (HW : 0 < W) by (apply hann_energy_pos; lia).
  assert (HW' : W <= 19).
  { replace 19 with (INR 19 * 1) by (inr_num; lra).
    apply big_sum_le_const. intros k _.
    pose proof (spec_hann_range 19 k). nra. }
  unfold Rdiv. rewrite !Rmult_1_l.
  apply Rinv_le_contravar; nra.
Qed.

Lemma impulse19_psd (j : nat) : spec_psd impulse19 38 j = impulse_density.
Proof.
  rewrite (impulse_psd impulse19 38 9 j).
  - rewrite impulse19_windowed by lia. cbn [Nat.eqb]. unfold impulse_density.
    change (length impulse19) with 19%nat. f_equal. ring.
  - cbn. lia.
  - intros k Hk Hk9. rewrite impulse19_windowed by exact Hk.
    destruct (Nat.eqb_spec k 9); [contradiction | reflexivity].
Qed.

Lemma impulse19_freq (j : nat) : spec_freq 19 38 j = 2 * INR j.
Proof. unfold spec_freq. inr_num. field. Qed.

Lemma impulse19_band (lo hi : R) :
  spec_band_power impulse19 38 lo hi
  = big_sum (fun j =>
               if spec_inside lo hi (2 * INR j)
                  && spec_inside lo hi (2 * INR (S j))
               then 2 * impulse_density else 0) 9.
Proof.
  unfold spec_band_power. change (length impulse19 / 2)%nat with 9%nat.
  change (length impulse19) with 19%nat.
  apply big_sum_ext. intros j _.
  rewrite !impulse19_psd, !impulse19_freq.
  destruct (_ && _); [| reflexivity].
  rewrite S_INR. lra.
Qed.

(** Theta holds the bins at 4 and 6 Hz, alpha those at 8 and 10 Hz, beta
    those at 12, 14, 16 and 18 Hz: one, one and three trapezoids. *)
Lemma impulse19_bands :
  spec_band_power impulse19 38 4 7 = 2 * impulse_density /\
  spec_band_power impulse19 38 7 11 = 2 * impulse_density /\
  spec_band_power impulse19 38 11 20 = 6 * impulse_density.
Proof.
  rewrite !impulse19_band. cbn [big_sum]. inr_num.
  repeat split; decide_inside; cbn [andb]; lra.
Qed.

Lemma impulse_window_average (lo hi : R) :
  spec_band_average impulse_window 38 lo hi
  = spec_band_power impulse19 38 lo hi.
Proof.
  unfold spec_band_average. change (shape1 impulse_window) with 1%nat.
  cbn [big_sum INR]. change (column impulse_window 0) with impulse19.
  field.
Qed.

Lemma threshold_small : 1 / 10 ^ 12 < 1 / 722.
Proof.
  assert (H : 722 < 10 ^ 12) by (cbn [pow]; lra).
  assert (0 < 10 ^ 12) by lra.
  unfold Rdiv. rewrite !Rmult_1_l. apply Rinv_lt_contravar; nra.
Qed.

(** The window with power at 38 Hz: theta, alpha and beta are 2, 2 and 6
    times the density of the signal, which is positive, and [E] is 3/2;
    the power of theta on the channel is the one [bandpower_hann_rfft]
    returns.  A window of one sample on one channel at 125 Hz resolves no
    band: the three powers and [E] are zero; the empty array gives zeros
    as well. *)
Lemma engagement_spec_witness :
  (1 / 722 <= impulse_density /\
   engagement_from_window impulse_window 38
   = Ok (3 / 2, 2 * impulse_density, 2 * impulse_density, 6 * impulse_density)
   /\ bandpower_hann_rfft impulse19 38 4 7 = Ok (2 * impulse_density))
  /\ engagement_from_window (mkArr 1 [[1]]) 125 = Ok (0, 0, 0, 0)
  /\ engagement_from_window np_empty00 125 = Ok (0, 0, 0, 0).
Proof.
  pose proof impulse_density_bounds as Hp.
  pose proof threshold_small as Heps.
  destruct impulse19_bands as (Ht & Ha & Hb).
  split; [| split].
  - destruct (engagement_spec impulse_window 38) as (_ & Hfull & Hband).
    destruct Hfull as (E & Hcall & Hratio & _);
      [lra | cbn; lia | cbn; lia |].
    rewrite !impulse_window_average, Ht, Ha, Hb in Hcall, Hratio.
    split; [exact Hp |]. split.
    + rewrite Hcall, Hratio by lra. do 4 f_equal. field. lra.
    + destruct (Hband ltac:(lra) impulse19 4 7) as [Hpow _].
      rewrite Hpow by (right; lra). now rewrite Ht.
  - destruct (engagement_spec (mkArr 1 [[1]]) 125) as (_ & Hfull & _).
    destruct Hfull as (E & Hcall & _ & Hzero);
      [lra | cbn; lia | cbn; lia |].
    assert (Hband : forall lo hi, spec_band_average (mkArr 1 [[1]]) 125 lo hi = 0).
    { intros lo hi. unfold spec_band_average, spec_band_power. cbn. lra. }
    rewrite (Hband 4 7), (Hband 7 11), (Hband 11 20) in Hcall.
    rewrite (Hband 4 7), (Hband 7 11) in Hzero.
    rewrite Hcall, Hzero; [reflexivity |].
    assert (0 < 1 / 10 ^ 12)
      by (apply Rdiv_lt_0_compat; [lra | apply pow_lt; lra]).
    lra.
  - destruct (engagement_spec np_empty00 125) as (Hempty & _).
    apply Hempty. reflexivity.
Defined.

(* ===================================================================== *)
(** * Further properties of the code                                      *)
(* ===================================================================== *)

(* --------------------------------------------------------------------- *)
(** ** The buffer over a whole stream                                      *)
(* --------------------------------------------------------------------- *)

Lemma most_recent_is_suffix {A : Type} (bound : Z) (all : list A) :
  exists older, all = older ++ most_recent bound all.
Proof.
  exists (firstn (length all - Z.to_nat bound) all).
  symmetry. apply firstn_skipn.
Qed.

Lemma most_recent_length {A : Type} (bound : Z) (all : list A) :
  (0 <= bound)%Z ->
  Z.of_nat (length (most_recent bound all))
  = Z.min bound (Z.of_nat (length all)).
Proof. intros Hb. unfold most_recent. rewrite length_skipn. lia. Qed.

(** The last [bound] elements of a list are those of any long enough
    suffix of it. *)
Lemma most_recent_of_suffix {A : Type} (bound : Z) (older recent : list A) :
  (0 <= bound <= Z.of_nat (length recent))%Z ->
  most_recent bound (older ++ recent) = most_recent bound recent.
Proof.
  intros Hb. unfold most_recent. rewrite length_app.
  replace (length older + length recent - Z.to_nat bound)%nat
    with (length older + (length recent - Z.to_nat bound))%nat by lia.
  rewrite skipn_app, skipn_all2 by lia.
  replace (length older + (length recent - Z.to_nat bound) - length older)%nat
    with (length recent - Z.to_nat bound)%nat by lia.
  reflexivity.
Qed.

Lemma buffer_append_inv
  (win_len fs : Z) (C : nat) (stream : list (list R)) (b X : ndarray) :
  (0 < win_len)%Z -> (0 < C)%nat -> ncols X = C -> (0 < shape0 X)%nat ->
  buffer_inv win_len fs C stream b ->
  exists b1,
    buffer_append win_len fs b X = Ok b1 /\
    buffer_inv win_len fs C (stream ++ rows X) b1.
Proof.
  intros Hw HC HX Hn (Hsuf & Hfull & Hbound & Hcols).
  assert (Hne : stream ++ rows X <> []).
  { unfold shape0 in Hn. destruct (rows X); [cbn in Hn; lia |].
    intros Heq. apply app_eq_nil in Heq as [_ Heq]. discriminate. }
  destruct stream as [| r0 stream'].
  - (* the first block *)
    destruct Hsuf as [older Hsuf].
    symmetry in Hsuf. apply app_eq_nil in Hsuf as [_ Hrows].
    assert (Hsz : size b = 0%nat) by (unfold size, shape0; now rewrite Hrows).
    eexists. split; [now apply buffer_append_first |].
    unfold buffer_inv, shape0 in *. cbn [rows ncols app].
    split; [apply most_recent_is_suffix |].
    pose proof (most_recent_length win_len (rows X) ltac:(lia)) as Hlen.
    split; [lia |]. split; [lia |]. intros _. exact HX.
  - (* a later block *)
    set (stream := r0 :: stream') in *.
    assert (Hcb : ncols b = C) by (apply Hcols; discriminate).
    assert (Hsz : size b <> 0%nat).
    { unfold size, shape1. rewrite Hcb. unfold shape0 in *.
      assert (1 <= Z.of_nat (length stream))%Z by (subst stream; cbn; lia).
      nia. }
    eexists. split; [apply buffer_append_later; congruence |].
    unfold buffer_inv, shape0 in *. cbn [rows ncols].
    set (keep := Z.max (win_len * 2) (win_len + fs)) in *.
    pose proof (most_recent_length keep (rows b ++ rows X) ltac:(lia)) as Hlen.
    rewrite length_app in Hlen.
    split.
    { destruct Hsuf as [older Hsuf].
      destruct (most_recent_is_suffix keep (rows b ++ rows X)) as [older2 Hsuf2].
      exists (older ++ older2).
      rewrite Hsuf, <- !app_assoc. f_equal. exact Hsuf2. }
    rewrite length_app. split; [lia |]. split; [lia |].
    intros _. exact Hcb.
Qed.

Lemma buffer_feed_inv
  (win_len fs : Z) (C : nat) (blocks : list ndarray)
  (stream : list (list R)) (b : ndarray) :
  (0 < win_len)%Z -> (0 < C)%nat ->
  Forall (fun X => shape0 X = 0%nat \/ ncols X = C) blocks ->
  buffer_inv win_len fs C stream b ->
  exists b1,
    buffer_feed win_len fs b blocks = Ok b1 /\
    buffer_inv win_len fs C (stream ++ stream_of blocks) b1.
Proof.
  intros Hw HC Hblocks. revert stream b.
  induction Hblocks as [| X rest HX _ IH]; intros stream b Hinv.
  - exists b. unfold stream_of. cbn. now rewrite app_nil_r.
  - cbn [buffer_feed]. unfold stream_of. cbn [map concat].
    fold (stream_of rest). rewrite app_assoc.
    destruct (Nat.ltb_spec 0 (shape0 X)) as [Hn | Hn].
    + destruct HX as [H0 | HcX]; [lia |].
      destruct (buffer_append_inv win_len fs C stream b X Hw HC HcX Hn Hinv)
        as (b1 & -> & Hinv1).
      cbn [bind]. now apply IH.
    + cbn [bind].
      assert (Hrows : rows X = []).
      { unfold shape0 in Hn. destruct (rows X); [reflexivity | cbn in Hn; lia]. }
      rewrite Hrows, app_nil_r. now apply IH.
Qed.

Lemma buffer_inv_empty (win_len fs : Z) (C : nat) :
  (0 < win_len)%Z -> buffer_inv win_len fs C [] np_empty00.
Proof.
  intros Hw. unfold buffer_inv, np_empty00, shape0. cbn.
  split; [now exists [] |]. split; [lia |]. split; [lia |]. congruence.
Qed.

(** X1.  Whatever blocks the pulls deliver (empty ones and blocks of one
    common channel count), the buffer is always the tail of the stream of
    samples, in order; and once the stream holds a window's worth of
    samples, the window the gate cuts out of the buffer is exactly the
    most recent [win_len] samples of the whole stream. *)
Theorem window_is_most_recent
  (win_len fs : Z) (C : nat) (blocks : list ndarray) :
  (0 < win_len)%Z -> (0 < C)%nat ->
  Forall (fun X => shape0 X = 0%nat \/ ncols X = C) blocks ->
  exists b,
    buffer_feed win_len fs np_empty00 blocks = Ok b /\
    (exists older, stream_of blocks = older ++ rows b) /\
    ((win_len <= Z.of_nat (length (stream_of blocks)))%Z ->
     (win_len <= Z.of_nat (shape0 b))%Z /\
     (0 < shape1 b)%nat /\
     rows (last_rows win_len b) = most_recent win_len (stream_of blocks)).
Proof.
  intros Hw HC Hblocks.
  destruct (buffer_feed_inv win_len fs C blocks [] np_empty00 Hw HC Hblocks
              (buffer_inv_empty win_len fs C Hw))
    as (b & Hfeed & Hsuf & Hfull & _ & Hcols).
  cbn [app] in *. exists b. split; [exact Hfeed |]. split; [exact Hsuf |].
  intros Hlong.
  assert (Hwin : (win_len <= Z.of_nat (shape0 b))%Z) by lia.
  split; [exact Hwin |]. split.
  - unfold shape1. rewrite Hcols; [exact HC |].
    intros Hnil. rewrite Hnil in Hlong. cbn in Hlong. lia.
  - unfold last_rows. cbn [rows]. rewrite slice_from_neg by assumption.
    destruct Hsuf as [older ->]. symmetry.
    apply most_recent_of_suffix. unfold shape0 in Hwin. lia.
Qed.

(** X2.  Over any stream the buffer never holds more than
    [max(2 * win_len, win_len + fs)] samples, and never fewer than a full
    window once the stream has delivered one. *)
Theorem buffer_size_bounds
  (win_len fs : Z) (C : nat) (blocks : list ndarray) :
  (0 < win_len)%Z -> (0 < C)%nat ->
  Forall (fun X => shape0 X = 0%nat \/ ncols X = C) blocks ->
  exists b,
    buffer_feed win_len fs np_empty00 blocks = Ok b /\
    (Z.of_nat (shape0 b) <= Z.max (win_len * 2) (win_len + fs))%Z /\
    (Z.min win_len (Z.of_nat (length (stream_of blocks)))
     <= Z.of_nat (shape0 b))%Z.
Proof.
  intros Hw HC Hblocks.
  destruct (buffer_feed_inv win_len fs C blocks [] np_empty00 Hw HC Hblocks
              (buffer_inv_empty win_len fs C Hw))
    as (b & Hfeed & _ & Hfull & Hbound & _).
  exists b. cbn [app] in *. auto.
Qed.

(** Three samples, an empty poll, three more samples, at 2 Hz. *)
Lemma window_is_most_recent_witness :
  exists b,
    buffer_feed 2 2 np_empty00 [first_block3; np_empty00; first_block3] = Ok b /\
    rows (last_rows 2 b) = [[2]; [3]].
Proof.
  destruct (window_is_most_recent 2 2 1
              [first_block3; np_empty00; first_block3])
    as (b & Hfeed & _ & Hwin).
  - lia.
  - lia.
  - repeat constructor; (now right) || (now left).
  - exists b. split; [exact Hfeed |].
    destruct Hwin as (_ & _ & Hrows); [cbn; lia |]. exact Hrows.
Defined.

Lemma buffer_size_bounds_witness :
  exists b,
    buffer_feed 2 2 np_empty00 [first_block3; np_empty00; first_block3] = Ok b /\
    (2 <= Z.of_nat (shape0 b) <= 4)%Z.
Proof.
  destruct (buffer_size_bounds 2 2 1
              [first_block3; np_empty00; first_block3])
    as (b & Hfeed & Hhi & Hlo).
  - lia.
  - lia.
  - repeat constructor; (now right) || (now left).
  - exists b. split; [exact Hfeed |]. cbn in Hhi, Hlo. lia.
Defined.

(* --------------------------------------------------------------------- *)
(** ** More on the normaliser                                              *)
(* --------------------------------------------------------------------- *)

Lemma observe_all_nil_or_extrema (obs : list R) :
  (obs = [] /\ observe_all obs = NormState_init) \/
  exists lo hi,
    observe_all obs = mkNorm (Fin lo) (Fin hi) /\
    In lo obs /\ In hi obs /\ Forall (fun E => lo <= E <= hi) obs.
Proof.
  destruct obs as [| E obs]; [left; split; reflexivity |].
  right. apply observe_all_extrema. discriminate.
Qed.

(** X3.  The bounds do not depend on the order in which the values were
    observed. *)
Theorem observe_order_irrelevant (obs obs' : list R) :
  Permutation obs obs' -> observe_all obs = observe_all obs'.
Proof.
  intros Hperm.
  destruct (observe_all_nil_or_extrema obs) as [[-> ->] | (lo & hi & -> & Hlo & Hhi & Hall)].
  - apply Permutation_nil in Hperm. now subst.
  - destruct (observe_all_nil_or_extrema obs')
      as [[-> _] | (lo' & hi' & -> & Hlo' & Hhi' & Hall')].
    + apply Permutation_sym, Permutation_nil in Hperm. subst. destruct Hlo.
    + rewrite List.Forall_forall in Hall, Hall'.
      pose proof (Hall lo' (Permutation_in _ (Permutation_sym Hperm) Hlo')).
      pose proof (Hall hi' (Permutation_in _ (Permutation_sym Hperm) Hhi')).
      pose proof (Hall' lo (Permutation_in _ Hperm Hlo)).
      pose proof (Hall' hi (Permutation_in _ Hperm Hhi)).
      assert (lo = lo') by lra. assert (hi = hi') by lra. now subst.
Qed.

Lemma observe_order_irrelevant_witness :
  observe_all [3; 1; 2] = observe_all [1; 2; 3].
Proof.
  apply observe_order_irrelevant.
  apply perm_trans with (l' := [1; 3; 2]); [apply perm_swap |].
  apply perm_skip, perm_swap.
Defined.

(** X4.  A raw value that is NaN moves neither bound; its normalised value
    is 1 when [Emax > Emin], because [min(1.0, nan)] is [1.0], and one
    half otherwise. *)
Theorem nan_is_not_observed (s : NormState) :
  update s FNaN = s /\
  normalize s FNaN
  = Ok (Fin (if fgt (Emax s) (Emin s) then 1 else 1 / 2)).
Proof.
  split.
  - destruct s as [lo hi]. unfold update, fgt. cbn. destruct hi; reflexivity.
  - destruct (fgt (Emax s) (Emin s)) eqn:Hgt.
    + unfold normalize. rewrite Hgt.
      destruct (normalize_divides s FNaN Hgt) as [q Hq].
      assert (Hnan : q = FNaN).
      { cbn [fsub] in Hq. unfold fdiv in Hq.
        destruct (fsub (Emax s) (Emin s)) as [| | y |]; try congruence.
        destruct (Reqb y 0); congruence. }
      rewrite Hq, Hnan. cbn [bind].
      unfold py_max, py_min, fgt. cbn [flt].
      case_Rltb 0 1; [reflexivity | lra].
    + now apply normalize_midpoint.
Qed.

(** In the loop the value is normalised right after it was observed, so
    it lies between the bounds and the clamp changes nothing. *)
Lemma normalize_after_update (s : NormState) (E : R) :
  norm_regular s ->
  exists lo hi,
    update s (Fin E) = mkNorm (Fin lo) (Fin hi) /\ lo <= E <= hi /\
    ((lo < hi /\
      normalize (update s (Fin E)) (Fin E) = Ok (Fin ((E - lo) / (hi - lo))) /\
      0 <= (E - lo) / (hi - lo) <= 1)
     \/
     (lo = hi /\ normalize (update s (Fin E)) (Fin E) = Ok (Fin (1 / 2)))).
Proof.
  intros Hreg.
  destruct (update_regular s E Hreg) as (lo & hi & Hupd & Hb).
  exists lo, hi. split; [exact Hupd |]. split; [exact Hb |]. rewrite Hupd.
  destruct (Rle_lt_or_eq_dec lo hi ltac:(lra)) as [Hlt | Heq].
  - left. split; [exact Hlt |].
    assert (Hq : 0 <= (E - lo) / (hi - lo) <= 1).
    { split.
      - apply Rmult_le_pos; [lra |]. left. apply Rinv_0_lt_compat. lra.
      - apply Rmult_le_reg_r with (r := hi - lo); [lra |].
        unfold Rdiv. rewrite Rmult_assoc, Rinv_l by lra. lra. }
    split; [| exact Hq].
    rewrite normalize_finite by assumption. do 2 f_equal.
    rewrite Rmin_right by lra. apply Rmax_right. lra.
  - right. split; [exact Heq |]. subst hi.
    apply normalize_midpoint. unfold fgt. cbn. apply Rltb_false. lra.
Qed.

(* --------------------------------------------------------------------- *)
(** ** What the bridge keeps true over a run                               *)
(* --------------------------------------------------------------------- *)

(** A property of the start that every step keeps holds of every run. *)
Lemma sys_run_invariant
  (send_raises close_raises : nat -> bool) (fs win_len : Z) (t0 : R)
  (I : system -> Prop) (evs : list event) :
  I (system_init t0) ->
  (forall s ev, I s -> I (sys_step send_raises close_raises fs win_len s ev)) ->
  I (sys_run send_raises close_raises fs win_len t0 evs).
Proof.
  intros Hinit Hstep. unfold sys_run.
  generalize dependent (system_init t0).
  induction evs as [| ev evs IH]; intros s Hs; cbn; [exact Hs |].
  apply IH, Hstep, Hs.
Qed.

(** What a pass of the gate does to the shared state and what it sends. *)
Lemma gate_step_packet
  (fs win_len : Z) (b : Bridge) (l : Loop) (wall_ms : Z) (g : gate_out) :
  norm_regular (norm b) ->
  gate_step fs win_len b l wall_ms = Ok g ->
  mode (g_bridge g) = mode b /\
  clients (g_bridge g) = clients b /\
  forall m, g_sent g = Some m -> packet_consistent m /\ packet_mode m = mode b.
Proof.
  intros Hreg. unfold gate_step.
  destruct (_ && _ && _).
  2:{ intros [= <-]. cbn. repeat split; discriminate. }
  destruct (engagement_from_window _ _) as [[[[E a] t] bt] | e]; cbn [bind];
    [| discriminate].
  destruct (normalize_after_update (norm b) E Hreg)
    as (lo & hi & Hupd & Hb & Hnorm).
  rewrite Hupd in *.
  assert (Hn : exists r,
             normalize (mkNorm (Fin lo) (Fin hi)) (Fin E) = Ok (Fin r) /\
             0 <= r <= 1 /\
             ((lo < hi /\ r = (E - lo) / (hi - lo)) \/ (lo = hi /\ r = 1 / 2))).
  { destruct Hnorm as [(Hlt & Hn & Hq) | (Heq & Hn)].
    - eexists. split; [exact Hn |]. split; [exact Hq |]. left. now split.
    - eexists. split; [exact Hn |]. split; [lra |]. right. now split. }
  destruct Hn as (r & -> & Hr & Hcases). cbn [bind].
  destruct (py_floordiv _ _) as [sec | e]; cbn [bind]; [| discriminate].
  intros [= <-]. cbn [g_bridge g_sent mode clients].
  split; [reflexivity |]. split; [reflexivity |].
  intros m. destruct (negb _); [| discriminate].
  intros [= <-]. cbn. split; [| reflexivity].
  exists E, r, lo, hi. repeat split; first [lra | exact Hcases].
Qed.

(** What a control message does to the shared state and what it sends. *)
Lemma on_message_protocol (b b1 : Bridge) (loaded : res json) (out : list message) :
  valid_mode (mode b) ->
  on_message b loaded = Ok (b1, out) ->
  valid_mode (mode b1) /\
  Forall (fun m => packet_consistent m /\ valid_mode (packet_mode m)) out.
Proof.
  intros Hmode. unfold on_message.
  destruct loaded as [payload | []]; try discriminate.
  2:{ intros [= <- <-]. split; [exact Hmode | constructor]. }
  destruct (py_get payload "type" JNull) as [kind | e]; cbn [bind];
    [| discriminate].
  destruct (json_is_str kind "subscribe").
  { intros [= <- <-]. split; [exact Hmode | constructor]. }
  assert (Hset :
    forall r1,
      (if json_is_str kind "set_mode"
       then let* m := py_get payload "mode" JNull in
            match m with
            | JStr ms =>
                if String.eqb ms "normal" || String.eqb ms "relax"
                   || String.eqb ms "mental"
                then Ok (mkBridge (clients b) ms (norm b), [MsgCalibration ms None])
                else Ok (b, [])
            | _ => Ok (b, [])
            end
       else Ok (b, [])) = Ok r1 ->
      valid_mode (mode (fst r1)) /\
      Forall (fun m => packet_consistent m /\ valid_mode (packet_mode m)) (snd r1)).
  { intros r1. destruct (json_is_str kind "set_mode").
    - destruct (py_get payload "mode" JNull) as [m | e]; cbn [bind];
        [| discriminate].
      destruct m as [| | | | ms | |];
        try (intros [= <-]; cbn; split; [exact Hmode | constructor]).
      destruct (String.eqb_spec ms "normal") as [-> | _]; cbn [orb].
      { intros [= <-]. cbn. unfold valid_mode.
        split; [tauto |]. constructor; [| constructor]. cbn. tauto. }
      destruct (String.eqb_spec ms "relax") as [-> | _]; cbn [orb].
      { intros [= <-]. cbn. unfold valid_mode.
        split; [tauto |]. constructor; [| constructor]. cbn. tauto. }
      destruct (String.eqb_spec ms "mental") as [-> | _]; cbn [orb].
      { intros [= <-]. cbn. unfold valid_mode.
        split; [tauto |]. constructor; [| constructor]. cbn. tauto. }
      intros [= <-]. cbn. split; [exact Hmode | constructor].
    - intros [= <-]. cbn. split; [exact Hmode | constructor]. }
  destruct (if json_is_str kind "set_mode" then _ else _) as [[b' out1] | e];
    cbn [bind]; [| discriminate].
  destruct (Hset (b', out1) eq_refl) as [Hm1 Hout]. cbn [fst snd] in *.
  destruct (json_is_str kind "reset_norm").
  - intros [= <- <-]. cbn [mode]. split; [exact Hm1 |].
    apply Forall_app. split; [exact Hout |].
    constructor; [| constructor]. cbn. split; [exact I | exact Hm1].
  - intros [= <- <-]. split; assumption.
Qed.

Lemma protocol_inv_step
  (send_raises close_raises : nat -> bool) (fs win_len : Z)
  (s : system) (ev : event) :
  protocol_inv s ->
  protocol_inv (sys_step send_raises close_raises fs win_len s ev).
Proof.
  intros (Hreg & Hmode & Hlog). unfold sys_step.
  destruct (sys_stopped s); [repeat split; assumption |].
  destruct ev as [now X wall_ms | ws | ws loaded | ws].
  - unfold iteration.
    destruct (pull_step fs win_len (sys_loop s) now X) as [l1 | e];
      cbn [bind]; [| repeat split; assumption].
    destruct (gate_step fs win_len (sys_bridge s) l1 wall_ms) as [g | e] eqn:Hg;
      [| repeat split; assumption].
    destruct (gate_step_regular _ _ _ _ _ g Hreg Hg) as [Hreg1 _].
    destruct (gate_step_packet _ _ _ _ _ g Hreg Hg) as (Hm1 & _ & Hsent).
    destruct (g_sent g) as [m |]; unfold protocol_inv; cbn;
      rewrite ?Hm1; repeat split; try assumption.
    apply Forall_app. split; [exact Hlog |].
    destruct (Hsent m eq_refl) as [Hc Hpm].
    constructor; [| constructor]. split; [exact Hc | now rewrite Hpm].
  - repeat split; assumption.
  - unfold handler_step.
    destruct (on_message (sys_bridge s) loaded) as [[b1 out] | e] eqn:Hmsg.
    + destruct (on_message_regular _ _ _ _ Hreg Hmsg) as [Hreg1 _].
      destruct (on_message_protocol _ _ _ _ Hmode Hmsg) as [Hm1 Hout].
      destruct out as [| m out]; [repeat split; assumption |].
      unfold protocol_inv. cbn [sys_bridge sys_log].
      destruct (broadcast_raises _ _ b1); cbn [norm mode after_broadcast];
        (split; [exact Hreg1 |]); (split; [exact Hm1 |]);
        apply Forall_app; split; assumption.
    + repeat split; assumption.
  - repeat split; assumption.
Qed.

Lemma protocol_inv_run
  (send_raises close_raises : nat -> bool) (fs win_len : Z) (t0 : R)
  (evs : list event) :
  protocol_inv (sys_run send_raises close_raises fs win_len t0 evs).
Proof.
  apply sys_run_invariant.
  - unfold protocol_inv. cbn. split; [left; reflexivity |].
    split; [left; reflexivity | constructor].
  - intros s ev. apply protocol_inv_step.
Qed.

(** A tick of the bridge is a pull followed by the pass of [gate_pass]:
    the await in it is the one [sys_step] accounts for. *)
Lemma sys_step_tick_pass
  (send_raises close_raises : nat -> bool) (fs win_len : Z)
  (s : system) (now : R) (X : ndarray) (wall_ms : Z) (l1 : Loop) :
  sys_stopped s = None ->
  pull_step fs win_len (sys_loop s) now X = Ok l1 ->
  match gate_pass send_raises close_raises fs win_len (sys_bridge s) l1 wall_ms with
  | Ok g =>
      sys_step send_raises close_raises fs win_len s (EvTick now X wall_ms)
      = mkSystem (g_bridge g) (g_loop g)
          (sys_log s ++ match g_sent g with Some m => [m] | None => [] end)
          None
  | Raise e =>
      sys_stopped
        (sys_step send_raises close_raises fs win_len s (EvTick now X wall_ms))
      = Some e
  end.
Proof.
  intros Hrun Hpull. unfold sys_step, gate_pass, iteration.
  rewrite Hrun, Hpull. cbn [bind].
  destruct (gate_step fs win_len (sys_bridge s) l1 wall_ms) as [g | e];
    cbn [bind]; [| reflexivity].
  destruct (g_sent g) as [m |] eqn:Hm.
  - destruct (broadcast_raises send_raises close_raises (g_bridge g));
      [reflexivity |]. cbn [g_bridge g_loop g_sent]. reflexivity.
  - rewrite Hm, app_nil_r. reflexivity.
Qed.

(** X5.  In every engagement packet a bridge broadcasts, [Enorm] lies in
    the unit interval and is the position of [E] between the packet's own
    [Emin] and [Emax], [(E - Emin) / (Emax - Emin)], or one half when the
    two bounds are equal: the clamp never alters a value that was just
    observed. *)
Theorem packets_are_consistent
  (send_raises close_raises : nat -> bool) (fs win_len : Z) (t0 : R)
  (evs : list event) :
  Forall packet_consistent
         (sys_log (sys_run send_raises close_raises fs win_len t0 evs)).
Proof.
  destruct (protocol_inv_run send_raises close_raises fs win_len t0 evs)
    as (_ & _ & Hlog).
  eapply List.Forall_impl; [| exact Hlog]. intros m [Hm _]. exact Hm.
Qed.

(** X6.  Whatever control messages arrive, the mode of a bridge is always
    one of [normal], [relax] and [mental], and so is the mode carried by
    every packet it broadcasts. *)
Theorem mode_is_always_valid
  (send_raises close_raises : nat -> bool) (fs win_len : Z) (t0 : R)
  (evs : list event) :
  let s := sys_run send_raises close_raises fs win_len t0 evs in
  valid_mode (mode (sys_bridge s)) /\
  Forall (fun m => valid_mode (packet_mode m)) (sys_log s).
Proof.
  destruct (protocol_inv_run send_raises close_raises fs win_len t0 evs)
    as (_ & Hmode & Hlog).
  split; [exact Hmode |].
  eapply List.Forall_impl; [| exact Hlog]. intros m [_ Hm]. exact Hm.
Qed.

(* --------------------------------------------------------------------- *)
(** ** The counters of the loop                                            *)
(* --------------------------------------------------------------------- *)

Lemma engagement_count_app (l1 l2 : list message) :
  engagement_count (l1 ++ l2) = (engagement_count l1 + engagement_count l2)%Z.
Proof.
  induction l1 as [| m l1 IH]; [reflexivity |].
  destruct m; cbn [app engagement_count]; rewrite IH; lia.
Qed.

(** Control messages are answered with calibration packets only. *)
Lemma on_message_no_engagement
  (b b1 : Bridge) (loaded : res json) (out : list message) :
  on_message b loaded = Ok (b1, out) -> engagement_count out = 0%Z.
Proof.
  unfold on_message.
  destruct loaded as [payload | []]; try discriminate.
  2:{ now intros [= <- <-]. }
  destruct (py_get payload "type" JNull) as [kind | e]; cbn [bind];
    [| discriminate].
  destruct (json_is_str kind "subscribe"); [now intros [= <- <-] |].
  assert (Hset :
    forall r1,
      (if json_is_str kind "set_mode"
       then let* m := py_get payload "mode" JNull in
            match m with
            | JStr ms =>
                if String.eqb ms "normal" || String.eqb ms "relax"
                   || String.eqb ms "mental"
                then Ok (mkBridge (clients b) ms (norm b), [MsgCalibration ms None])
                else Ok (b, [])
            | _ => Ok (b, [])
            end
       else Ok (b, [])) = Ok r1 ->
      engagement_count (snd r1) = 0%Z).
  { intros r1. destruct (json_is_str kind "set_mode"); [| now intros [= <-]].
    destruct (py_get payload "mode" JNull) as [m | e]; cbn [bind];
      [| discriminate].
    destruct m; try (now intros [= <-]).
    destruct (_ || _ || _); now intros [= <-]. }
  destruct (if json_is_str kind "set_mode" then _ else _) as [[b' out1] | e];
    cbn [bind]; [| discriminate].
  pose proof (Hset (b', out1) eq_refl) as Hout. cbn [snd] in Hout.
  destruct (json_is_str kind "reset_norm").
  - intros [= <- <-]. rewrite engagement_count_app, Hout. reflexivity.
  - now intros [= <- <-].
Qed.

Lemma pull_step_schedule
  (fs win_len : Z) (t0 : R) (l l1 : Loop) (now : R) (X : ndarray) (sent : Z) :
  (0 < fs)%Z ->
  loop_inv fs t0 l sent ->
  pull_step fs win_len l now X = Ok l1 ->
  loop_inv fs t0 l1 sent.
Proof.
  intros Hfs (Hidx & Hk & Hgate & Hsec & Hsent & Hpull). unfold pull_step.
  destruct (negb _); [| intros [= <-]; repeat split; assumption || lia].
  assert (Hadv : t0 <= advance_pull (next_pull l) now).
  { unfold advance_pull, EEG_PULL_PERIOD_S in *.
    match goal with |- context [Rltb ?a ?b] => case_Rltb a b end; lra. }
  destruct (0 <? shape0 X)%nat.
  - destruct (buffer_append _ _ _ _) as [b | e]; cbn [bind]; [| discriminate].
    intros [= <-]. unfold loop_inv. cbn.
    assert (global_idx l / fs <= (global_idx l + Z.of_nat (shape0 X)) / fs)%Z
      by (apply Z.div_le_mono; lia).
    repeat split; try assumption; lia.
  - cbn [bind]. intros [= <-]. unfold loop_inv. cbn.
    repeat split; try assumption; lia.
Qed.

Lemma gate_step_schedule
  (fs win_len : Z) (t0 : R) (b : Bridge) (l : Loop) (wall_ms : Z)
  (g : gate_out) (sent : Z) :
  (0 < fs)%Z ->
  loop_inv fs t0 l sent ->
  gate_step fs win_len b l wall_ms = Ok g ->
  loop_inv fs t0 (g_loop g)
           (sent + match g_sent g with Some _ => 1 | None => 0 end).
Proof.
  intros Hfs (Hidx & (k & Hk & Hgk) & Hgate & Hsec & Hsent & Hpull).
  unfold gate_step.
  destruct (_ && _ && _) eqn:Hcond.
  2:{ intros [= <-]. unfold loop_inv. cbn.
      repeat split; try assumption; try lia. exists k. now split. }
  apply andb_prop in Hcond as [Hcond _]. apply andb_prop in Hcond as [Hfire _].
  apply Z.leb_le in Hfire.
  destruct (engagement_from_window _ _) as [[[[E a] t] bt] | e]; cbn [bind];
    [| discriminate].
  destruct (normalize _ _) as [En | e]; cbn [bind]; [| discriminate].
  unfold py_floordiv. destruct (Z.eqb_spec fs 0) as [-> | _]; [lia |].
  cbn [bind]. intros [= <-]. unfold loop_inv.
  cbn [g_loop g_sent global_idx next_gate last_sec next_pull].
  destruct (advance_gate_spec (next_gate l) (global_idx l))
    as (j & Hj & Hval & _ & Hfired & _).
  destruct (Hfired Hfire) as [Hj1 Hlow].
  split; [exact Hidx |].
  split; [exists (k + j)%Z; split; [lia | rewrite Hval, Hgk; ring] |].
  split; [lia |].
  destruct (Z.eqb_spec (global_idx l / fs) (last_sec l)) as [Heq | Hne];
    cbn [negb]; repeat split; try assumption; lia.
Qed.

Lemma schedule_inv_step
  (send_raises close_raises : nat -> bool) (fs win_len : Z) (t0 : R)
  (s : system) (ev : event) :
  (0 < fs)%Z ->
  schedule_inv fs t0 s ->
  schedule_inv fs t0 (sys_step send_raises close_raises fs win_len s ev).
Proof.
  intros Hfs Hinv. unfold sys_step.
  destruct (sys_stopped s); [exact Hinv |].
  destruct ev as [now X wall_ms | ws | ws loaded | ws]; try exact Hinv.
  - unfold iteration.
    destruct (pull_step fs win_len (sys_loop s) now X) as [l1 | e] eqn:Hp;
      cbn [bind]; [| exact Hinv].
    pose proof (pull_step_schedule _ _ _ _ _ _ _ _ Hfs Hinv Hp) as H1.
    destruct (gate_step fs win_len (sys_bridge s) l1 wall_ms) as [g | e] eqn:Hg;
      [| exact Hinv].
    pose proof (gate_step_schedule _ _ _ _ _ _ _ _ Hfs H1 Hg) as H2.
    destruct (g_sent g) as [m |] eqn:Hm; unfold schedule_inv;
      cbn [sys_loop sys_log].
    + rewrite engagement_count_app.
      assert (Hmsg : (engagement_count [m] <= 1)%Z) by (destruct m; cbn; lia).
      destruct H2 as (? & ? & ? & ? & ? & ?). repeat split; try assumption; lia.
    + now rewrite Z.add_0_r in H2.
  - unfold handler_step.
    destruct (on_message (sys_bridge s) loaded) as [[b1 out] | e] eqn:Hmsg;
      [| exact Hinv].
    apply on_message_no_engagement in Hmsg.
    destruct out as [| m out]; [exact Hinv |].
    unfold schedule_inv. cbn [sys_loop sys_log].
    rewrite engagement_count_app, Hmsg, Z.add_0_r. exact Hinv.
Qed.

Lemma schedule_inv_run
  (send_raises close_raises : nat -> bool) (fs win_len : Z) (t0 : R)
  (evs : list event) :
  (0 < fs)%Z ->
  schedule_inv fs t0 (sys_run send_raises close_raises fs win_len t0 evs).
Proof.
  intros Hfs. apply sys_run_invariant.
  - unfold schedule_inv, loop_inv. cbn. unfold GATE_STRIDE.
    assert (0 <= 0 / fs)%Z by (apply Z.div_pos; lia).
    split; [lia |]. split; [exists 1%Z; lia |].
    repeat split; try lia; lra.
  - intros s ev. now apply schedule_inv_step.
Qed.

(** X7.  At a positive rate [fs], after any run the number of engagement
    packets broadcast so far is at most [global_idx // fs + 1]: no more
    than one packet for each whole second of samples taken in, however
    often the gate is evaluated and however the control messages are
    interleaved. *)
Theorem one_packet_per_second
  (send_raises close_raises : nat -> bool) (fs win_len : Z) (t0 : R)
  (evs : list event) :
  (0 < fs)%Z ->
  let s := sys_run send_raises close_raises fs win_len t0 evs in
  (engagement_count (sys_log s) <= global_idx (sys_loop s) / fs + 1)%Z.
Proof.
  intros Hfs s.
  destruct (schedule_inv_run send_raises close_raises fs win_len t0 evs Hfs)
    as (_ & _ & _ & Hsec & Hsent & _).
  fold s in Hsec, Hsent. lia.
Qed.

(** X8.  At a positive rate, after any run the gate threshold is a positive
    multiple of 256 and lies at most 256 above the number of samples taken
    in, so the gate is never more than one stride ahead of the stream; the
    pull instant never falls behind the instant the loop started at. *)
Theorem gate_threshold_invariant
  (send_raises close_raises : nat -> bool) (fs win_len : Z) (t0 : R)
  (evs : list event) :
  (0 < fs)%Z ->
  let l := sys_loop (sys_run send_raises close_raises fs win_len t0 evs) in
  (exists k, (1 <= k)%Z /\ next_gate l = (k * GATE_STRIDE)%Z) /\
  (0 <= global_idx l)%Z /\
  (next_gate l <= global_idx l + GATE_STRIDE)%Z /\
  t0 <= next_pull l.
Proof.
  intros Hfs l.
  destruct (schedule_inv_run send_raises close_raises fs win_len t0 evs Hfs)
    as (Hidx & Hk & Hgate & _ & _ & Hpull).
  repeat split; assumption.
Qed.

Lemma one_packet_per_second_witness :
  (0 < 125)%Z /\
  let s := sys_run (fun _ => false) (fun _ => false) 125 125 0
             [EvTick 0 first_block256 0; EvMessage 1 (Raise JSONDecodeError);
              EvTick 1 first_block256 1000] in
  (engagement_count (sys_log s) <= global_idx (sys_loop s) / 125 + 1)%Z.
Proof.
  split; [lia |]. apply one_packet_per_second. lia.
Defined.

Lemma gate_threshold_invariant_witness :
  (0 < 125)%Z /\
  let l := sys_loop (sys_run (fun _ => false) (fun _ => false) 125 125 0
                       [EvTick 0 first_block256 0; EvTick 1 first_block256 1000]) in
  (exists k, (1 <= k)%Z /\ next_gate l = (k * GATE_STRIDE)%Z) /\
  (0 <= global_idx l)%Z /\
  (next_gate l <= global_idx l + GATE_STRIDE)%Z /\
  0 <= next_pull l.
Proof.
  split; [lia |]. apply gate_threshold_invariant. lia.
Defined.

(* --------------------------------------------------------------------- *)
(** ** The state file                                                      *)
(* --------------------------------------------------------------------- *)

Lemma string_length_app (s1 s2 : string) :
  String.length (s1 ++ s2) = (String.length s1 + String.length s2)%nat.
Proof.
  induction s1 as [| a s1 IH]; [reflexivity |].
  change (String a s1 +:+ s2) with (String a (s1 +:+ s2)).
  cbn [String.length]. now rewrite IH.
Qed.

Lemma tmp_path_differs (path : string) : (path ++ ".tmp")%string <> path.
Proof.
  intros Heq. apply (f_equal String.length) in Heq.
  rewrite string_length_app in Heq. cbn in Heq. lia.
Qed.

(** [load_norm_state] looks at one file only. *)
Lemma load_norm_state_local
  (float_of_str : string -> res pyfloat) (d d1 : disk) (o o1 : io_oracle)
  (path : string) :
  d1 !! path = d !! path -> read_ok o1 = read_ok o ->
  load_norm_state float_of_str d1 o1 path = load_norm_state float_of_str d o path.
Proof.
  intros Hd Ho. unfold load_norm_state, read_json. now rewrite Hd, Ho.
Qed.

(** X9.  [save_norm_state] is all or nothing.  When it returns, the state
    file is the new document, the temporary file is gone, and a later load
    gives back exactly the two bounds that were saved; when it raises, the
    state file is what it was, so a later load gives what it gave before.
    Either way no file other than the state file and its [.tmp] companion
    is touched. *)
Theorem save_is_atomic
  (float_of_str : string -> res pyfloat) (d : disk) (o o1 : io_oracle)
  (path : string) (lo hi : pyfloat) (mono_ns : Z) :
  read_ok o1 = true ->
  let d1 := fst (save_norm_state d o path lo hi mono_ns) in
  match snd (save_norm_state d o path lo hi mono_ns) with
  | Ok _ =>
      d1 !! path = Some (saved_doc lo hi mono_ns) /\
      d1 !! (path ++ ".tmp")%string = None /\
      load_norm_state float_of_str d1 o1 path = (lo, hi)
  | Raise _ =>
      d1 !! path = d !! path /\
      load_norm_state float_of_str d1 o1 path
      = load_norm_state float_of_str d o1 path
  end /\
  forall q, q <> path -> q <> (path ++ ".tmp")%string -> d1 !! q = d !! q.
Proof.
  intros Hread d1. subst d1. unfold save_norm_state.
  pose proof (tmp_path_differs path) as Htmp.
  assert (Hkeep : forall (f : file_content) (m : disk),
             m !! path = d !! path ->
             (<[(path ++ ".tmp")%string := f]> m) !! path = d !! path)
    by (intros f m Hm; now rewrite lookup_insert_ne).
  assert (Hother : forall (f : file_content) (m : disk),
             (forall q, q <> path -> q <> (path ++ ".tmp")%string ->
                        m !! q = d !! q) ->
             forall q, q <> path -> q <> (path ++ ".tmp")%string ->
                       (<[(path ++ ".tmp")%string := f]> m) !! q = d !! q)
    by (intros f m Hm q Hq Hqt; rewrite lookup_insert_ne by congruence;
        now apply Hm).
  destruct (open_ok o); cbn [negb fst snd].
  2:{ repeat split; reflexivity. }
  destruct (write_ok o); cbn [negb fst snd].
  2:{ split; [split |].
      - now apply Hkeep.
      - apply load_norm_state_local; [now apply Hkeep | reflexivity].
      - now apply Hother. }
  destruct (replace_ok o); cbn [negb fst snd].
  - split; [split; [| split] |].
    + now rewrite lookup_insert_eq.
    + rewrite lookup_insert_ne by congruence. apply lookup_delete_eq.
    + unfold load_norm_state, read_json. rewrite Hread. cbn [negb].
      rewrite lookup_insert_eq. reflexivity.
    + intros q Hq Hqt. rewrite lookup_insert_ne by congruence.
      rewrite lookup_delete_ne by congruence.
      apply Hother; [| assumption | assumption]. now apply Hother.
  - split; [split |].
    + apply Hkeep. now apply Hkeep.
    + apply load_norm_state_local; [| reflexivity].
      apply Hkeep. now apply Hkeep.
    + apply Hother. now apply Hother.
Qed.

Lemma save_is_atomic_witness :
  read_ok io_fine = true /\
  load_norm_state (fun _ => Raise ValueError)
    (fst (save_norm_state ∅ io_fine PERSIST_PATH (Fin 1) (Fin 2) 7))
    io_fine PERSIST_PATH = (Fin 1, Fin 2).
Proof.
  split; [reflexivity |].
  pose proof (save_is_atomic (fun _ => Raise ValueError) ∅ io_fine io_fine
                PERSIST_PATH (Fin 1) (Fin 2) 7 eq_refl) as [H _].
  cbn [save_norm_state io_fine open_ok write_ok replace_ok negb snd] in H.
  destruct H as (_ & _ & H). exact H.
Defined.

(** The [print] of lines 161-165, where a proof follows a pass that
    returned. *)
Ltac print_returned :=
  match goal with
  | |- context [if negb ?c then py_print ?o else Ok tt] =>
      destruct (if negb c then py_print o else Ok tt) as [[] | ?];
      cbn [bind]; [| discriminate]
  end.

(** One evaluation of the console keeps the state file in step with the
    bounds in memory. *)
Lemma console_gate_persisted
  (float_of_str : string -> res pyfloat) (fs win_len : Z) (c c1 : Console)
  (d d1 : disk) (o o1 : io_oracle) (mono_ns : Z) :
  read_ok o1 = true ->
  load_norm_state float_of_str d o1 PERSIST_PATH = (c_Emin c, c_Emax c) ->
  console_gate fs win_len c d o mono_ns = (d1, Ok c1) ->
  load_norm_state float_of_str d1 o1 PERSIST_PATH = (c_Emin c1, c_Emax c1).
Proof.
  intros Hread Hinv. unfold console_gate.
  destruct (_ && _ && _); [| now intros [= <- <-]].
  destruct (engagement_from_window _ _) as [[[[E a] t] bt] | e];
    [| discriminate].
  destruct (observe_inline (c_Emin c) (c_Emax c) (Fin E)) as [[lo hi] upd] eqn:Hobs.
  destruct upd.
  - destruct (save_norm_state d o PERSIST_PATH lo hi mono_ns) as [d2 saved] eqn:Hs.
    destruct saved as [[] | e]; cbn [bind]; [| discriminate].
    destruct (normalize _ _); cbn [bind]; [| discriminate].
    destruct (py_floordiv _ _); cbn [bind]; [| discriminate].
    print_returned.
    intros [= <- <-]. cbn [c_Emin c_Emax].
    eapply save_then_load; eassumption.
  - cbn [bind].
    destruct (normalize _ _); cbn [bind]; [| discriminate].
    destruct (py_floordiv _ _); cbn [bind]; [| discriminate].
    print_returned.
    intros [= <- <-]. cbn [c_Emin c_Emax].
    unfold observe_inline in Hobs.
    destruct (flt (Fin E) (c_Emin c)); destruct (fgt (Fin E) (c_Emax c));
      try discriminate.
    injection Hobs as <- <-. exact Hinv.
Qed.

Lemma run_engagement_persisted
  (float_of_str : string -> res pyfloat) (fs win_len : Z)
  (ticks : list console_tick) (c c1 : Console) (d d1 : disk) (o1 : io_oracle) :
  read_ok o1 = true ->
  load_norm_state float_of_str d o1 PERSIST_PATH = (c_Emin c, c_Emax c) ->
  run_engagement fs win_len c d ticks = (d1, Looping c1) ->
  load_norm_state float_of_str d1 o1 PERSIST_PATH = (c_Emin c1, c_Emax c1).
Proof.
  intros Hread. revert c d.
  induction ticks as [| [[[now X] o] mono_ns] ticks IH]; intros c d Hinv.
  - cbn. now intros [= <- <-].
  - cbn [run_engagement]. unfold console_iteration.
    destruct (pull_step fs win_len (c_loop c) now X) as [l1 | e];
      [| discriminate].
    destruct (console_gate fs win_len (mkConsole l1 (c_Emin c) (c_Emax c))
                d o mono_ns) as [d2 [c2 | e]] eqn:Hg; [| discriminate].
    apply IH.
    eapply console_gate_persisted; [exact Hread | | exact Hg]. exact Hinv.
Qed.

(** X10.  While the console loop runs, the state file always agrees with
    the bounds in memory: started from a readable disk, after any number of
    passes that raised nothing, loading the state file gives exactly the
    current [Emin] and [Emax].  A restart therefore resumes with the bounds
    the stopped run had. *)
Theorem state_file_tracks_bounds
  (float_of_str : string -> res pyfloat) (fs win_len : Z) (t0 : R)
  (ticks : list console_tick) (c c1 : Console) (d d1 : disk)
  (o0 o1 : io_oracle) :
  read_ok o0 = true -> read_ok o1 = true ->
  console_start float_of_str win_len d o0 t0 = Started c ->
  run_engagement fs win_len c d ticks = (d1, Looping c1) ->
  load_norm_state float_of_str d1 o1 PERSIST_PATH = (c_Emin c1, c_Emax c1).
Proof.
  intros Hr0 Hr1 Hstart Hrun.
  eapply run_engagement_persisted; [exact Hr1 | | exact Hrun].
  unfold console_start in Hstart.
  destruct (win_len <? 8)%Z; [discriminate |].
  destruct (load_norm_state float_of_str d o0 PERSIST_PATH) as [lo hi] eqn:Hl.
  destruct (py_print o0); [| discriminate].
  injection Hstart as <-. cbn [c_Emin c_Emax]. rewrite <- Hl.
  apply load_norm_state_local; [reflexivity | congruence].
Qed.

(** The first pass of a console started without a state file, on a block
    of 256 samples: the gate is due, the bounds move from the infinities
    to the value computed, and the save writes them. *)
Lemma console_first_pass :
  exists E,
    run_engagement 125 125 (mkConsole (Loop_init 0) FPosInf FNegInf) ∅
      [(0, first_block256, io_fine, 9%Z)]
    = (<[PERSIST_PATH := saved_doc (Fin E) (Fin E) 9]>
         (delete (PERSIST_PATH ++ ".tmp")%string
            (<[(PERSIST_PATH ++ ".tmp")%string := saved_doc (Fin E) (Fin E) 9]>
               (<[(PERSIST_PATH ++ ".tmp")%string := Malformed]> ∅))),
       Looping (mkConsole
                  (mkLoop (last_rows 125 first_block256) 256
                          (advance_gate GATE_STRIDE 256) (advance_pull 0 0) 2)
                  (Fin E) (Fin E))).
Proof.
  cbn [run_engagement]. unfold console_iteration. cbn [c_loop c_Emin c_Emax].
  assert (Hpull : pull_step 125 125 (Loop_init 0) 0 first_block256
                  = Ok (mkLoop (last_rows 125 first_block256) 256 GATE_STRIDE
                               (advance_pull 0 0) (-1))).
  { unfold pull_step. cbn [Loop_init next_pull].
    case_Rltb 0 0; [lra |]. cbn [negb]. reflexivity. }
  rewrite Hpull. unfold console_gate.
  cbn [c_loop c_Emin c_Emax next_gate global_idx buf last_sec next_pull].
  replace ((GATE_STRIDE <=? 256)%Z
           && (125 <=? Z.of_nat (shape0 (last_rows 125 first_block256)))%Z
           && (0 <? shape1 (last_rows 125 first_block256))%nat)
    with true by (vm_compute; reflexivity).
  destruct (engagement_ok (last_rows 125 (last_rows 125 first_block256)) (IZR 125))
    as [[[[E a] t] bt] Hsample]; [apply not_0_IZR; lia |].
  rewrite Hsample. exists E.
  change (observe_inline FPosInf FNegInf (Fin E)) with (Fin E, Fin E, true).
  cbn [save_norm_state io_fine open_ok write_ok replace_ok negb bind].
  rewrite normalize_midpoint
    by (unfold fgt, flt; cbn [Emin Emax]; case_Rltb E E; [lra | reflexivity]).
  cbn [bind]. change (py_floordiv 256 125) with (Ok 2%Z). cbn [bind].
  reflexivity.
Qed.

Lemma state_file_tracks_bounds_witness :
  exists E d1 c1,
    run_engagement 125 125 (mkConsole (Loop_init 0) FPosInf FNegInf) ∅
      [(0, first_block256, io_fine, 9%Z)] = (d1, Looping c1) /\
    d1 !! PERSIST_PATH = Some (saved_doc (Fin E) (Fin E) 9) /\
    (c_Emin c1, c_Emax c1) = (Fin E, Fin E) /\
    load_norm_state (fun _ => Raise ValueError) d1 io_fine PERSIST_PATH
    = (c_Emin c1, c_Emax c1).
Proof.
  destruct console_first_pass as [E Hrun].
  eexists E, _, _. split; [exact Hrun |].
  split; [apply lookup_insert_eq |]. split; [reflexivity |].
  refine (state_file_tracks_bounds (fun _ => Raise ValueError) 125 125 0
            [(0, first_block256, io_fine, 9%Z)] _ _ ∅ _ io_fine io_fine
            eq_refl eq_refl _ Hrun).
  reflexivity.
Defined.

(* --------------------------------------------------------------------- *)
(** ** The two variants of the loop                                        *)
(* --------------------------------------------------------------------- *)

(** X11.  The console loop and the bridge evaluate the gate alike.  Take
    one whole pass of lines 138-169 of [run_engagement] (evaluation, save,
    [print], [while]) and one whole pass of lines 240-269 of
    [_stream_loop] (evaluation, [await self._broadcast], [while]) from
    the same counters, buffer and bounds, with every input and output
    call going through: the state file writable, the [print] returning,
    no subscriber whose [send] and [close] both raise.  The two passes
    end in the same exception of the evaluation, or leave the same
    buffer, counters and bounds: the inline min/max update of the console
    is [NormState.update]. *)
Theorem console_agrees_with_bridge
  (send_raises close_raises : nat -> bool)
  (fs win_len : Z) (c : Console) (b : Bridge) (d : disk) (o : io_oracle)
  (mono_ns wall_ms : Z) :
  norm b = mkNorm (c_Emin c) (c_Emax c) ->
  open_ok o = true -> write_ok o = true -> replace_ok o = true ->
  print_ok o = true ->
  (forall ws, ws ∈ clients b -> send_raises ws && close_raises ws = false) ->
  snd (console_gate fs win_len c d o mono_ns)
  = match gate_pass send_raises close_raises fs win_len b (c_loop c) wall_ms with
    | Ok g => Ok (mkConsole (g_loop g) (Emin (norm (g_bridge g)))
                            (Emax (norm (g_bridge g))))
    | Raise e => Raise e
    end.
Proof.
  intros Hnorm Hopen Hw Hr Hp Hquiet.
  rewrite (console_gate_agrees fs win_len c b d o mono_ns wall_ms
             Hnorm Hopen Hw Hr Hp).
  unfold gate_pass.
  destruct (gate_step fs win_len b (c_loop c) wall_ms) as [g | e] eqn:Hg;
    cbn [bind]; [| reflexivity].
  destruct (g_sent g) as [m |]; [| reflexivity].
  assert (Hcl : clients (g_bridge g) = clients b).
  { unfold gate_step in Hg. destruct (_ && _ && _).
    - destruct (engagement_from_window _ _) as [[[[E a] t] bt] | e];
        cbn [bind] in Hg; [| discriminate].
      destruct (normalize _ _); cbn [bind] in Hg; [| discriminate].
      destruct (py_floordiv _ _); cbn [bind] in Hg; [| discriminate].
      now injection Hg as <-.
    - now injection Hg as <-. }
  rewrite broadcast_raises_false by (now rewrite Hcl).
  reflexivity.
Qed.

(** A console and a bridge that both hold 256 samples and the untouched
    bounds: the gate is due on both sides, both evaluate, and both end
    with the same counters and bounds. *)
Lemma console_agrees_with_bridge_witness :
  let l := mkLoop first_block256 256 GATE_STRIDE 0 (-1) in
  exists g E alpha theta beta,
    gate_pass (fun _ => false) (fun _ => false) 125 125 Bridge_init l 0 = Ok g /\
    g_eval g = Some (E, alpha, theta, beta) /\
    norm (g_bridge g) = mkNorm (Fin E) (Fin E) /\
    snd (console_gate 125 125 (mkConsole l FPosInf FNegInf) ∅ io_fine 7)
    = Ok (mkConsole (g_loop g) (Fin E) (Fin E)).
Proof.
  intros l.
  pose proof (console_agrees_with_bridge (fun _ => false) (fun _ => false)
                125 125 (mkConsole l FPosInf FNegInf) Bridge_init ∅ io_fine 7 0
                eq_refl eq_refl eq_refl eq_refl eq_refl
                (fun ws _ => eq_refl)) as Hagree.
  cbn [c_loop] in Hagree.
  destruct (gate_step_due 125 125 Bridge_init l 0)
    as (E & a & t & bt & En & _ & _ & Hg).
  - lia.
  - vm_compute. discriminate.
  - vm_compute. discriminate.
  - vm_compute. lia.
  - unfold gate_pass in *. rewrite Hg in *.
    cbn [bind g_sent g_bridge g_loop g_eval] in *.
    change (broadcast_raises (fun _ => false) (fun _ => false)
              (mkBridge (clients Bridge_init) (mode Bridge_init)
                 (update (norm Bridge_init) (Fin E))))
      with false in *.
    change (update (norm Bridge_init) (Fin E)) with (mkNorm (Fin E) (Fin E)) in *.
    destruct (negb (global_idx l / 125 =? last_sec l)%Z);
      eexists _, E, a, t, bt;
      (split; [reflexivity |]); (split; [reflexivity |]);
      (split; [reflexivity |]); exact Hagree.
Defined.

(* --------------------------------------------------------------------- *)
(** ** The spectral estimate: sign, offset and gain                        *)
(* --------------------------------------------------------------------- *)

Lemma big_sum_scal (a : R) (f : nat -> R) (n : nat) :
  big_sum (fun k => a * f k) n = a * big_sum f n.
Proof. induction n as [| n IH]; cbn; [lra | rewrite IH; lra]. Qed.

Lemma big_sum_plus (f g : nat -> R) (n : nat) :
  big_sum (fun k => f k + g k) n = big_sum f n + big_sum g n.
Proof. induction n as [| n IH]; cbn; [lra | rewrite IH; lra]. Qed.

Lemma big_sum_const (c : R) (n : nat) : big_sum (fun _ => c) n = INR n * c.
Proof.
  induction n as [| n IH]; [cbn; lra |].
  rewrite S_INR. cbn [big_sum]. rewrite IH. lra.
Qed.

Lemma big_sum_nonneg (f : nat -> R) (n : nat) :
  (forall k, (k < n)%nat -> 0 <= f k) -> 0 <= big_sum f n.
Proof.
  induction n as [| n IH]; intros Hf; cbn; [lra |].
  specialize (Hf n ltac:(lia)) as Hn.
  assert (0 <= big_sum f n) by (apply IH; intros k Hk; apply Hf; lia). lra.
Qed.

Lemma nth_map_scale (a : R) (x : list R) (k : nat) :
  nth k (map (Rmult a) x) 0 = a * nth k x 0.
Proof.
  revert k. induction x as [| v x IH]; intros [| k]; cbn; try lra. apply IH.
Qed.

Lemma nth_map_shift (c : R) (x : list R) (k : nat) :
  (k < length x)%nat -> nth k (map (Rplus c) x) 0 = c + nth k x 0.
Proof.
  revert k. induction x as [| v x IH]; intros [| k]; cbn; try lia; try lra.
  intros Hk. apply IH. lia.
Qed.

(** *** Gain *)

Lemma spec_mean_scale (a : R) (x : list R) :
  spec_mean (map (Rmult a) x) = a * spec_mean x.
Proof.
  unfold spec_mean. rewrite length_map.
  rewrite (big_sum_ext _ (fun k => a * nth k x 0))
    by (intros; apply nth_map_scale).
  rewrite big_sum_scal. unfold Rdiv. ring.
Qed.

Lemma spec_windowed_scale (a : R) (x : list R) (k : nat) :
  spec_windowed (map (Rmult a) x) k = a * spec_windowed x k.
Proof.
  unfold spec_windowed.
  rewrite length_map, nth_map_scale, spec_mean_scale. ring.
Qed.

Lemma spec_dft_re_scale (a : R) (x : list R) (j : nat) :
  spec_dft_re (map (Rmult a) x) j = a * spec_dft_re x j.
Proof.
  unfold spec_dft_re. rewrite length_map, <- big_sum_scal.
  apply big_sum_ext. intros m _. rewrite spec_windowed_scale. ring.
Qed.

Lemma spec_dft_im_scale (a : R) (x : list R) (j : nat) :
  spec_dft_im (map (Rmult a) x) j = a * spec_dft_im x j.
Proof.
  unfold spec_dft_im. rewrite length_map.
  rewrite (big_sum_ext _ (fun m => a * (spec_windowed x m
             * sin (2 * PI * INR m * INR j / INR (length x)))))
    by (intros m _; rewrite spec_windowed_scale; ring).
  rewrite big_sum_scal. ring.
Qed.

Lemma spec_psd_scale (a : R) (x : list R) (fs : R) (j : nat) :
  spec_psd (map (Rmult a) x) fs j = a ^ 2 * spec_psd x fs j.
Proof.
  unfold spec_psd.
  rewrite length_map, spec_dft_re_scale, spec_dft_im_scale.
  unfold Rdiv. ring.
Qed.

Lemma spec_band_power_scale (a : R) (x : list R) (fs lo hi : R) :
  spec_band_power (map (Rmult a) x) fs lo hi
  = a ^ 2 * spec_band_power x fs lo hi.
Proof.
  unfold spec_band_power. rewrite length_map, <- big_sum_scal.
  apply big_sum_ext. intros j _. rewrite !spec_psd_scale.
  destruct (_ && _); unfold Rdiv; ring.
Qed.

(** *** Offset *)

Lemma spec_mean_shift (c : R) (x : list R) :
  x <> [] -> spec_mean (map (Rplus c) x) = c + spec_mean x.
Proof.
  intros Hx. unfold spec_mean. rewrite length_map.
  rewrite (big_sum_ext _ (fun k => (fun _ => c) k + nth k x 0))
    by (intros; now apply nth_map_shift).
  rewrite big_sum_plus, big_sum_const.
  assert (INR (length x) <> 0) by (apply not_0_INR; now destruct x).
  field. assumption.
Qed.

Lemma spec_windowed_shift (c : R) (x : list R) (k : nat) :
  (k < length x)%nat ->
  spec_windowed (map (Rplus c) x) k = spec_windowed x k.
Proof.
  intros Hk. unfold spec_windowed.
  rewrite length_map, nth_map_shift by assumption.
  rewrite spec_mean_shift by (destruct x; [cbn in Hk; lia | discriminate]).
  ring.
Qed.

Lemma spec_psd_shift (c : R) (x : list R) (fs : R) (j : nat) :
  spec_psd (map (Rplus c) x) fs j = spec_psd x fs j.
Proof.
  unfold spec_psd, spec_dft_re, spec_dft_im. rewrite !length_map.
  rewrite (big_sum_ext
             (fun m => spec_windowed (map (Rplus c) x) m
                       * cos (2 * PI * INR m * INR j / INR (length x)))
             (fun m => spec_windowed x m
                       * cos (2 * PI * INR m * INR j / INR (length x))))
    by (intros m Hm; now rewrite spec_windowed_shift).
  rewrite (big_sum_ext
             (fun m => spec_windowed (map (Rplus c) x) m
                       * sin (2 * PI * INR m * INR j / INR (length x)))
             (fun m => spec_windowed x m
                       * sin (2 * PI * INR m * INR j / INR (length x))))
    by (intros m Hm; now rewrite spec_windowed_shift).
  reflexivity.
Qed.

Lemma spec_band_power_shift (c : R) (x : list R) (fs lo hi : R) :
  spec_band_power (map (Rplus c) x) fs lo hi = spec_band_power x fs lo hi.
Proof.
  unfold spec_band_power. rewrite length_map.
  apply big_sum_ext. intros j _. now rewrite !spec_psd_shift.
Qed.

(** *** Sign *)

Lemma spec_psd_nonneg (x : list R) (fs : R) (j : nat) :
  0 < fs -> length x <> 0%nat -> length x <> 2%nat -> 0 <= spec_psd x fs j.
Proof.
  intros Hfs H0 H2. unfold spec_psd.
  pose proof (hann_energy_pos (length x) H0 H2) as Hen.
  apply Rmult_le_pos.
  - pose proof (pow2_ge_0 (spec_dft_re x j)).
    pose proof (pow2_ge_0 (spec_dft_im x j)). lra.
  - left. apply Rinv_0_lt_compat. now apply Rmult_lt_0_compat.
Qed.

Lemma spec_band_power_nonneg (x : list R) (fs lo hi : R) :
  0 < fs -> 0 < lo -> 0 <= spec_band_power x fs lo hi.
Proof.
  intros Hfs Hlo.
  destruct (Nat.eq_dec (length x) 2%nat) as [H2 | H2].
  { rewrite two_sample_band_power by assumption. lra. }
  destruct (Nat.eq_dec (length x) 0%nat) as [H0 | H0].
  { unfold spec_band_power. rewrite H0. cbn. lra. }
  unfold spec_band_power. apply big_sum_nonneg. intros j _.
  destruct (_ && _); [| lra].
  pose proof (spec_freq_mono (length x) fs j (S j) Hfs H0 ltac:(lia)).
  pose proof (spec_psd_nonneg x fs j Hfs H0 H2).
  pose proof (spec_psd_nonneg x fs (S j) Hfs H0 H2).
  unfold Rdiv. apply Rmult_le_pos; [apply Rmult_le_pos |]; lra.
Qed.

Lemma spec_band_average_nonneg (win : ndarray) (fs lo hi : R) :
  0 < fs -> 0 < lo -> 0 <= spec_band_average win fs lo hi.
Proof.
  intros Hfs Hlo. unfold spec_band_average.
  destruct (Nat.eq_dec (shape1 win) 0%nat) as [-> | HC].
  { cbn. lra. }
  apply Rmult_le_pos.
  - apply big_sum_nonneg. intros c _. now apply spec_band_power_nonneg.
  - left. apply Rinv_0_lt_compat, lt_0_INR. lia.
Qed.

(** What [engagement_from_window] returns on a window that holds a sample. *)
Lemma engagement_from_window_value (win : ndarray) (fs : R) :
  0 < fs -> size win <> 0%nat ->
  let theta := spec_band_average win fs 4 7 in
  let alpha := spec_band_average win fs 7 11 in
  let beta := spec_band_average win fs 11 20 in
  engagement_from_window win fs
  = Ok (engagement_index theta alpha beta, alpha, theta, beta).
Proof.
  intros Hfs Hsz theta alpha beta. unfold engagement_from_window.
  destruct (Nat.eqb_spec (size win) 0) as [Hz | _]; [contradiction |].
  rewrite band_loop_spec by assumption. cbn [bind].
  rewrite !np_sum_map_seq, !Rplus_0_l.
  assert (HC : INR (shape1 win) <> 0)
    by (apply not_0_INR; unfold size in Hsz; nia).
  rewrite !py_div_ok by assumption. cbn [bind].
  fold (spec_band_average win fs 4 7). fold (spec_band_average win fs 7 11).
  fold (spec_band_average win fs 11 20). fold theta. fold alpha. fold beta.
  unfold engagement_index.
  assert (Heps : 0 < 1 / 10 ^ 12)
    by (apply Rdiv_lt_0_compat; [lra | apply pow_lt; lra]).
  case_Rltb (1 / 10 ^ 12) (alpha + theta); [| reflexivity].
  rewrite py_div_ok by lra. reflexivity.
Qed.

(** X12.  At a positive rate [engagement_from_window] returns for every
    window, and none of the four numbers it returns is negative: the three
    band powers are averages of trapezoids over a non-negative density,
    and [E] is their ratio or zero.  The bounds of the normaliser are
    therefore never negative either. *)
Theorem engagement_is_nonnegative (win : ndarray) (fs : R) :
  0 < fs ->
  exists E alpha theta beta,
    engagement_from_window win fs = Ok (E, alpha, theta, beta) /\
    0 <= E /\ 0 <= alpha /\ 0 <= theta /\ 0 <= beta.
Proof.
  intros Hfs.
  destruct (Nat.eq_dec (size win) 0%nat) as [Hz | Hnz].
  { exists 0, 0, 0, 0. unfold engagement_from_window. rewrite Hz.
    cbn. repeat split; lra. }
  pose proof (spec_band_average_nonneg win fs 4 7 Hfs ltac:(lra)) as Ht.
  pose proof (spec_band_average_nonneg win fs 7 11 Hfs ltac:(lra)) as Ha.
  pose proof (spec_band_average_nonneg win fs 11 20 Hfs ltac:(lra)) as Hb.
  eexists _, _, _, _. split; [now apply engagement_from_window_value |].
  repeat split; try assumption.
  unfold engagement_index.
  match goal with |- context [Rltb ?a ?b] => case_Rltb a b end; [| lra].
  apply Rmult_le_pos; [assumption |].
  left. apply Rinv_0_lt_compat.
  assert (0 < 1 / 10 ^ 12)
    by (apply Rdiv_lt_0_compat; [lra | apply pow_lt; lra]). lra.
Qed.

Lemma engagement_is_nonnegative_witness :
  exists E alpha theta beta,
    engagement_from_window first_block256 125 = Ok (E, alpha, theta, beta) /\
    0 <= E /\ 0 <= alpha /\ 0 <= theta /\ 0 <= beta.
Proof.
  apply engagement_is_nonnegative. lra.
Defined.

(** X13.  [bandpower_hann_rfft] does not see a constant offset: at a
    positive rate, adding the same number to every sample of a channel
    leaves the power of a band as it was, and a channel that is constant
    has power zero in it.  This is stated for every band on a signal that
    does not have exactly two samples, and for the bands above 0 Hz on
    one that has: on two samples the window is zero, and for a band that
    holds both bins the code divides zero by zero. *)
Theorem bandpower_ignores_offset (x : list R) (c fs lo hi : R) (n : nat) :
  0 < fs ->
  (length x <> 2%nat \/ 0 < lo ->
   bandpower_hann_rfft (map (Rplus c) x) fs lo hi
   = bandpower_hann_rfft x fs lo hi) /\
  (n <> 2%nat \/ 0 < lo ->
   bandpower_hann_rfft (repeat c n) fs lo hi = Ok 0).
Proof.
  intros Hfs. rewrite !bandpower_spec by assumption. split.
  - intros _. now rewrite spec_band_power_shift.
  - intros _.
    assert (Hrep : repeat c n = map (Rplus c) (map (Rmult 0) (repeat 0 n))).
    { induction n as [| n IH]; [reflexivity |].
      cbn [repeat map]. rewrite <- IH. f_equal. lra. }
    rewrite Hrep, spec_band_power_shift, spec_band_power_scale.
    f_equal. ring.
Qed.

(** The signal with power, five units higher: theta keeps its power, which
    is not zero, and the constant signal at that height has none. *)
Lemma bandpower_ignores_offset_witness :
  bandpower_hann_rfft (map (Rplus 5) impulse19) 38 4 7
  = Ok (2 * impulse_density) /\
  bandpower_hann_rfft impulse19 38 4 7 = Ok (2 * impulse_density) /\
  0 < 2 * impulse_density /\
  bandpower_hann_rfft (repeat 5 19) 38 4 7 = Ok 0.
Proof.
  destruct (bandpower_ignores_offset impulse19 5 38 4 7 19) as [Hshift Hconst];
    [lra |].
  assert (Hpow : bandpower_hann_rfft impulse19 38 4 7
                 = Ok (2 * impulse_density)).
  { rewrite bandpower_spec by lra. destruct impulse19_bands as (-> & _).
    reflexivity. }
  pose proof impulse_density_bounds as Hp.
  split; [rewrite Hshift by (right; lra); exact Hpow |].
  split; [exact Hpow |]. split; [lra |].
  apply Hconst. right. lra.
Defined.

Lemma column_scale_window (a : R) (win : ndarray) (c : nat) :
  column (scale_window a win) c = map (Rmult a) (column win c).
Proof.
  unfold column, scale_window. cbn [rows]. rewrite !map_map.
  apply map_ext. intros r. apply nth_map_scale.
Qed.

Lemma spec_band_average_scale (a : R) (win : ndarray) (fs lo hi : R) :
  spec_band_average (scale_window a win) fs lo hi
  = a ^ 2 * spec_band_average win fs lo hi.
Proof.
  unfold spec_band_average.
  change (shape1 (scale_window a win)) with (shape1 win).
  rewrite (big_sum_ext _ (fun c => a ^ 2 * spec_band_power (column win c) fs lo hi))
    by (intros c _; now rewrite column_scale_window, spec_band_power_scale).
  rewrite big_sum_scal. unfold Rdiv. ring.
Qed.

(** X14.  The gain of the amplifier cancels.  At a positive rate, scaling
    every sample of a window by [a] scales the three band powers by [a^2];
    the raw index [E] is unchanged as long as [alpha + theta] exceeds the
    [1e-12] threshold both before and after the scaling. *)
Theorem engagement_ignores_gain
  (a : R) (win : ndarray) (fs E alpha theta beta : R) :
  0 < fs ->
  engagement_from_window win fs = Ok (E, alpha, theta, beta) ->
  exists E',
    engagement_from_window (scale_window a win) fs
    = Ok (E', a ^ 2 * alpha, a ^ 2 * theta, a ^ 2 * beta) /\
    (1 / 10 ^ 12 < alpha + theta ->
     1 / 10 ^ 12 < a ^ 2 * (alpha + theta) -> E' = E).
Proof.
  intros Hfs Hwin.
  assert (Hsize : size (scale_window a win) = size win).
  { unfold size, shape0, shape1, scale_window. cbn. now rewrite length_map. }
  destruct (Nat.eq_dec (size win) 0%nat) as [Hz | Hnz].
  { unfold engagement_from_window in *. rewrite Hsize, Hz in *. cbn in *.
    injection Hwin as <- <- <- <-. exists 0.
    split; [do 4 f_equal; ring |]. intros _ _. reflexivity. }
  rewrite engagement_from_window_value in Hwin by assumption.
  injection Hwin as HE Ha Ht Hb.
  rewrite engagement_from_window_value by (assumption || now rewrite Hsize).
  rewrite !spec_band_average_scale, Ha, Ht, Hb.
  eexists. split; [reflexivity |].
  intros Hbig Hbig'. rewrite <- HE, Ha, Ht, Hb. unfold engagement_index.
  replace (a ^ 2 * alpha + a ^ 2 * theta) with (a ^ 2 * (alpha + theta)) by ring.
  case_Rltb (1 / 10 ^ 12) (a ^ 2 * (alpha + theta)); [| lra].
  case_Rltb (1 / 10 ^ 12) (alpha + theta); [| lra].
  assert (Heps : 0 < 1 / 10 ^ 12)
    by (apply Rdiv_lt_0_compat; [lra | apply pow_lt; lra]).
  assert (Ha2 : a ^ 2 <> 0).
  { intros H0. rewrite H0 in Hbig'. lra. }
  assert (Ha0 : a <> 0) by (intros ->; apply Ha2; ring).
  field. split; first [assumption | lra].
Qed.

(** The window with power, three times as loud: the three powers are
    nine times what they were, both sums lie above the threshold, and
    [E] is 3/2 before and after. *)
Lemma engagement_ignores_gain_witness :
  1 / 10 ^ 12 < 2 * impulse_density + 2 * impulse_density /\
  1 / 10 ^ 12 < 3 ^ 2 * (2 * impulse_density + 2 * impulse_density) /\
  engagement_from_window impulse_window 38
  = Ok (3 / 2, 2 * impulse_density, 2 * impulse_density, 6 * impulse_density) /\
  engagement_from_window (scale_window 3 impulse_window) 38
  = Ok (3 / 2, 3 ^ 2 * (2 * impulse_density), 3 ^ 2 * (2 * impulse_density),
        3 ^ 2 * (6 * impulse_density)).
Proof.
  pose proof impulse_density_bounds as Hp.
  pose proof threshold_small as Heps.
  destruct impulse19_bands as (Ht & Ha & Hb).
  assert (Hwin : engagement_from_window impulse_window 38
                 = Ok (3 / 2, 2 * impulse_density, 2 * impulse_density,
                       6 * impulse_density)).
  { rewrite engagement_from_window_value by (lra || (cbn; lia)).
    rewrite !impulse_window_average, Ht, Ha, Hb. unfold engagement_index.
    case_Rltb (1 / 10 ^ 12) (2 * impulse_density + 2 * impulse_density);
      [| lra].
    do 4 f_equal. field. lra. }
  assert (Hbig : 1 / 10 ^ 12 < 2 * impulse_density + 2 * impulse_density)
    by lra.
  assert (Hbig' : 1 / 10 ^ 12
                  < 3 ^ 2 * (2 * impulse_density + 2 * impulse_density))
    by lra.
  destruct (engagement_ignores_gain 3 impulse_window 38 (3 / 2)
              (2 * impulse_density) (2 * impulse_density)
              (6 * impulse_density) ltac:(lra) Hwin)
    as (E' & Hscaled & Hsame).
  rewrite (Hsame Hbig Hbig') in Hscaled.
  split; [exact Hbig |]. split; [exact Hbig' |].
  split; [exact Hwin | exact Hscaled].
Defined.

(* --------------------------------------------------------------------- *)
(** ** A reset followed by an evaluation                                   *)
(* --------------------------------------------------------------------- *)




(* --------------------------------------------------------------------- *)
(** ** The bind address                                                    *)
(* --------------------------------------------------------------------- *)

Lemma append_cons (c : Ascii.ascii) (s1 s2 : string) :
  (String c s1 ++ s2)%string = String c (s1 ++ s2)%string.
Proof. reflexivity. Qed.

Lemma strip_prefix_app (p s : string) : strip_prefix p (p ++ s)%string = Some s.
Proof.
  induction p as [| a p IH]; [now destruct s |].
  rewrite append_cons. cbn [strip_prefix]. now rewrite Ascii.eqb_refl.
Qed.

Lemma strip_prefix_inv (p s r : string) :
  strip_prefix p s = Some r -> s = (p ++ r)%string.
Proof.
  revert s. induction p as [| a p IH]; intros s.
  - destruct s; cbn; now intros [= <-].
  - destruct s as [| c s]; cbn [strip_prefix]; [discriminate |].
    destruct (Ascii.eqb_spec a c) as [-> | _]; [| discriminate].
    intros H. rewrite append_cons. f_equal. now apply IH.
Qed.

Lemma split_colon_app (host port_s : string) :
  has_colon host = false ->
  split_colon (host ++ String ":"%char port_s)%string = Some (host, port_s).
Proof.
  induction host as [| c host IH]; [reflexivity |].
  cbn [has_colon]. intros H. apply orb_false_iff in H as [Hc Hrest].
  rewrite append_cons. cbn [split_colon]. rewrite Hc. now rewrite IH.
Qed.

Lemma split_colon_inv (s host port_s : string) :
  split_colon s = Some (host, port_s) ->
  has_colon host = false /\ s = (host ++ String ":"%char port_s)%string.
Proof.
  revert host. induction s as [| c s IH]; intros host; cbn [split_colon];
    [discriminate |].
  destruct (Ascii.eqb_spec c ":"%char) as [-> | Hc].
  - intros [= <- <-]. split; reflexivity.
  - destruct (split_colon s) as [[h p] |]; [| discriminate].
    intros [= <- <-]. destruct (IH h eq_refl) as [Hh ->].
    split; [| reflexivity]. cbn [has_colon]. rewrite Hh.
    destruct (Ascii.eqb_spec c ":"%char); [contradiction | reflexivity].
Qed.

Lemma split_colon_none (s : string) :
  split_colon s = None <-> has_colon s = false.
Proof.
  induction s as [| c s IH]; cbn [split_colon has_colon]; [tauto |].
  destruct (Ascii.eqb c ":"%char); cbn [orb]; [split; discriminate |].
  destruct (split_colon s) as [[h p] |].
  - split; [discriminate |]. intros H. apply IH in H. discriminate.
  - split; [intros _; now apply IH | reflexivity].
Qed.

(** X16.  [_parse_ws_addr] returns [(host, port)] exactly for addresses of
    the form [ws://host:port_s] in which [host] holds no colon and
    [int(port_s)] is [port]; the host is cut at the first colon.  An
    address without the [ws://] prefix, or without a colon after it, raises
    [ValueError], as does one whose port is not an integer: so a bracketed
    IPv6 literal, whose host holds colons, is never parsed to its host. *)
Theorem parse_ws_addr_characterised
  (py_int : string -> res Z) (addr host : string) (port : Z) :
  (parse_ws_addr py_int addr = Ok (host, port) <->
   exists port_s,
     has_colon host = false /\
     addr = ("ws://" ++ host ++ String ":"%char port_s)%string /\
     py_int port_s = Ok port) /\
  (strip_prefix "ws://" addr = None ->
   parse_ws_addr py_int addr = Raise ValueError) /\
  (forall rest, has_colon rest = false ->
     parse_ws_addr py_int ("ws://" ++ rest)%string = Raise ValueError).
Proof.
  split; [split | split].
  - unfold parse_ws_addr.
    destruct (strip_prefix "ws://" addr) as [host_port |] eqn:Hpre;
      [| discriminate].
    destruct (split_colon host_port) as [[h port_s] |] eqn:Hsplit;
      [| discriminate].
    destruct (py_int port_s) as [p | e] eqn:Hint; cbn [bind]; [| discriminate].
    intros [= <- <-]. exists port_s.
    apply strip_prefix_inv in Hpre. apply split_colon_inv in Hsplit as [Hh ->].
    repeat split; assumption.
  - intros (port_s & Hh & -> & Hint). unfold parse_ws_addr.
    rewrite strip_prefix_app, split_colon_app by assumption.
    now rewrite Hint.
  - intros Hpre. unfold parse_ws_addr. now rewrite Hpre.
  - intros rest Hrest. unfold parse_ws_addr.
    rewrite strip_prefix_app. apply split_colon_none in Hrest.
    now rewrite Hrest.
Qed.

(* --------------------------------------------------------------------- *)
(** ** How long a broadcast takes                                          *)
(* --------------------------------------------------------------------- *)

Section GatherLength.

Variable send_raises : nat -> bool.
Variable close_raises : nat -> bool.
Variable payload : message.

Lemma task_steps_counted (p q : pool) :
  task_steps send_raises close_raises payload p q <->
  exists n, task_steps_in send_raises close_raises payload n p q.
Proof.
  split.
  - induction 1 as [p | p q r _ [n IH] Hstep].
    + exists 0%nat. constructor.
    + exists (S n). econstructor; eassumption.
  - intros [n Hn]. induction Hn as [p | n p q r _ IH Hstep].
    + constructor.
    + econstructor; eassumption.
Qed.

Lemma list_sum_cons (x : nat) (l : list nat) :
  list_sum (x :: l) = (x + list_sum l)%nat.
Proof. reflexivity. Qed.

Lemma list_sum_update (g g' : nat -> nat) (l : list nat) (ws : nat) :
  List.NoDup l -> In ws l -> (forall x, x <> ws -> g' x = g x) ->
  (list_sum (map g' l) + g ws = list_sum (map g l) + g' ws)%nat.
Proof.
  intros Hnd Hin Hsame. induction Hnd as [| x l Hx Hnd IH]; [destruct Hin |].
  cbn [map]; rewrite ?list_sum_cons. destruct Hin as [-> | Hin].
  - assert (Hrest : map g' l = map g l).
    { apply map_ext_in. intros y Hy. apply Hsame. intros ->. contradiction. }
    rewrite Hrest. lia.
  - specialize (IH Hin).
    assert (x <> ws) by (intros ->; contradiction).
    rewrite (Hsame x) by assumption.
    lia.
Qed.

Lemma pending_work_insert (cl : list nat) (t : gmap nat pc) (ws : nat) (new : pc) :
  List.NoDup cl -> In ws cl ->
  (pending_work send_raises cl (<[ws := new]> t)
   + work_left send_raises ws (t !! ws)
   = pending_work send_raises cl t + work_left send_raises ws (Some new))%nat.
Proof.
  intros Hnd Hin. unfold pending_work.
  pose proof (list_sum_update
                (fun x => work_left send_raises x (t !! x))
                (fun x => work_left send_raises x (<[ws := new]> t !! x))
                cl ws Hnd Hin) as Hupd.
  cbv beta in Hupd. rewrite lookup_insert_eq in Hupd. apply Hupd.
  intros x Hx. now rewrite lookup_insert_ne by congruence.
Qed.

(** Every resumption does one unit of the work that is left. *)
Lemma task_step_work (cl : list nat) (p q : pool) :
  List.NoDup cl ->
  (forall ws, is_Some (p.2 !! ws) -> In ws cl) ->
  task_step send_raises close_raises payload p q ->
  S (pending_work send_raises cl q.2) = pending_work send_raises cl p.2.
Proof.
  intros Hnd Hdom Hstep.
  destruct Hstep as [h t ws Hat Hr | h t ws Hat Hr | h t ws Hat Hr | h t ws Hat Hr];
    cbn [snd] in *;
    (assert (Hin : In ws cl) by (apply Hdom; rewrite Hat; eauto));
    match goal with
    | |- context [<[ws := ?new]> t] =>
        pose proof (pending_work_insert cl t ws new Hnd Hin) as Hw
    end;
    rewrite Hat in Hw; cbn [work_left] in Hw; rewrite ?Hr in Hw; lia.
Qed.

Lemma pending_work_spawn (h0 : hub) (cl : list nat) :
  (forall ws, In ws cl -> ws ∈ hub_clients h0) ->
  pending_work send_raises cl (spawn h0).2
  = (length cl + length (List.filter send_raises cl))%nat.
Proof.
  intros Hcl. unfold pending_work, spawn. cbn [snd].
  induction cl as [| ws cl IH]; [reflexivity |].
  cbn [map List.filter length]; rewrite ?list_sum_cons.
  rewrite IH by (intros x Hx; apply Hcl; now right).
  assert (Hat : gset_to_gmap AtSend (hub_clients h0) !! ws = Some AtSend).
  { apply lookup_gset_to_gmap_Some. split; [| reflexivity].
    apply Hcl. now left. }
  rewrite Hat. cbn [work_left]. destruct (send_raises ws); cbn [length]; lia.
Qed.

Lemma list_sum_zero (g : nat -> nat) (l : list nat) :
  list_sum (map g l) = 0%nat <-> forall x, In x l -> g x = 0%nat.
Proof.
  induction l as [| y l IH]; cbn [map]; rewrite ?list_sum_cons.
  - split; [intros _ x [] | reflexivity].
  - split.
    + intros Hsum x [<- | Hx]; [lia |]. apply IH; [lia | exact Hx].
    + intros Hall. rewrite (Hall y) by now left.
      apply IH. intros x Hx. apply Hall. now right.
Qed.

Lemma schedule_work (h0 : hub) (n : nat) (p : pool) :
  task_steps_in send_raises close_raises payload n (spawn h0) p ->
  (n + pending_work send_raises (elements (hub_clients h0)) p.2
   = length (elements (hub_clients h0))
     + length (List.filter send_raises (elements (hub_clients h0))))%nat.
Proof.
  intros Hrun. remember (spawn h0) as p0 eqn:Hp0.
  induction Hrun as [p | n p q r Hrun IH Hstep].
  - subst p. rewrite pending_work_spawn; [reflexivity |].
    intros ws Hws. apply elem_of_elements, list_elem_of_In, Hws.
  - specialize (IH Hp0). subst p.
    assert (Hreach : task_steps send_raises close_raises payload (spawn h0) q)
      by (apply task_steps_counted; eauto).
    destruct (pool_inv_steps send_raises close_raises payload h0 q Hreach)
      as (Hdom & _).
    rewrite <- (task_step_work (elements (hub_clients h0)) q r) in IH;
      [lia | apply NoDup_ListNoDup, NoDup_elements | | exact Hstep].
    intros ws Hws. apply list_elem_of_In, elem_of_elements, Hdom, Hws.
Qed.

(** X17.  A broadcast always comes to an end, and after the same number
    of resumptions whatever the order: every schedule of the coroutines of
    [gather] over [N] subscribers, [F] of whose sends raise, has at most
    [N + F] steps, and it is complete (every coroutine has returned or
    raised) exactly when it has [N + F]: one step for each send and one
    more for each close that follows a failed send. *)
Theorem gather_step_count (h0 : hub) (n : nat) (p : pool) :
  task_steps_in send_raises close_raises payload n (spawn h0) p ->
  let N := length (elements (hub_clients h0)) in
  let F := length (List.filter send_raises (elements (hub_clients h0))) in
  task_steps send_raises close_raises payload (spawn h0) p /\
  (n <= N + F)%nat /\
  (all_returned p.2 <-> n = (N + F)%nat).
Proof.
  intros Hrun N F.
  assert (Hreach : task_steps send_raises close_raises payload (spawn h0) p)
    by (apply task_steps_counted; eauto).
  pose proof (schedule_work h0 n p Hrun) as Hwork. fold N F in Hwork.
  destruct (pool_inv_steps send_raises close_raises payload h0 p Hreach)
    as (Hdom & _).
  split; [exact Hreach |]. split; [lia |]. split.
  - intros Hdone.
    assert (Hzero : pending_work send_raises (elements (hub_clients h0)) p.2
                    = 0%nat).
    { apply list_sum_zero. intros ws _.
      destruct (p.2 !! ws) as [st |] eqn:Hst; [| reflexivity].
      destruct (Hdone ws st Hst) as [r ->]. reflexivity. }
    lia.
  - intros Hn.
    assert (Hzero : pending_work send_raises (elements (hub_clients h0)) p.2
                    = 0%nat) by lia.
    intros ws st Hst.
    assert (Hin : In ws (elements (hub_clients h0))).
    { apply list_elem_of_In, elem_of_elements, Hdom. rewrite Hst. eauto. }
    pose proof (proj1 (list_sum_zero _ _) Hzero ws Hin) as Hws.
    cbv beta in Hws. rewrite Hst in Hws.
    destruct st as [| | r]; cbn [work_left] in Hws.
    + destruct (send_raises ws); discriminate.
    + discriminate.
    + now exists r.
Qed.

End GatherLength.

Lemma gather_step_count_witness :
  let p1 := (mkHub (hub_clients three_subscribers)
               [(1%nat, MsgHello "normal")] (closed three_subscribers),
             <[1%nat := Returned (Ok tt)]> (spawn three_subscribers).2) in
  task_steps second_fails (fun _ => false) (MsgHello "normal")
    (spawn three_subscribers) p1 /\
  (1 <= length (elements (hub_clients three_subscribers))
        + length (List.filter second_fails
                    (elements (hub_clients three_subscribers))))%nat.
Proof.
  intros p1.
  assert (Hrun : task_steps_in second_fails (fun _ => false) (MsgHello "normal")
                   1 (spawn three_subscribers) p1).
  { eapply steps_in_S; [apply steps_in_O |].
    apply (step_send_ok second_fails (fun _ => false) (MsgHello "normal")
             three_subscribers (spawn three_subscribers).2 1%nat).
    - reflexivity.
    - reflexivity. }
  destruct (gather_step_count second_fails (fun _ => false) (MsgHello "normal")
              three_subscribers 1 p1 Hrun) as (Hreach & Hle & _).
  split; [exact Hreach | exact Hle].
Defined.

(* --------------------------------------------------------------------- *)
(** ** Taking samples from the board                                       *)
(* --------------------------------------------------------------------- *)

Lemma nth_nil_R (i : nat) : nth i (@nil R) 0 = 0.
Proof. now destruct i. Qed.

Lemma column_transpose (a : ndarray) (c : nat) :
  (c < shape0 a)%nat ->
  length (nth c (rows a) []) = ncols a ->
  column (np_transpose a) c = nth c (rows a) [].
Proof.
  intros Hc Hlen. unfold column, np_transpose. cbn [rows].
  rewrite map_map.
  etransitivity; [| symmetry; apply list_map_nth_seq]. rewrite Hlen.
  apply map_ext. intros i.
  rewrite <- (nth_nil_R i) at 1.
  apply (map_nth (fun r => nth i r 0) (rows a) [] c).
Qed.

(** X18.  What [get_new_eeg] hands to the loop.  When the board has
    nothing new the block has shape [(0, 0)].  Otherwise, with every
    cached channel a row of the data, the block has one row per sample and
    one column per EEG channel, and column [c] is the time series of board
    row [channels[c]]: the [win[:, c]] that the band power is taken of is
    one channel over time.  The channel list is asked for once: a filled
    cache is used and handed back unchanged. *)
Theorem get_new_eeg_layout
  (eeg_channels : list nat) (cache : option (list nat)) (data : ndarray) :
  let ch := match cache with None => eeg_channels | Some c => c end in
  (size data = 0%nat ->
   get_new_eeg eeg_channels cache data = Polled (Some ch) np_empty00) /\
  (size data <> 0%nat ->
   Forall (fun i => (i < shape0 data)%nat) ch ->
   Forall (fun r => length r = ncols data) (rows data) ->
   exists X,
     get_new_eeg eeg_channels cache data = Polled (Some ch) X /\
     shape0 X = shape1 data /\
     shape1 X = length ch /\
     forall c, (c < length ch)%nat ->
               column X c = nth (nth c ch 0%nat) (rows data) []).
Proof.
  intros ch. split.
  - intros Hz. unfold get_new_eeg. now rewrite Hz.
  - intros Hnz Hrange Hrows. unfold get_new_eeg. fold ch.
    destruct (Nat.eqb_spec (size data) 0) as [Hz | _]; [contradiction |].
    unfold take_rows.
    assert (Hall : forallb (fun i => (i <? shape0 data)%nat) ch = true).
    { apply forallb_forall. intros i Hi. apply Nat.ltb_lt.
      rewrite List.Forall_forall in Hrange. now apply Hrange. }
    rewrite Hall. eexists. split; [reflexivity |].
    split; [unfold np_transpose, shape0; cbn; now rewrite length_map, length_seq |].
    split; [unfold np_transpose, shape1, shape0; cbn; now rewrite length_map |].
    intros c Hc.
    set (sel := mkArr (ncols data) (map (fun i => nth i (rows data) []) ch)).
    assert (Hsel : nth c (rows sel) [] = nth (nth c ch 0%nat) (rows data) []).
    { unfold sel. cbn [rows].
      rewrite (nth_indep _ [] (nth 0%nat (rows data) []))
        by now rewrite length_map.
      apply (map_nth (fun i => nth i (rows data) []) ch 0%nat c). }
    rewrite <- Hsel. apply column_transpose.
    + unfold sel, shape0. cbn [rows]. now rewrite length_map.
    + rewrite Hsel. cbn [sel ncols].
      rewrite List.Forall_forall in Hrange, Hrows.
      apply Hrows, nth_In. apply Hrange, nth_In, Hc.
Qed.

Lemma get_new_eeg_layout_witness :
  let data := mkArr 2 [[1; 2]; [3; 4]; [5; 6]] in
  exists X,
    get_new_eeg [2%nat; 0%nat] None data = Polled (Some [2%nat; 0%nat]) X /\
    shape0 X = 2%nat /\
    shape1 X = 2%nat /\
    column X 0 = [5; 6].
Proof.
  intros data.
  destruct (get_new_eeg_layout [2%nat; 0%nat] None data) as [_ Hfull].
  destruct Hfull as (X & Hget & Hrows & Hcols & Hcol).
  - discriminate.
  - repeat constructor.
  - repeat constructor.
  - exists X. split; [exact Hget |]. split; [exact Hrows |].
    split; [exact Hcols |]. apply (Hcol 0%nat). cbn. lia.
Defined.

(* --------------------------------------------------------------------- *)
(** ** The state file when the console loop is ended by an exception       *)
(* --------------------------------------------------------------------- *)

(** A pass that raises leaves the state file as it found it, unless it
    is the [print] that raises, after the save: then the file holds the
    bounds the pass has just computed. *)
Lemma console_iteration_raise_disk
  (float_of_str : string -> res pyfloat)
  (fs win_len : Z) (c : Console) (d d1 : disk) (now : R) (X : ndarray)
  (o o1 : io_oracle) (mono_ns : Z) (e : exn) :
  (0 < fs)%Z ->
  read_ok o1 = true ->
  console_iteration fs win_len c d now X o mono_ns = (d1, Raise e) ->
  d1 !! PERSIST_PATH = d !! PERSIST_PATH \/
  exists l1 E alpha theta beta,
    pull_step fs win_len (c_loop c) now X = Ok l1 /\
    engagement_from_window (last_rows win_len (buf l1)) (IZR fs)
    = Ok (E, alpha, theta, beta) /\
    print_ok o = false /\
    load_norm_state float_of_str d1 o1 PERSIST_PATH
    = (Emin (update (mkNorm (c_Emin c) (c_Emax c)) (Fin E)),
       Emax (update (mkNorm (c_Emin c) (c_Emax c)) (Fin E))).
Proof.
  intros Hfs Hread. unfold console_iteration.
  destruct (pull_step fs win_len (c_loop c) now X) as [l1 | e1];
    [| intros [= <- _]; now left].
  unfold console_gate. cbn [c_loop c_Emin c_Emax].
  destruct (_ && _ && _); [| discriminate].
  destruct (engagement_from_window _ _) as [[[[E a] t] bt] | e1] eqn:Hsample;
    [| intros [= <- _]; now left].
  rewrite observe_inline_update.
  set (s1 := update (mkNorm (c_Emin c) (c_Emax c)) (Fin E)).
  destruct (normalize_total_range (mkNorm (Emin s1) (Emax s1)) (Fin E))
    as (r & Hnorm & _).
  assert (Hafter : forall l,
    (let* Enorm := normalize (mkNorm (Emin s1) (Emax s1)) (Fin E) in
     let* sec := py_floordiv (global_idx l1) fs in
     let last1 := if negb (sec =? last_sec l1)%Z then sec else last_sec l1 in
     let* _ := (if negb (sec =? last_sec l1)%Z then py_print o else Ok tt) in
     Ok (mkConsole
           (mkLoop (buf l1) (global_idx l1)
                   (advance_gate (next_gate l1) (global_idx l1))
                   (next_pull l1) last1)
           (Emin s1) (Emax s1))) = Raise l ->
    print_ok o = false).
  { intros l. rewrite Hnorm. cbn [bind]. unfold py_floordiv.
    destruct (Z.eqb_spec fs 0); [lia |]. cbn [bind]. cbv zeta.
    destruct (negb _); cbn [bind]; [| discriminate].
    unfold py_print. now destruct (print_ok o). }
  destruct (_ || _).
  - unfold save_norm_state.
    destruct (open_ok o); cbn [negb]; [| intros [= <- _]; now left].
    destruct (write_ok o); cbn [negb];
      [| intros [= <- _]; left; apply lookup_insert_ne, tmp_path_differs].
    destruct (replace_ok o); cbn [negb bind].
    + intros [= <- H]. apply Hafter in H. right.
      exists l1, E, a, t, bt. split; [reflexivity |].
      split; [exact Hsample |]. split; [exact H |].
      unfold load_norm_state, read_json. rewrite Hread. cbn [negb].
      rewrite lookup_insert_eq. reflexivity.
    + intros [= <- _]. left.
      rewrite lookup_insert_ne by apply tmp_path_differs.
      apply lookup_insert_ne, tmp_path_differs.
  - cbn [bind]. intros [= <- _]. now left.
Qed.

(** X19.  What a crash of the console loop leaves on disk.  At a positive
    rate, when [run_engagement] is ended by an exception, the state file
    holds bounds the loop really had: those in memory when the pass that
    raised began (a failed save, a block with the wrong number of
    channels: every earlier update has been saved, and the failed pass
    has written nothing to the state file), or, when that pass had saved
    and its [print] then raised, the bounds it had just computed from its
    own [E].  The exceptions are those the calls of a pass raise; a
    [KeyboardInterrupt], which can arrive between any two instructions,
    is outside the model. *)
Theorem crash_keeps_saved_bounds
  (float_of_str : string -> res pyfloat) (fs win_len : Z)
  (ticks : list console_tick) (c : Console) (d d' : disk) (e : exn)
  (o1 : io_oracle) :
  (0 < fs)%Z ->
  read_ok o1 = true ->
  load_norm_state float_of_str d o1 PERSIST_PATH = (c_Emin c, c_Emax c) ->
  run_engagement fs win_len c d ticks = (d', Terminated e) ->
  exists pre now X o mono_ns rest c1 d1,
    ticks = pre ++ (now, X, o, mono_ns) :: rest /\
    run_engagement fs win_len c d pre = (d1, Looping c1) /\
    (load_norm_state float_of_str d' o1 PERSIST_PATH = (c_Emin c1, c_Emax c1)
     \/
     exists l1 E alpha theta beta,
       pull_step fs win_len (c_loop c1) now X = Ok l1 /\
       engagement_from_window (last_rows win_len (buf l1)) (IZR fs)
       = Ok (E, alpha, theta, beta) /\
       print_ok o = false /\
       load_norm_state float_of_str d' o1 PERSIST_PATH
       = (Emin (update (mkNorm (c_Emin c1) (c_Emax c1)) (Fin E)),
          Emax (update (mkNorm (c_Emin c1) (c_Emax c1)) (Fin E)))).
Proof.
  intros Hfs Hread. revert c d.
  induction ticks as [| [[[now X] o] mono_ns] ticks IH]; intros c d Hinv.
  - cbn. discriminate.
  - cbn [run_engagement].
    destruct (console_iteration fs win_len c d now X o mono_ns)
      as [d2 [c2 | e2]] eqn:Hit.
    + intros Hrun.
      assert (Hinv2 : load_norm_state float_of_str d2 o1 PERSIST_PATH
                      = (c_Emin c2, c_Emax c2)).
      { unfold console_iteration in Hit.
        destruct (pull_step fs win_len (c_loop c) now X) as [l1 | e1];
          [| discriminate].
        eapply console_gate_persisted; [exact Hread | | exact Hit].
        exact Hinv. }
      destruct (IH c2 d2 Hinv2 Hrun)
        as (pre & now' & X' & o' & ns' & rest & c1 & d1 & -> & Hpre & Hl).
      exists ((now, X, o, mono_ns) :: pre), now', X', o', ns', rest, c1, d1.
      split; [reflexivity |]. split; [| exact Hl].
      cbn [run_engagement]. now rewrite Hit.
    + intros [= <- <-].
      exists [], now, X, o, mono_ns, ticks, c, d.
      split; [reflexivity |]. split; [reflexivity |].
      destruct (console_iteration_raise_disk float_of_str fs win_len c d d2
                  now X o o1 mono_ns e2 Hfs Hread Hit) as [Hsame | Hprint].
      * left. rewrite <- Hinv.
        apply load_norm_state_local; [exact Hsame | reflexivity].
      * right. exact Hprint.
Qed.

(** The operating system lets everything through but the [print]. *)
Lemma console_first_pass_print_fails :
  exists E,
    run_engagement 125 125 (mkConsole (Loop_init 0) FPosInf FNegInf) ∅
      [(0, first_block256, mkOracle true true true true false, 9%Z)]
    = (<[PERSIST_PATH := saved_doc (Fin E) (Fin E) 9]>
         (delete (PERSIST_PATH ++ ".tmp")%string
            (<[(PERSIST_PATH ++ ".tmp")%string := saved_doc (Fin E) (Fin E) 9]>
               (<[(PERSIST_PATH ++ ".tmp")%string := Malformed]> ∅))),
       Terminated OSError).
Proof.
  cbn [run_engagement]. unfold console_iteration. cbn [c_loop c_Emin c_Emax].
  assert (Hpull : pull_step 125 125 (Loop_init 0) 0 first_block256
                  = Ok (mkLoop (last_rows 125 first_block256) 256 GATE_STRIDE
                               (advance_pull 0 0) (-1))).
  { unfold pull_step. cbn [Loop_init next_pull].
    case_Rltb 0 0; [lra |]. cbn [negb]. reflexivity. }
  rewrite Hpull. unfold console_gate.
  cbn [c_loop c_Emin c_Emax next_gate global_idx buf last_sec next_pull].
  replace ((GATE_STRIDE <=? 256)%Z
           && (125 <=? Z.of_nat (shape0 (last_rows 125 first_block256)))%Z
           && (0 <? shape1 (last_rows 125 first_block256))%nat)
    with true by (vm_compute; reflexivity).
  destruct (engagement_ok (last_rows 125 (last_rows 125 first_block256)) (IZR 125))
    as [[[[E a] t] bt] Hsample]; [apply not_0_IZR; lia |].
  rewrite Hsample. exists E.
  change (observe_inline FPosInf FNegInf (Fin E)) with (Fin E, Fin E, true).
  cbn [save_norm_state open_ok write_ok replace_ok negb bind].
  rewrite normalize_midpoint
    by (unfold fgt, flt; cbn [Emin Emax]; case_Rltb E E; [lra | reflexivity]).
  cbn [bind]. change (py_floordiv 256 125) with (Ok 2%Z). cbn [bind].
  reflexivity.
Qed.

(** A first pass that saves and whose [print] then raises: the run ends,
    and the state file holds the bounds that pass computed. *)
Lemma crash_keeps_saved_bounds_witness :
  let tick : console_tick :=
    (0, first_block256, mkOracle true true true true false, 9%Z) in
  let c := mkConsole (Loop_init 0) FPosInf FNegInf in
  exists d' pre now X o mono_ns rest c1 d1,
    run_engagement 125 125 c ∅ [tick] = (d', Terminated OSError) /\
    [tick] = pre ++ (now, X, o, mono_ns) :: rest /\
    run_engagement 125 125 c ∅ pre = (d1, Looping c1) /\
    (load_norm_state (fun _ => Raise ValueError) d' io_fine PERSIST_PATH
     = (c_Emin c1, c_Emax c1)
     \/
     exists l1 E alpha theta beta,
       pull_step 125 125 (c_loop c1) now X = Ok l1 /\
       engagement_from_window (last_rows 125 (buf l1)) 125
       = Ok (E, alpha, theta, beta) /\
       print_ok o = false /\
       load_norm_state (fun _ => Raise ValueError) d' io_fine PERSIST_PATH
       = (Emin (update (mkNorm (c_Emin c1) (c_Emax c1)) (Fin E)),
          Emax (update (mkNorm (c_Emin c1) (c_Emax c1)) (Fin E)))).
Proof.
  intros tick c.
  destruct console_first_pass_print_fails as [E Hrun].
  assert (Hload : load_norm_state (fun _ => Raise ValueError) ∅ io_fine
                    PERSIST_PATH = (c_Emin c, c_Emax c)) by reflexivity.
  assert (Hfs : (0 < 125)%Z) by lia.
  destruct (crash_keeps_saved_bounds (fun _ => Raise ValueError) 125 125
              [tick] c ∅ _ OSError io_fine Hfs eq_refl Hload Hrun)
    as (pre & now & X & o & ns & rest & c1 & d1 & Hsplit & Hpre & Hfile).
  eexists _, pre, now, X, o, ns, rest, c1, d1.
  split; [exact Hrun |]. split; [exact Hsplit |]. split; [exact Hpre |].
  exact Hfile.
Defined.

(* --------------------------------------------------------------------- *)
(** ** What the console loop writes                                        *)
(* --------------------------------------------------------------------- *)

Lemma console_gate_writes_regular
  (fs win_len : Z) (c : Console) (d : disk) (o : io_oracle) (mono_ns : Z) :
  norm_regular (mkNorm (c_Emin c) (c_Emax c)) ->
  ((console_gate fs win_len c d o mono_ns).1 !! PERSIST_PATH = d !! PERSIST_PATH
   \/ doc_regular ((console_gate fs win_len c d o mono_ns).1 !! PERSIST_PATH))
  /\
  forall c1, (console_gate fs win_len c d o mono_ns).2 = Ok c1 ->
             norm_regular (mkNorm (c_Emin c1) (c_Emax c1)).
Proof.
  intros Hreg. unfold console_gate.
  destruct (_ && _ && _).
  2:{ cbn [fst snd]. split; [now left |]. now intros c1 [= <-]. }
  destruct (engagement_from_window _ _) as [[[[E a] t] bt] | e].
  2:{ cbn [fst snd]. split; [now left | discriminate]. }
  rewrite observe_inline_update.
  destruct (update_regular _ E Hreg) as (lo & hi & -> & Hb).
  cbn [Emin Emax].
  assert (Hout : forall l c1,
    (let* Enorm := normalize (mkNorm (Fin lo) (Fin hi)) (Fin E) in
     let* sec := py_floordiv (global_idx l) fs in
     let last1 := if negb (sec =? last_sec l)%Z then sec else last_sec l in
     let* _ := (if negb (sec =? last_sec l)%Z then py_print o else Ok tt) in
     Ok (mkConsole
           (mkLoop (buf l) (global_idx l)
                   (advance_gate (next_gate l) (global_idx l))
                   (next_pull l) last1)
           (Fin lo) (Fin hi))) = Ok c1 ->
    norm_regular (mkNorm (c_Emin c1) (c_Emax c1))).
  { intros l c1. destruct (normalize _ _); cbn [bind]; [| discriminate].
    destruct (py_floordiv _ _); cbn [bind]; [| discriminate].
    print_returned.
    intros [= <-]. cbn [c_Emin c_Emax]. right. exists lo, hi.
    split; [reflexivity | lra]. }
  destruct (_ || _).
  - unfold save_norm_state.
    destruct (open_ok o); cbn [negb fst snd bind];
      [| split; [now left | discriminate]].
    destruct (write_ok o); cbn [negb fst snd bind].
    2:{ split; [| discriminate]. left.
        apply lookup_insert_ne, tmp_path_differs. }
    destruct (replace_ok o); cbn [negb fst snd bind].
    + split; [| apply Hout]. right. exists lo, hi, mono_ns.
      split; [| lra]. now rewrite lookup_insert_eq.
    + split; [| discriminate]. left.
      rewrite lookup_insert_ne by apply tmp_path_differs.
      apply lookup_insert_ne, tmp_path_differs.
  - cbn [fst snd bind]. split; [now left | apply Hout].
Qed.

(** X20.  The console loop only ever writes finite bounds.  Started with
    bounds that are untouched or finite and ordered, after any passes and
    whatever the operating system does, the state file is what it was
    before the run or holds a document with two finite numbers
    [Emin <= Emax]: the infinities of the untouched state are never
    saved. *)
Theorem state_file_holds_finite_bounds
  (fs win_len : Z) (ticks : list console_tick) (c : Console) (d : disk) :
  norm_regular (mkNorm (c_Emin c) (c_Emax c)) ->
  (run_engagement fs win_len c d ticks).1 !! PERSIST_PATH = d !! PERSIST_PATH
  \/ doc_regular ((run_engagement fs win_len c d ticks).1 !! PERSIST_PATH).
Proof.
  revert c d.
  induction ticks as [| [[[now X] o] mono_ns] ticks IH]; intros c d Hreg.
  - now left.
  - cbn [run_engagement]. unfold console_iteration.
    destruct (pull_step fs win_len (c_loop c) now X) as [l1 | e];
      [| now left].
    destruct (console_gate_writes_regular fs win_len
                (mkConsole l1 (c_Emin c) (c_Emax c)) d o mono_ns Hreg)
      as [Hdisk Hnext].
    destruct (console_gate fs win_len (mkConsole l1 (c_Emin c) (c_Emax c))
                d o mono_ns) as [d1 [c1 | e]]; cbn [fst snd] in *.
    + destruct (IH c1 d1 (Hnext c1 eq_refl)) as [Hsame | Hdoc].
      * rewrite Hsame. exact Hdisk.
      * now right.
    + exact Hdisk.
Qed.

Lemma state_file_holds_finite_bounds_witness :
  let ticks : list console_tick := [(0, jump_block, io_fine, 7%Z)] in
  (run_engagement 125 125 console_before ∅ ticks).1 !! PERSIST_PATH
  = (∅ : disk) !! PERSIST_PATH
  \/ doc_regular ((run_engagement 125 125 console_before ∅ ticks).1
                    !! PERSIST_PATH).
Proof.
  intros ticks.
  apply (state_file_holds_finite_bounds 125 125 ticks console_before ∅).
  left. reflexivity.
Defined.
